(** * Cluster similarity network: layout, filtering, caching, selection

    A shallow embedding of the knowledge-graph front end
    ([frontend/js/knowledge-graph.js], the visualization manager and the
    concept-tree renderer) together with the properties its specification
    states about it.

    JavaScript numbers are IEEE 754 binary64 values and are modelled by
    Rocq's primitive floats, whose operations are the same correctly
    rounded ones.  JavaScript objects used as dictionaries are finite maps
    keyed by strings.  Node and cluster identifiers are represented by
    their [String(id)] image, which is the only way the code ever uses
    them (as property keys, in template strings, through [String(...)]). *)

From Stdlib Require Import Floats ZArith List Bool.
From stdpp Require Import gmap strings list sorting pretty.

Set Warnings "-inexact-float,-register-all".

(* ===================================================================== *)
(** * Part I.  The embedding                                              *)
(* ===================================================================== *)

(** ** JavaScript numbers *)

Module JS.

(** [ToBoolean] on a number: [0], [-0] and [NaN] are falsy. *)
Definition truthy (v : float) : bool :=
  negb (PrimFloat.eqb v 0) && negb (PrimFloat.is_nan v).

(** [v || d] where [v] is a number. *)
Definition or_else (v d : float) : float :=
  if truthy v then v else d.

(** [v || d] where [v] is a number or [undefined]. *)
Definition or_default (v : option float) (d : float) : float :=
  match v with
  | Some n => or_else n d
  | None => d
  end.

(** [a >= b] and [a > b]; both are false as soon as one side is [NaN]. *)
Definition ge (a b : float) : bool := PrimFloat.leb b a.
Definition gt (a b : float) : bool := PrimFloat.ltb b a.

Definition is_neg_zero (v : float) : bool :=
  match PrimFloat.classify v with
  | NZero => true
  | _ => false
  end.

(** One step of [Math.min]: [NaN] is contagious and [-0] is below [+0]. *)
Definition min_step (lowest v : float) : float :=
  if PrimFloat.is_nan lowest || PrimFloat.is_nan v then PrimFloat.nan
  else if PrimFloat.ltb v lowest then v
  else if PrimFloat.eqb v lowest && is_neg_zero v then v
  else lowest.

Definition max_step (highest v : float) : float :=
  if PrimFloat.is_nan highest || PrimFloat.is_nan v then PrimFloat.nan
  else if PrimFloat.ltb highest v then v
  else if PrimFloat.eqb v highest && is_neg_zero highest then v
  else highest.

(** [Math.min(...vs)] and [Math.max(...vs)]; on no argument they are
    [+Infinity] and [-Infinity]. *)
Definition Math_min (vs : list float) : float :=
  foldl min_step PrimFloat.infinity vs.
Definition Math_max (vs : list float) : float :=
  foldl max_step PrimFloat.neg_infinity vs.

(** The numbers that JSON can carry: neither [NaN] nor an infinity. *)
Definition finite (v : float) : bool :=
  PrimFloat.ltb PrimFloat.neg_infinity v && PrimFloat.ltb v PrimFloat.infinity.

(** The property names that every object literal inherits from
    [Object.prototype].  Reading one of them from a plain object used as
    a dictionary finds the inherited member when the object has no such
    key of its own, and writing [__proto__] sets no key at all; a
    dictionary is a finite map on the other keys only. *)
Definition inherited (key : string) : bool :=
  bool_decide
    (key ∈ ["constructor"; "__proto__"; "hasOwnProperty"; "isPrototypeOf";
            "propertyIsEnumerable"; "toLocaleString"; "toString"; "valueOf";
            "__defineGetter__"; "__defineSetter__"; "__lookupGetter__";
            "__lookupSetter__"]).

End JS.

(** ** Graph data *)

(** A node and an edge of [graph_data] as the Data Service returns them.
    [similarity] may be missing from an edge, [story_ids] from a node. *)
Record GraphNode := {
  gn_id : string;
  gn_label : string;
  gn_size : float;
  gn_avg_engagement : float;
  gn_color : string;
  gn_story_ids : option (list string)
}.

Record GraphEdge := {
  ge_source : string;
  ge_target : string;
  ge_similarity : option float
}.

Record GraphData := {
  gd_nodes : list GraphNode;
  gd_edges : list GraphEdge
}.

(** The objects pushed on [sigmaGraph.nodes] and [sigmaGraph.edges].  The
    velocity fields do not exist until the layout first writes them. *)
Record SigmaNode := {
  sn_key : string;
  sn_label : string;
  sn_size : float;
  sn_color : string;
  sn_originalId : string;
  sn_storiesCount : float;
  sn_engagement : float;
  sn_storyIds : list string;
  sn_x : float;
  sn_y : float;
  sn_vx : option float;
  sn_vy : option float
}.

Record SigmaEdge := {
  se_key : string;
  se_source : string;
  se_target : string;
  se_similarity : float;
  se_color : string;
  se_size : float
}.

(** The attributes graphology keeps for a node. *)
Record NodeAttrs := {
  na_label : string;
  na_x : float;
  na_y : float;
  na_size : float;
  na_color : string;
  na_originalId : string;
  na_storiesCount : float;
  na_engagement : float;
  na_storyIds : list string
}.

Definition vec : Type := float * float.

(** ** The force-directed layout ([applyForceLayout]) *)

Module Layout.

Definition iterations : nat := 50.
Definition k : float := 2.
Definition c : float := 0.1.
Definition dt : float := 0.05.
Definition friction : float := 0.85.

(** [forces[key].x += e] and its three siblings.  Every key the loops
    touch was given an accumulator by [reset_forces]. *)
Definition add_x (key : string) (e : float) (forces : gmap string vec) :=
  alter (λ f : vec, (f.1 + e, f.2)%float) key forces.
Definition add_y (key : string) (e : float) (forces : gmap string vec) :=
  alter (λ f : vec, (f.1, f.2 + e)%float) key forces.
Definition sub_x (key : string) (e : float) (forces : gmap string vec) :=
  alter (λ f : vec, (f.1 - e, f.2)%float) key forces.
Definition sub_y (key : string) (e : float) (forces : gmap string vec) :=
  alter (λ f : vec, (f.1, f.2 - e)%float) key forces.

(** [nodes.forEach(node => forces[node.key] = {x: 0, y: 0})] *)
Definition reset_forces (nodes : list SigmaNode)
    (forces : gmap string vec) : gmap string vec :=
  foldl (λ F n, <[sn_key n := (0, 0)%float]> F) forces nodes.

(** [Math.sqrt(dx * dx + dy * dy) || 0.1] *)
Definition distance (dx dy : float) : float :=
  JS.or_else (PrimFloat.sqrt (dx * dx + dy * dy)) 0.1.

(** Body of the inner repulsion loop for the pair [(n1, n2)]. *)
Definition repulse (n1 n2 : SigmaNode)
    (forces : gmap string vec) : gmap string vec :=
  let dx := (sn_x n2 - sn_x n1)%float in
  let dy := (sn_y n2 - sn_y n1)%float in
  let dist := distance dx dy in
  let force := ((c / (dist * dist)) * 100)%float in
  let forces := sub_x (sn_key n1) ((dx / dist) * force) forces in
  let forces := sub_y (sn_key n1) ((dy / dist) * force) forces in
  let forces := add_x (sn_key n2) ((dx / dist) * force) forces in
  add_y (sn_key n2) ((dy / dist) * force) forces.

(** [for i < length; for j = i + 1 < length]: each node against the
    nodes that follow it. *)
Fixpoint repulsive_forces (nodes : list SigmaNode)
    (forces : gmap string vec) : gmap string vec :=
  match nodes with
  | [] => forces
  | n1 :: rest =>
      repulsive_forces rest (foldl (λ F n2, repulse n1 n2 F) forces rest)
  end.

(** [nodes.find(n => n.key === key)] *)
Definition find_node (nodes : list SigmaNode) (key : string)
    : option SigmaNode :=
  List.find (λ n, String.eqb (sn_key n) key) nodes.

(** Body of [edges.forEach] in the attraction phase. *)
Definition attract (nodes : list SigmaNode) (forces : gmap string vec)
    (edge : SigmaEdge) : gmap string vec :=
  match find_node nodes (se_source edge), find_node nodes (se_target edge) with
  | Some n1, Some n2 =>
      let dx := (sn_x n2 - sn_x n1)%float in
      let dy := (sn_y n2 - sn_y n1)%float in
      let dist := distance dx dy in
      let force := ((dist - k) * 0.01)%float in
      let forces := add_x (sn_key n1) ((dx / dist) * force) forces in
      let forces := add_y (sn_key n1) ((dy / dist) * force) forces in
      let forces := sub_x (sn_key n2) ((dx / dist) * force) forces in
      sub_y (sn_key n2) ((dy / dist) * force) forces
  | _, _ => forces
  end.

Definition attractive_forces (nodes : list SigmaNode)
    (edges : list SigmaEdge) (forces : gmap string vec) : gmap string vec :=
  foldl (attract nodes) forces edges.

(** The velocity and position update with force [(fx, fy)]. *)
Definition move (f : vec) (node : SigmaNode) : SigmaNode :=
  let vx := (JS.or_default (sn_vx node) 0 * friction + f.1 * dt)%float in
  let vy := (JS.or_default (sn_vy node) 0 * friction + f.2 * dt)%float in
  {| sn_key := sn_key node; sn_label := sn_label node;
     sn_size := sn_size node; sn_color := sn_color node;
     sn_originalId := sn_originalId node;
     sn_storiesCount := sn_storiesCount node;
     sn_engagement := sn_engagement node;
     sn_storyIds := sn_storyIds node;
     sn_x := (sn_x node + vx)%float; sn_y := (sn_y node + vy)%float;
     sn_vx := Some vx; sn_vy := Some vy |}.

(** Body of the position loop: reads [forces[node.key]]. *)
Definition update_node (forces : gmap string vec) (node : SigmaNode)
    : SigmaNode :=
  move (default (0, 0)%float (forces !! sn_key node)) node.

(** One pass of the [for (iter ...)] loop over the node objects and the
    [forces] dictionary. *)
Definition iteration (edges : list SigmaEdge)
    (st : list SigmaNode * gmap string vec) : list SigmaNode * gmap string vec :=
  let nodes := st.1 in
  let forces := reset_forces nodes st.2 in
  let forces := repulsive_forces nodes forces in
  let forces := attractive_forces nodes edges forces in
  (map (update_node forces) nodes, forces).

Definition simulate (nodes : list SigmaNode) (edges : list SigmaEdge)
    : list SigmaNode :=
  (Nat.iter iterations (iteration edges) (nodes, reset_forces nodes ∅)).1.

Global Arguments simulate : simpl never.

(** [graph.setNodeAttribute(key, 'x', x)] then the same for ['y'].
    graphology raises on a key that is no node of the graph; the layout
    asks only for the keys of the nodes that were added to it, on which
    this is the update of the two attributes. *)
Definition set_position (graph : gmap string NodeAttrs) (node : SigmaNode)
    : gmap string NodeAttrs :=
  alter (λ a, {| na_label := na_label a; na_x := sn_x node; na_y := sn_y node;
                 na_size := na_size a; na_color := na_color a;
                 na_originalId := na_originalId a;
                 na_storiesCount := na_storiesCount a;
                 na_engagement := na_engagement a;
                 na_storyIds := na_storyIds a |})
        (sn_key node) graph.

(** [applyForceLayout(graphologyGraph, graphData)]: the node objects of
    [graphData.nodes] are moved in place and their final positions are
    written to the graphology graph. *)
Definition applyForceLayout (graph : gmap string NodeAttrs)
    (nodes : list SigmaNode) (edges : list SigmaEdge)
    : gmap string NodeAttrs * list SigmaNode :=
  let nodes := simulate nodes edges in
  (foldl set_position graph nodes, nodes).

(** *** The layout as the specification words it

    A per-node account: the force on a node is accumulated over the
    other nodes and over the edges, then velocity and position follow.
    The distance guard is a parameter so that both readings of it can be
    compared with the code. *)
Section Described.
Variable guard : float → float → float.

(** Repulsion between [a] and [b], as a vector pointing from [a] to [b]
    of magnitude [(c / dist²) * 100]. *)
Definition repulsion (a b : SigmaNode) : vec :=
  let dx := (sn_x b - sn_x a)%float in
  let dy := (sn_y b - sn_y a)%float in
  let dist := guard dx dy in
  let force := ((c / (dist * dist)) * 100)%float in
  ((dx / dist) * force, (dy / dist) * force)%float.

(** Spring force of an edge from [a] to [b], as a vector pointing from
    [a] to [b] of magnitude [(dist - k) * 0.01]. *)
Definition spring (a b : SigmaNode) : vec :=
  let dx := (sn_x b - sn_x a)%float in
  let dy := (sn_y b - sn_y a)%float in
  let dist := guard dx dy in
  let force := ((dist - k) * 0.01)%float in
  ((dx / dist) * force, (dy / dist) * force)%float.

Definition vadd (f g : vec) : vec := (f.1 + g.1, f.2 + g.2)%float.
Definition vsub (f g : vec) : vec := (f.1 - g.1, f.2 - g.2)%float.

(** Repulsion on [n]: pushed away from the nodes before it and from
    the nodes after it. *)
Definition net_repulsion (before : list SigmaNode) (n : SigmaNode)
    (after : list SigmaNode) : vec :=
  foldl (λ f m, vsub f (repulsion n m))
        (foldl (λ f m, vadd f (repulsion m n)) (0, 0)%float before)
        after.

(** Contribution of one edge to the force on the node of key [key]:
    the source is pulled towards the target and the target towards
    the source; an edge with an endpoint that is no node has none. *)
Definition spring_on (nodes : list SigmaNode) (key : string) (f : vec)
    (edge : SigmaEdge) : vec :=
  match find_node nodes (se_source edge), find_node nodes (se_target edge) with
  | Some a, Some b =>
      let f := if decide (sn_key a = key) then vadd f (spring a b) else f in
      if decide (sn_key b = key) then vsub f (spring a b) else f
  | _, _ => f
  end.

Definition net_force (nodes : list SigmaNode) (edges : list SigmaEdge)
    (before : list SigmaNode) (n : SigmaNode) (after : list SigmaNode) : vec :=
  foldl (spring_on nodes (sn_key n)) (net_repulsion before n after) edges.

Fixpoint described_nodes (nodes : list SigmaNode) (edges : list SigmaEdge)
    (before rest : list SigmaNode) : list SigmaNode :=
  match rest with
  | [] => []
  | n :: after =>
      move (net_force nodes edges before n after) n
      :: described_nodes nodes edges (before ++ [n]) after
  end.

Definition described_iteration (edges : list SigmaEdge)
    (nodes : list SigmaNode) : list SigmaNode :=
  described_nodes nodes edges [] nodes.

Definition described_layout (nodes : list SigmaNode)
    (edges : list SigmaEdge) : list SigmaNode :=
  Nat.iter 50 (described_iteration edges) nodes.
End Described.

(** What the pair [(n1, n2)] of the repulsion loop does to the
    accumulator stored under [key], and what the whole loop does to it. *)
Definition repulse_at (key : string) (n1 n2 : SigmaNode) (f : vec) : vec :=
  let f := if decide (sn_key n1 = key)
           then vsub f (repulsion distance n1 n2) else f in
  if decide (sn_key n2 = key) then vadd f (repulsion distance n1 n2) else f.

Fixpoint repulsive_at (key : string) (nodes : list SigmaNode) (f : vec) : vec :=
  match nodes with
  | [] => f
  | n1 :: rest =>
      repulsive_at key rest (foldl (λ f n2, repulse_at key n1 n2 f) f rest)
  end.

(** The guard as the specification words it: a floor of [0.1]. *)
Definition floor_guard (dx dy : float) : float :=
  let dist := PrimFloat.sqrt (dx * dx + dy * dy) in
  if PrimFloat.ltb dist 0.1 then 0.1%float else dist.

End Layout.

(** ** Rendering the similarity network ([renderGraph]) and the manager *)

Module Graph.

Inductive topic := top | bottom.

(** An object literal [{top: ..., bottom: ...}]. *)
Record slots (A : Type) := Slots { slot_top : A; slot_bottom : A }.
Arguments Slots {A}.
Arguments slot_top {A}.
Arguments slot_bottom {A}.

Definition slot_get {A} (t : topic) (s : slots A) : A :=
  match t with top => slot_top s | bottom => slot_bottom s end.
Definition slot_set {A} (t : topic) (v : A) (s : slots A) : slots A :=
  match t with
  | top => Slots v (slot_bottom s)
  | bottom => Slots (slot_top s) v
  end.

(** What a live Sigma renderer shows: the graphology node attributes,
    the node objects in insertion order, and the edges that were added. *)
Record Rendered := {
  r_graph : gmap string NodeAttrs;
  r_nodes : list SigmaNode;
  r_edges : list SigmaEdge
}.

(** The module-level variables of [KnowledgeGraphManager].  The last two
    fields are instrumentation: how many values [Math.random] has handed
    out, and how many times [applyForceLayout] has run. *)
Record Manager := {
  currentTopic : topic;
  graphData : slots (option GraphData);
  searchIds : slots (option string);
  currentGraph : option Rendered;
  currentThreshold : float;
  currentGraphData : option GraphData;
  calculatedPositions : option (gmap string vec);
  random_calls : nat;
  layout_runs : nat
}.

Definition minSize : float := 5.
Definition maxSize : float := 30.

(** [minSize + normalizedSize * (maxSize - minSize)] with
    [normalizedSize = (size - minNodeSize) / (maxNodeSize - minNodeSize || 1)]. *)
Definition nodeSize (minNodeSize maxNodeSize size : float) : float :=
  let normalizedSize :=
    ((size - minNodeSize) / JS.or_else (maxNodeSize - minNodeSize) 1)%float in
  (minSize + (normalizedSize * (maxSize - minSize)))%float.

(** The stored position of a node if there is one, two fresh random
    coordinates otherwise.  [random i] is the [i]-th value that
    [Math.random()] returns.  The cache is read as a finite map, which it
    is for ids that are not [JS.inherited]. *)
Definition place (random : nat → float)
    (positions : option (gmap string vec)) (calls : nat) (node : GraphNode)
    : vec * nat :=
  match positions ≫= (λ cache, cache !! gn_id node) with
  | Some p => (p, calls)
  | None =>
      ((random calls * 100, random (S calls) * 100)%float, S (S calls))
  end.

(** [graphData.nodes.forEach(node => ... sigmaGraph.nodes.push({...}))] *)
Fixpoint sigma_nodes (random : nat → float)
    (positions : option (gmap string vec)) (minNodeSize maxNodeSize : float)
    (calls : nat) (nodes : list GraphNode) : list SigmaNode * nat :=
  match nodes with
  | [] => ([], calls)
  | node :: rest =>
      let '(p, calls) := place random positions calls node in
      let pushed :=
        {| sn_key := gn_id node; sn_label := gn_label node;
           sn_size := nodeSize minNodeSize maxNodeSize (gn_size node);
           sn_color := gn_color node; sn_originalId := gn_id node;
           sn_storiesCount := gn_size node;
           sn_engagement := gn_avg_engagement node;
           sn_storyIds := default [] (gn_story_ids node);
           sn_x := p.1; sn_y := p.2; sn_vx := None; sn_vy := None |} in
      let '(others, calls) :=
        sigma_nodes random positions minNodeSize maxNodeSize calls rest in
      (pushed :: others, calls)
  end.

(** [edge.similarity || 0.5] *)
Definition edge_similarity (edge : GraphEdge) : float :=
  JS.or_default (ge_similarity edge) 0.5.

(** Colour and width by similarity tier. *)
Definition edge_style (similarity : float) : string * float :=
  if JS.gt similarity 0.8 then ("rgba(20, 20, 20, 0.9)", 3.5%float)
  else if JS.ge similarity 0.5 then ("rgba(100, 100, 100, 0.6)", 2.5%float)
  else ("rgba(180, 180, 180, 0.25)", 1.5%float).

(** Body of [graphData.edges.forEach]: the pushed edge, if any. *)
Definition render_edge (threshold : float) (edge : GraphEdge)
    : option SigmaEdge :=
  let similarity := edge_similarity edge in
  if JS.ge similarity threshold then
    Some {| se_key := ge_source edge +:+ "-" +:+ ge_target edge;
            se_source := ge_source edge; se_target := ge_target edge;
            se_similarity := similarity;
            se_color := (edge_style similarity).1;
            se_size := (edge_style similarity).2 |}
  else None.

Definition sigma_edges (threshold : float) (edges : list GraphEdge)
    : list SigmaEdge :=
  omap (render_edge threshold) edges.

(** The attribute object handed to [addNode]. *)
Definition attrs_of (node : SigmaNode) : NodeAttrs :=
  {| na_label := sn_label node; na_x := sn_x node; na_y := sn_y node;
     na_size := sn_size node; na_color := sn_color node;
     na_originalId := sn_originalId node;
     na_storiesCount := sn_storiesCount node;
     na_engagement := sn_engagement node;
     na_storyIds := sn_storyIds node |}.

(** [graphologyGraph.addNode(node.key, {...})] *)
Definition addNode (graph : gmap string NodeAttrs) (node : SigmaNode)
    : gmap string NodeAttrs :=
  <[sn_key node := attrs_of node]> graph.

(** [{x: getNodeAttribute(key, 'x'), y: getNodeAttribute(key, 'y')}] *)
Definition position_of (a : NodeAttrs) : vec := (na_x a, na_y a).

(** [calculatedPositions[node.originalId] = {x: getNodeAttribute(key, 'x'),
    y: getNodeAttribute(key, 'y')}]; every key asked for is a node of the
    graph. *)
Definition store_position (graph : gmap string NodeAttrs)
    (cache : gmap string vec) (node : SigmaNode) : gmap string vec :=
  match graph !! sn_key node with
  | Some a => <[sn_originalId node := position_of a]> cache
  | None => cache
  end.

(** The graphs that [renderGraph] draws without an exception.  graphology
    raises on a node key that is already present, on an edge that ends
    at no node and on a second edge from a source to a target; and a node
    whose id names a member of [Object.prototype] can find that member
    in [calculatedPositions] in place of a position.  Whether an edge
    reaches [addEdge] depends on the threshold, so the conditions are on
    every edge. *)
Definition accepted (data : GraphData) : Prop :=
  NoDup (gn_id <$> gd_nodes data)
  ∧ Forall (λ id, JS.inherited id = false) (gn_id <$> gd_nodes data)
  ∧ NoDup ((λ edge, (ge_source edge, ge_target edge)) <$> gd_edges data)
  ∧ Forall (λ edge, ge_source edge ∈ gn_id <$> gd_nodes data
                    ∧ ge_target edge ∈ gn_id <$> gd_nodes data)
           (gd_edges data).

#[global] Instance accepted_dec (data : GraphData) : Decision (accepted data).
Proof. unfold accepted. apply _. Defined.

(** [renderGraph(graphData)] on a graph that is [accepted], which is
    where it runs to its end: adding a node is then an insertion, and
    every position read from [calculatedPositions] is one that was
    stored there. *)
Definition renderGraph (random : nat → float) (data : GraphData)
    (s : Manager) : Manager :=
  let sizes := gn_size <$> gd_nodes data in
  let minNodeSize := JS.Math_min sizes in
  let maxNodeSize := JS.Math_max sizes in
  let '(nodes, calls) :=
    sigma_nodes random (calculatedPositions s) minNodeSize maxNodeSize
                (random_calls s) (gd_nodes data) in
  let edges := sigma_edges (currentThreshold s) (gd_edges data) in
  let graph := foldl addNode ∅ nodes in
  match calculatedPositions s with
  | None =>
      let '(graph, nodes) := Layout.applyForceLayout graph nodes edges in
      {| currentTopic := currentTopic s; graphData := graphData s;
         searchIds := searchIds s;
         currentGraph :=
           Some {| r_graph := graph; r_nodes := nodes; r_edges := edges |};
         currentThreshold := currentThreshold s;
         currentGraphData := Some data;
         calculatedPositions := Some (foldl (store_position graph) ∅ nodes);
         random_calls := calls;
         layout_runs := S (layout_runs s) |}
  | Some cache =>
      {| currentTopic := currentTopic s; graphData := graphData s;
         searchIds := searchIds s;
         currentGraph :=
           Some {| r_graph := graph; r_nodes := nodes; r_edges := edges |};
         currentThreshold := currentThreshold s;
         currentGraphData := Some data;
         calculatedPositions := Some cache;
         random_calls := calls;
         layout_runs := layout_runs s |}
  end.

(** The events that reach the manager. *)
Inductive event :=
| ThresholdInput (percent : float)
    (** the slider's [input] event; [percent] is [parseInt(e.target.value)] *)
| TopicClicked (t : topic)
    (** a click on a [.topic-btn] *)
| GraphFetched (t : topic) (data : GraphData)
    (** [generateGraph(t)] resumes with a successful response *)
| RenderTimer (data : GraphData)
    (** the [setTimeout] callback that [generateGraph] scheduled *).

Definition set_threshold (v : float) (s : Manager) : Manager :=
  {| currentTopic := currentTopic s; graphData := graphData s;
     searchIds := searchIds s; currentGraph := currentGraph s;
     currentThreshold := v; currentGraphData := currentGraphData s;
     calculatedPositions := calculatedPositions s;
     random_calls := random_calls s; layout_runs := layout_runs s |}.

Definition set_topic (t : topic) (s : Manager) : Manager :=
  {| currentTopic := t; graphData := graphData s;
     searchIds := searchIds s; currentGraph := currentGraph s;
     currentThreshold := currentThreshold s;
     currentGraphData := currentGraphData s;
     calculatedPositions := calculatedPositions s;
     random_calls := random_calls s; layout_runs := layout_runs s |}.

(** [graphData[topic] = result.graph_data; calculatedPositions = null] *)
Definition store_graph (t : topic) (data : GraphData) (s : Manager) : Manager :=
  {| currentTopic := currentTopic s;
     graphData := slot_set t (Some data) (graphData s);
     searchIds := searchIds s; currentGraph := currentGraph s;
     currentThreshold := currentThreshold s;
     currentGraphData := currentGraphData s;
     calculatedPositions := None;
     random_calls := random_calls s; layout_runs := layout_runs s |}.

Definition step (random : nat → float) (s : Manager) (e : event) : Manager :=
  match e with
  | ThresholdInput percent =>
      let s := set_threshold (percent / 100)%float s in
      match currentGraphData s with
      | Some data => renderGraph random data s
      | None => s
      end
  | TopicClicked t =>
      let s := set_topic t s in
      match slot_get t (graphData s) with
      | Some data => renderGraph random data s
      | None => s
      end
  | GraphFetched t data => store_graph t data s
  | RenderTimer data => renderGraph random data s
  end.

Definition run (random : nat → float) (s : Manager) (events : list event)
    : Manager :=
  foldl (step random) s events.

(** The state in which the page starts, with the search ids found in
    [sessionStorage]. *)
Definition init (ids : slots (option string)) : Manager :=
  {| currentTopic := top; graphData := Slots None None; searchIds := ids;
     currentGraph := None; currentThreshold := 0.5;
     currentGraphData := None; calculatedPositions := None;
     random_calls := 0; layout_runs := 0 |}.

(** The coordinates at which the live renderer draws the node [key]. *)
Definition drawn_at (s : Manager) (key : string) : option vec :=
  r ← currentGraph s; a ← r_graph r !! key; Some (position_of a).

(** The radius with which the live renderer draws the node [key]. *)
Definition drawn_size (s : Manager) (key : string) : option float :=
  r ← currentGraph s; a ← r_graph r !! key; Some (na_size a).

Definition is_fetch (e : event) : bool :=
  match e with GraphFetched _ _ => true | _ => false end.

(** *** Edge filtering as the specification words it *)

(** Included exactly when the similarity reaches the threshold, a
    missing similarity counting as [0.5]. *)
Definition described_included (threshold : float) (edge : GraphEdge) : bool :=
  JS.ge (default 0.5%float (ge_similarity edge)) threshold.

(** Width by tier: [3.5] above [0.8], [2.5] on [[0.5, 0.8]], [1.5] below. *)
Definition described_width (edge : GraphEdge) : float :=
  let similarity := default 0.5%float (ge_similarity edge) in
  if JS.gt similarity 0.8 then 3.5%float
  else if JS.ge similarity 0.5 then 2.5%float
  else 1.5%float.

End Graph.

(** ** The concept hierarchy: building, drawing, path highlighting *)

Module Concept.

(** A node of the flat list the Concept Hierarchy request returns. *)
Record ConceptNode := {
  cn_id : string;
  cn_label : string;
  cn_layer : Z;
  cn_article_title : option string;
  cn_article_url : option string;
  cn_article_hn_url : option string;
  cn_children : option (list string)
}.

(** The objects [{...node, children: [...]}] that the build creates.  They
    refer to each other, so they live in a heap and are named by their
    address; [nodeMap] maps an id to the object currently stored under it. *)
Record Built := {
  b_data : ConceptNode;
  b_children : list nat
}.

Record Building := {
  heap : list Built;
  nodeMap : gmap string nat
}.

(** [ids.map(childId => nodeMap[childId]).filter(Boolean)], [nodeMap]
    being read as a finite map, which it is on the lists that are
    [plain] (below). *)
Definition resolve (map : gmap string nat) (ids : list string) : list nat :=
  omap (λ id, map !! id) ids.

(** [nodeMap[node.id] = {...node, children}] with a new object. *)
Definition allocate (node : ConceptNode) (children : list nat)
    (st : Building) : Building :=
  {| heap := heap st ++ [{| b_data := node; b_children := children |}];
     nodeMap := <[cn_id node := length (heap st)]> (nodeMap st) |}.

(** Body of the first [nodes.forEach]. *)
Definition initialize (st : Building) (node : ConceptNode) : Building :=
  allocate node
    (match cn_children node with
     | Some ids => resolve (nodeMap st) ids
     | None => []
     end) st.

(** Body of the loop commented "First pass". *)
Definition create (st : Building) (node : ConceptNode) : Building :=
  match nodeMap st !! cn_id node with
  | Some _ => st
  | None => allocate node [] st
  end.

(** Body of the loop commented "Second pass": the children of the object
    stored under the node's id are resolved again, unresolved ids being
    filtered out. *)
Definition link (st : Building) (node : ConceptNode) : Building :=
  match cn_children node with
  | Some (child :: others) =>
      match nodeMap st !! cn_id node with
      | Some addr =>
          {| heap := alter (λ b, {| b_data := b_data b;
                                    b_children :=
                                      resolve (nodeMap st) (child :: others) |})
                           addr (heap st);
             nodeMap := nodeMap st |}
      | None => st
      end
  | _ => st
  end.

Definition build (nodes : list ConceptNode) : Building :=
  foldl link
    (foldl create
       (foldl initialize {| heap := []; nodeMap := ∅ |} nodes) nodes) nodes.

(** Every id in [nodeMap] names an object of the heap that carries it. *)
Definition well_addressed (st : Building) : Prop :=
  ∀ id addr, nodeMap st !! id = Some addr →
    ∃ b, heap st !! addr = Some b ∧ cn_id (b_data b) = id.

(** The child ids a node declares; a missing [children] field declares
    none. *)
Definition declared (node : ConceptNode) : list string :=
  default [] (cn_children node).

(** A node of [d3.hierarchy(root)]. *)
Inductive hnode := HNode (data : ConceptNode) (kids : list hnode).

Definition data_of (t : hnode) : ConceptNode :=
  match t with HNode data _ => data end.
Definition kids_of (t : hnode) : list hnode :=
  match t with HNode _ kids => kids end.

(** [d3.hierarchy] follows the [children] arrays from the root object.
    When an object is reachable from itself this never ends; [fuel] bounds
    the depth explored and [None] stands for that case. *)
Fixpoint hierarchy (fuel : nat) (objects : list Built) (addr : nat)
    : option hnode :=
  match fuel with
  | O => None
  | S fuel =>
      b ← objects !! addr;
      kids ← mapM (hierarchy fuel objects) (b_children b);
      Some (HNode (b_data b) kids)
  end.

Global Arguments hierarchy : simpl never.

Fixpoint hsize (t : hnode) : nat :=
  match t with
  | HNode _ kids => S (foldr (λ kid n, hsize kid + n) 0 kids)
  end.

(** The nodes in the breadth-first order of [descendants()] and [links()],
    each with the id of its parent. *)
Fixpoint level_order (fuel : nat) (layer : list (option string * hnode))
    : list (option string * hnode) :=
  match fuel with
  | O => []
  | S fuel =>
      match layer with
      | [] => []
      | _ =>
          layer ++
          level_order fuel
            (layer ≫= λ entry,
               (λ kid, (Some (cn_id (data_of entry.2)), kid))
                 <$> kids_of entry.2)
      end
  end.

Definition descendants (root : hnode) : list (option string * hnode) :=
  level_order (hsize root) [(None, root)].

(** A [g.concept-node] and a [path.concept-link] element with the two
    classes that path highlighting toggles. *)
Record NodeElem := {
  ne_id : string;
  ne_article : bool;
  ne_highlighted : bool;
  ne_dimmed : bool
}.

Record LinkElem := {
  le_source : string;
  le_target : string;
  le_highlighted : bool;
  le_dimmed : bool
}.

Definition node_elem (t : hnode) : NodeElem :=
  {| ne_id := cn_id (data_of t);
     ne_article := bool_decide (cn_layer (data_of t) = 0%Z);
     ne_highlighted := false; ne_dimmed := false |}.

Definition link_elem (entry : option string * hnode) : option LinkElem :=
  parent ← entry.1;
  Some {| le_source := parent; le_target := cn_id (data_of entry.2);
          le_highlighted := false; le_dimmed := false |}.

(** The content of [#concept-graph-canvas]. *)
Inductive Canvas :=
| Blank
| Message (text : string)
| Svg (tree : hnode) (nodes : list NodeElem) (links : list LinkElem).

Definition draw (root : hnode) : Canvas :=
  Svg root (node_elem ∘ snd <$> descendants root)
      (omap link_elem (descendants root)).

(** The ids from a node up to the root; the node is given by the child
    indices that lead to it from the root. *)
Fixpoint path_to_root (t : hnode) (target : list nat) : option (list string) :=
  match target with
  | [] => Some [cn_id (data_of t)]
  | i :: rest =>
      kid ← kids_of t !! i;
      path ← path_to_root kid rest;
      Some (path ++ [cn_id (data_of t)])
  end.

(** [selectAll('.concept-node').classed('highlighted dimmed', false)] and
    the same on the links. *)
Definition clear_node (e : NodeElem) : NodeElem :=
  {| ne_id := ne_id e; ne_article := ne_article e;
     ne_highlighted := false; ne_dimmed := false |}.
Definition clear_link (e : LinkElem) : LinkElem :=
  {| le_source := le_source e; le_target := le_target e;
     le_highlighted := false; le_dimmed := false |}.

(** The two [classed] calls of [highlightPathToRoot] on a node and on a
    link, [path] being [pathNodeSet]. *)
Definition mark_node (path : list string) (e : NodeElem) : NodeElem :=
  {| ne_id := ne_id e; ne_article := ne_article e;
     ne_highlighted := bool_decide (ne_id e ∈ path);
     ne_dimmed := negb (bool_decide (ne_id e ∈ path)) |}.
Definition mark_link (path : list string) (e : LinkElem) : LinkElem :=
  let on_path := bool_decide (le_source e ∈ path)
                 && bool_decide (le_target e ∈ path) in
  {| le_source := le_source e; le_target := le_target e;
     le_highlighted := on_path; le_dimmed := negb on_path |}.

Definition clear_canvas (canvas : Canvas) : Canvas :=
  match canvas with
  | Svg tree nodes links => Svg tree (clear_node <$> nodes) (clear_link <$> links)
  | other => other
  end.

Definition mark_canvas (path : list string) (canvas : Canvas) : Canvas :=
  match canvas with
  | Svg tree nodes links =>
      Svg tree (mark_node path <$> nodes) (mark_link path <$> links)
  | other => other
  end.

(** No element carries a highlighted or dimmed class. *)
Definition unmarked (canvas : Canvas) : bool :=
  match canvas with
  | Svg _ nodes links =>
      forallb (λ e, negb (ne_highlighted e) && negb (ne_dimmed e)) nodes
      && forallb (λ e, negb (le_highlighted e) && negb (le_dimmed e)) links
  | _ => true
  end.

(** The lists on which the plain object [nodeMap] is a finite map: no
    id that is written to it or read from it, be it the id of a node, a
    declared child or the root id, names a member of [Object.prototype]. *)
Definition plain (nodes : list ConceptNode) (rootId : string) : Prop :=
  Forall (λ id, JS.inherited id = false)
         (rootId :: (nodes ≫= λ node, cn_id node :: declared node)).

#[global] Instance plain_dec nodes rootId : Decision (plain nodes rootId).
Proof. unfold plain. apply _. Defined.

Definition no_highlight (canvas : Canvas) : bool :=
  match canvas with
  | Svg _ nodes links =>
      forallb (λ e, negb (ne_highlighted e)) nodes
      && forallb (λ e, negb (le_highlighted e)) links
  | _ => true
  end.

End Concept.

(** ** The cluster view of the knowledge-graph page *)

Module Cluster.

Record Summary := {
  sm_title : string;
  sm_summary : string
}.

(** The module-level variables of the page's [KnowledgeGraphManager] that
    the cluster view and the concept tree use, and the parts of the
    document they write. *)
Record Page := {
  currentTopic : Graph.topic;
  searchIds : Graph.slots (option string);
  summaryCache : gmap string Summary;
  currentClusterId : option string;
  isPathHighlighted : bool;
  cluster_view_shown : bool;         (** [#cluster-view] is displayed *)
  cluster_view_title : string;       (** [#cluster-view-title] *)
  cluster_size : float;              (** [#cluster-size] *)
  cluster_summary_text : string;     (** [#cluster-summary-text] *)
  concept_container_shown : bool;    (** [#concept-graph-container] *)
  canvas : Concept.Canvas;           (** [#concept-graph-canvas] *)
  conceptNodes : option (list Concept.ConceptNode);
  conceptRootId : option string
}.

(** A suspended call of [showClusterDetails]: the arguments of the
    [api.getSummary] call it awaits and what its continuation closes over. *)
Record Request := {
  rq_searchId : string;
  rq_clusterId : string;
  rq_storyIds : list string;
  rq_cacheKey : string
}.

Definition topic_name (t : Graph.topic) : string :=
  match t with Graph.top => "top" | Graph.bottom => "bottom" end.

(** The last two statements of [showClusterDetails]. *)
Definition hide_concept_graph (s : Page) : Page :=
  {| currentTopic := currentTopic s; searchIds := searchIds s;
     summaryCache := summaryCache s; currentClusterId := currentClusterId s;
     isPathHighlighted := isPathHighlighted s;
     cluster_view_shown := cluster_view_shown s;
     cluster_view_title := cluster_view_title s;
     cluster_size := cluster_size s;
     cluster_summary_text := cluster_summary_text s;
     concept_container_shown := false;
     canvas := Concept.Blank;
     conceptNodes := conceptNodes s; conceptRootId := conceptRootId s |}.

Definition show_summary (title text : string) (s : Page) : Page :=
  {| currentTopic := currentTopic s; searchIds := searchIds s;
     summaryCache := summaryCache s; currentClusterId := currentClusterId s;
     isPathHighlighted := isPathHighlighted s;
     cluster_view_shown := cluster_view_shown s;
     cluster_view_title := title;
     cluster_size := cluster_size s;
     cluster_summary_text := text;
     concept_container_shown := concept_container_shown s;
     canvas := canvas s;
     conceptNodes := conceptNodes s; conceptRootId := conceptRootId s |}.

Definition cache_summary (key : string) (summary : Summary) (s : Page) : Page :=
  {| currentTopic := currentTopic s; searchIds := searchIds s;
     summaryCache := <[key := summary]> (summaryCache s);
     currentClusterId := currentClusterId s;
     isPathHighlighted := isPathHighlighted s;
     cluster_view_shown := cluster_view_shown s;
     cluster_view_title := cluster_view_title s;
     cluster_size := cluster_size s;
     cluster_summary_text := cluster_summary_text s;
     concept_container_shown := concept_container_shown s;
     canvas := canvas s;
     conceptNodes := conceptNodes s; conceptRootId := conceptRootId s |}.

(** The statements of [showClusterDetails] before the cache test. *)
Definition select (attrs : NodeAttrs) (s : Page) : Page :=
  {| currentTopic := currentTopic s; searchIds := searchIds s;
     summaryCache := summaryCache s;
     currentClusterId := Some (na_originalId attrs);
     isPathHighlighted := isPathHighlighted s;
     cluster_view_shown := true;
     cluster_view_title := na_label attrs;
     cluster_size := na_storiesCount attrs;
     cluster_summary_text := cluster_summary_text s;
     concept_container_shown := concept_container_shown s;
     canvas := canvas s;
     conceptNodes := conceptNodes s; conceptRootId := conceptRootId s |}.

(** [showClusterDetails(nodeAttrs)] up to its [await], or to its end when
    it does not reach it.  A search id that is [null] or empty is falsy. *)
Definition showClusterDetails (attrs : NodeAttrs) (s : Page)
    : Page * option Request :=
  let s := select attrs s in
  let cacheKey := topic_name (currentTopic s) +:+ "-" +:+ na_originalId attrs in
  match summaryCache s !! cacheKey with
  | Some cached =>
      (hide_concept_graph (show_summary (sm_title cached) (sm_summary cached) s),
       None)
  | None =>
      let s := show_summary (cluster_view_title s) "Generating summary..." s in
      match Graph.slot_get (currentTopic s) (searchIds s) with
      | Some searchId =>
          if bool_decide (searchId = "") then
            (hide_concept_graph
               (show_summary (cluster_view_title s)
                  "Failed to generate summary. Please try again." s), None)
          else
            (s, Some {| rq_searchId := searchId;
                        rq_clusterId := na_originalId attrs;
                        rq_storyIds := na_storyIds attrs;
                        rq_cacheKey := cacheKey |})
      | None =>
          (hide_concept_graph
             (show_summary (cluster_view_title s)
                "Failed to generate summary. Please try again." s), None)
      end
  end.

(** The rest of [showClusterDetails] once [api.getSummary] has resolved. *)
Definition summary_resolved (rq : Request) (response : Summary) (s : Page)
    : Page :=
  let s := show_summary (sm_title response) (sm_summary response) s in
  let s := cache_summary (rq_cacheKey rq)
             {| sm_title := sm_title response;
                sm_summary := sm_summary response |} s in
  hide_concept_graph s.

(** The rest of [showClusterDetails] once [api.getSummary] has failed. *)
Definition summary_rejected (rq : Request) (s : Page) : Page :=
  hide_concept_graph
    (show_summary (cluster_view_title s)
       "Failed to generate summary. Please try again." s).

(** [hideClusterView()] *)
Definition hideClusterView (s : Page) : Page :=
  {| currentTopic := currentTopic s; searchIds := searchIds s;
     summaryCache := summaryCache s; currentClusterId := None;
     isPathHighlighted := isPathHighlighted s;
     cluster_view_shown := false;
     cluster_view_title := cluster_view_title s;
     cluster_size := cluster_size s;
     cluster_summary_text := cluster_summary_text s;
     concept_container_shown := concept_container_shown s;
     canvas := canvas s;
     conceptNodes := conceptNodes s; conceptRootId := conceptRootId s |}.

Definition set_canvas (content : Concept.Canvas) (highlighted : bool)
    (s : Page) : Page :=
  {| currentTopic := currentTopic s; searchIds := searchIds s;
     summaryCache := summaryCache s; currentClusterId := currentClusterId s;
     isPathHighlighted := highlighted;
     cluster_view_shown := cluster_view_shown s;
     cluster_view_title := cluster_view_title s;
     cluster_size := cluster_size s;
     cluster_summary_text := cluster_summary_text s;
     concept_container_shown := concept_container_shown s;
     canvas := content;
     conceptNodes := conceptNodes s; conceptRootId := conceptRootId s |}.

(** [canvas.conceptNodes = nodes; canvas.conceptRootId = rootId] *)
Definition remember_concepts (nodes : option (list Concept.ConceptNode))
    (rootId : string) (s : Page) : Page :=
  {| currentTopic := currentTopic s; searchIds := searchIds s;
     summaryCache := summaryCache s; currentClusterId := currentClusterId s;
     isPathHighlighted := isPathHighlighted s;
     cluster_view_shown := cluster_view_shown s;
     cluster_view_title := cluster_view_title s;
     cluster_size := cluster_size s;
     cluster_summary_text := cluster_summary_text s;
     concept_container_shown := concept_container_shown s;
     canvas := canvas s;
     conceptNodes := nodes; conceptRootId := Some rootId |}.

(** [renderConceptTree(nodes, rootId)].  The result is [None] when
    [d3.hierarchy] does not return, which happens exactly when an object
    reachable from the root is its own descendant: a chain of children
    longer than the number of objects has to repeat one.  [nodeMap] is
    read as a finite map, which it is when the list and the root id are
    [Concept.plain]. *)
Definition renderConceptTree (nodes : option (list Concept.ConceptNode))
    (rootId : string) (s : Page) : option Page :=
  let s := remember_concepts nodes rootId s in
  match nodes with
  | None | Some [] =>
      Some (set_canvas (Concept.Message "No concept data available")
              (isPathHighlighted s) s)
  | Some nodes =>
      let built := Concept.build nodes in
      match Concept.nodeMap built !! rootId with
      | None =>
          Some (set_canvas (Concept.Message "Invalid root node")
                  (isPathHighlighted s) s)
      | Some root =>
          tree ← Concept.hierarchy (S (length (Concept.heap built)))
                   (Concept.heap built) root;
          Some (set_canvas (Concept.draw tree) (isPathHighlighted s) s)
      end
  end.

(** [clearPathHighlight(g)] *)
Definition clearPathHighlight (s : Page) : Page :=
  set_canvas (Concept.clear_canvas (canvas s)) false s.

(** [highlightPathToRoot(d, treeData, g)] with [path] the ids from [d] up
    to the root. *)
Definition highlightPathToRoot (path : list string) (s : Page) : Page :=
  let s := clearPathHighlight s in
  set_canvas (Concept.mark_canvas path (canvas s)) true s.

(** A click on the circle of the node that [target] leads to.  There is
    no circle to click when the canvas holds no tree or [target] leads to
    no node of it. *)
Definition circle_clicked (target : list nat) (s : Page) : Page :=
  match canvas s with
  | Concept.Svg tree _ _ =>
      match Concept.path_to_root tree target with
      | Some path =>
          if isPathHighlighted s then clearPathHighlight s
          else highlightPathToRoot path s
      | None => s
      end
  | _ => s
  end.

(** The page before any cluster is selected. *)
Definition init (ids : Graph.slots (option string)) : Page :=
  {| currentTopic := Graph.top; searchIds := ids; summaryCache := ∅;
     currentClusterId := None; isPathHighlighted := false;
     cluster_view_shown := false; cluster_view_title := "";
     cluster_size := 0; cluster_summary_text := "";
     concept_container_shown := false; canvas := Concept.Blank;
     conceptNodes := None; conceptRootId := None |}.

End Cluster.

(** ** The summary cache of the cluster plot ([VisualizationManager]) *)

Module Viz.

(** The parallel arrays of the cluster response that a click reads. *)
Record VizData := {
  cluster_labels : list Z;
  tweet_ids : list string;
  tweet_texts : list string
}.

Record Story := {
  st_text : string;
  st_id : string
}.

(** The manager's cache, what [showClusterDetails(title, summary, stories)]
    last put in the details section, and, as instrumentation, the calls
    made to [api.getSummary] so far. *)
Record Manager := {
  summaryCache : gmap string Cluster.Summary;
  details_title : string;
  details_summary : string;
  details_stories : list Story;
  summary_calls : list (string * Z * list string)
}.

(** [[...storyIds].sort()]: the default order compares strings by code
    unit, which for the ASCII ids in use is the byte order of [String.le];
    a sorted list being unique for such an order, any sorting algorithm
    returns the result of this one. *)
Definition sort (ids : list string) : list string :=
  merge_sort String.le ids.

(** [_getCacheKey(searchId, clusterId, storyIds)] *)
Definition _getCacheKey (searchId : string) (clusterId : Z)
    (storyIds : list string) : string :=
  searchId +:+ ":" +:+ pretty clusterId +:+ ":"
  +:+ String.concat "," (sort storyIds).

(** The ids, and the stories, whose label is [clusterId]; the arrays of a
    response have the same length. *)
Definition cluster_story_ids (clusterId : Z) (data : VizData) : list string :=
  snd <$> filter (λ entry, entry.1 = clusterId)
                 (zip (cluster_labels data) (tweet_ids data)).

Definition cluster_stories (clusterId : Z) (data : VizData) : list Story :=
  (λ entry, {| st_text := entry.2.1; st_id := entry.2.2 |})
    <$> filter (λ entry, entry.1 = clusterId)
               (zip (cluster_labels data)
                    (zip (tweet_texts data) (tweet_ids data))).

Record Request := {
  rq_cacheKey : string;
  rq_stories : list Story
}.

Definition showClusterDetails (title summary : string) (stories : list Story)
    (m : Manager) : Manager :=
  {| summaryCache := summaryCache m;
     details_title := title;
     details_summary := if bool_decide (summary = "")
                        then "No summary available." else summary;
     details_stories := stories;
     summary_calls := summary_calls m |}.

(** [handleClusterClickByClusterId(clusterId, data, searchId)] up to its
    [await], or to its end on a cache hit. *)
Definition handleClusterClickByClusterId (clusterId : Z) (data : VizData)
    (searchId : string) (m : Manager) : Manager * option Request :=
  let clusterStoryIds := cluster_story_ids clusterId data in
  let clusterStories := cluster_stories clusterId data in
  let cacheKey := _getCacheKey searchId clusterId clusterStoryIds in
  match summaryCache m !! cacheKey with
  | Some cachedSummary =>
      (showClusterDetails (Cluster.sm_title cachedSummary)
         (Cluster.sm_summary cachedSummary) clusterStories m, None)
  | None =>
      let m := showClusterDetails "Loading..."
                 "Generating cluster topic name and summary..." [] m in
      ({| summaryCache := summaryCache m;
          details_title := details_title m;
          details_summary := details_summary m;
          details_stories := details_stories m;
          summary_calls :=
            summary_calls m ++ [(searchId, clusterId, clusterStoryIds)] |},
       Some {| rq_cacheKey := cacheKey; rq_stories := clusterStories |})
  end.

(** The continuation once [api.getSummary] has resolved. *)
Definition summary_resolved (rq : Request) (summary : Cluster.Summary)
    (m : Manager) : Manager :=
  showClusterDetails (Cluster.sm_title summary) (Cluster.sm_summary summary)
    (rq_stories rq)
    {| summaryCache :=
         <[rq_cacheKey rq := {| Cluster.sm_title := Cluster.sm_title summary;
                                Cluster.sm_summary := Cluster.sm_summary summary |}]>
           (summaryCache m);
       details_title := details_title m;
       details_summary := details_summary m;
       details_stories := details_stories m;
       summary_calls := summary_calls m |}.

(** The continuation once [api.getSummary] has failed. *)
Definition summary_rejected (rq : Request) (m : Manager) : Manager :=
  showClusterDetails "Error"
    "Failed to generate cluster topic name and summary. Please try again."
    [] m.

Definition init : Manager :=
  {| summaryCache := ∅; details_title := ""; details_summary := "";
     details_stories := []; summary_calls := [] |}.

End Viz.

(** ** Text shortened for display

    A string is the sequence of its characters, [String.length] and
    [String.substring] standing for [length] and [substring], which
    count and cut by UTF-16 code unit; on text whose code units are
    single bytes, as the strings of this model are, these agree. *)

Module Text.

(** [ToBoolean] on a value that is a string, [null] or [undefined]. *)
Definition truthy (v : option string) : bool :=
  match v with
  | Some s => negb (bool_decide (s = ""))
  | None => false
  end.

(** [truncateText(text, maxLength)], the same method in
    [VisualizationManager] and in the application class. *)
Definition truncateText (text : string) (maxLength : nat) : string :=
  if String.length text <=? maxLength then text
  else String.substring 0 maxLength text +:+ "...".


End Text.

(** ** The labels of the concept tree ([renderConceptTree]) *)

Module Labels.
Import Concept.






(** The radius of the circle of a node. *)
Definition radius (d : hnode) : Z :=
  if bool_decide (cn_layer (data_of d) = 0%Z) then 4
  else if bool_decide (cn_layer (data_of d) = 1%Z) then 6 else 8.

End Labels.

(** ** The cluster plot ([VisualizationManager]) *)

Module Plot.
Import Graph.

(** The cluster response: the arrays that a click reads, the coordinates
    and colours of the points, and [cluster_info], keyed by label, of
    which the plot prints the [size]. *)
Record PlotData := {
  base : Viz.VizData;
  xs : list float;
  ys : list float;
  colors : list string;
  cluster_info : gmap string string
}.

Record Visualization := {
  v_searchId : string;
  v_data : PlotData
}.

(** An entry of [clusterGroups].  Reading an array past its end gives
    [undefined], which is pushed like any other value. *)
Record Group := {
  g_x : list (option float);
  g_y : list (option float);
  g_texts : list (option string);
  g_ids : list (option string);
  g_color : option string
}.

Record Custom := {
  story_id : option string;
  cluster_id : Z;
  full_text : option string
}.

Record Trace := {
  t_x : list (option float);
  t_y : list (option float);
  t_name : string;
  t_text : list string;
  t_customdata : list Custom;
  t_color : option string;
  t_opacity : float
}.

(** The fields of the manager, the parts of the document it writes, what
    Plotly draws in [#visualization], and the state of the details
    section with its summary cache. *)
Record Manager := {
  visualizations : slots (option Visualization);
  currentTopic : topic;
  clusterIdMaps : slots (list Z);
  traces : slots (option (list Trace));
  highlightedCluster : slots (option Z);
  plot : option (list Trace);
  toggle_shown : bool;
  active_toggle : option topic;
  section_shown : bool;
  details_shown : bool;
  details : Viz.Manager
}.

(** [clusterGroups[label].x.push(data.x[index])] and the three pushes
    that follow it. *)
Definition push_point (data : PlotData) (index : nat) (g : Group) : Group :=
  {| g_x := g_x g ++ [xs data !! index];
     g_y := g_y g ++ [ys data !! index];
     g_texts := g_texts g ++ [Viz.tweet_texts (base data) !! index];
     g_ids := g_ids g ++ [Viz.tweet_ids (base data) !! index];
     g_color := g_color g |}.

(** Body of [data.cluster_labels.forEach((label, index) => ...)] on the
    entries of [clusterGroups], kept in the order of their creation. *)
Definition new_group (data : PlotData) (index : nat) : Group :=
  {| g_x := []; g_y := []; g_texts := []; g_ids := [];
     g_color := colors data !! index |}.

Fixpoint add_point (data : PlotData) (label : Z) (index : nat)
    (groups : list (Z * Group)) : list (Z * Group) :=
  match groups with
  | [] => [(label, push_point data index (new_group data index))]
  | (l, g) :: rest =>
      if decide (l = label) then (l, push_point data index g) :: rest
      else (l, g) :: add_point data label index rest
  end.

Fixpoint group_from (data : PlotData) (index : nat) (labels : list Z)
    (groups : list (Z * Group)) : list (Z * Group) :=
  match labels with
  | [] => groups
  | label :: rest =>
      group_from data (S index) rest (add_point data label index groups)
  end.

Definition clusterGroups (data : PlotData) : list (Z * Group) :=
  group_from data 0 (Viz.cluster_labels (base data)) [].

(** [clusterGroups[label]] *)
Fixpoint group_of (label : Z) (groups : list (Z * Group)) : option Group :=
  match groups with
  | [] => None
  | (l, g) :: rest => if decide (l = label) then Some g else group_of label rest
  end.

(** The indices at which [label] occurs in [labels], the first element of
    which has index [index]. *)
Fixpoint positions (label : Z) (index : nat) (labels : list Z) : list nat :=
  match labels with
  | [] => []
  | l :: rest =>
      (if decide (l = label) then [index] else [])
      ++ positions label (S index) rest
  end.

(** A property key that is an array index. *)
Definition is_index (label : Z) : bool :=
  bool_decide (0 ≤ label < 4294967295)%Z.

(** [Object.keys(clusterGroups)]: the keys that are array indices in
    ascending order, then the others in the order of their creation. *)
Definition key_le {A} (a b : Z * A) : Prop := (a.1 ≤ b.1)%Z.

#[global] Instance key_le_dec {A} (a b : Z * A) : Decision (key_le a b) :=
  decide (a.1 ≤ b.1)%Z.

Definition Object_keys {A} (entries : list (Z * A)) : list (Z * A) :=
  merge_sort key_le (filter (λ e, is_index e.1) entries)
  ++ filter (λ e, ¬ is_index e.1) entries.

(** The trace pushed for a key.  [clusterInfo.size] raises when
    [cluster_info] has no entry for the label, and [truncateText] when a
    text is [undefined]; [None] stands for both. *)
Definition make_trace (data : PlotData) (entry : Z * Group) : option Trace :=
  let label := pretty entry.1 in
  let group := entry.2 in
  let clusterName := "Cluster " +:+ label in
  let clusterId := entry.1 in
  size ← cluster_info data !! label;
  text ← mapM (λ t : option string,
                 (λ s, Text.truncateText s 100) <$> t) (g_texts group);
  Some {| t_x := g_x group; t_y := g_y group;
          t_name := clusterName +:+ " (" +:+ size +:+ ")";
          t_text := text;
          t_customdata :=
            imap (λ i id, {| story_id := id; cluster_id := clusterId;
                             full_text := mjoin (g_texts group !! i) |})
                 (g_ids group);
          t_color := g_color group;
          t_opacity := 0.8 |}.

Definition with_display (topic : topic) (maps : list Z) (drawn : list Trace)
    (m : Manager) : Manager :=
  let hasBothTopics :=
    bool_decide (is_Some (slot_top (visualizations m))
                 ∧ is_Some (slot_bottom (visualizations m))) in
  {| visualizations := visualizations m;
     currentTopic := topic;
     clusterIdMaps := slot_set topic maps (clusterIdMaps m);
     traces := slot_set topic (Some drawn) (traces m);
     highlightedCluster := slot_set topic None (highlightedCluster m);
     plot := Some drawn;
     toggle_shown := hasBothTopics;
     active_toggle := if hasBothTopics then Some topic else active_toggle m;
     section_shown := true;
     details_shown := false;
     details := details m |}.

(** [displayVisualization(topic)]; [None] when it raises. *)
Definition displayVisualization (topic : topic) (m : Manager)
    : option Manager :=
  match slot_get topic (visualizations m) with
  | None => Some m
  | Some vizData =>
      let keys := Object_keys (clusterGroups (v_data vizData)) in
      drawn ← mapM (make_trace (v_data vizData)) keys;
      Some (with_display topic (fst <$> keys) drawn m)
  end.

(** [createClusterVisualization(data, searchId, topic)] *)
Definition createClusterVisualization (data : PlotData) (searchId : string)
    (topic : topic) (m : Manager) : option Manager :=
  let stored :=
    slot_set topic (Some {| v_searchId := searchId; v_data := data |})
             (visualizations m) in
  displayVisualization topic
    {| visualizations := stored;
       currentTopic := match slot_get (currentTopic m) stored with
                       | Some _ => currentTopic m
                       | None => topic
                       end;
       clusterIdMaps := clusterIdMaps m; traces := traces m;
       highlightedCluster := highlightedCluster m; plot := plot m;
       toggle_shown := toggle_shown m; active_toggle := active_toggle m;
       section_shown := section_shown m; details_shown := details_shown m;
       details := details m |}.

(** [switchTopic(topic)] *)
Definition switchTopic (topic : topic) (m : Manager) : option Manager :=
  match slot_get topic (visualizations m) with
  | Some _ => displayVisualization topic m
  | None => Some m
  end.

(** [Plotly.restyle(plotDiv, {'marker.opacity': opacity})]: the trace of
    index [i] takes the value of index [i mod opacity.length].  The
    manager passes one value for each trace it has stored, and so an
    empty array only when the plot has no trace. *)
Definition restyle (opacity : list float) (drawn : list Trace) : list Trace :=
  imap (λ i t, {| t_x := t_x t; t_y := t_y t; t_name := t_name t;
                  t_text := t_text t; t_customdata := t_customdata t;
                  t_color := t_color t;
                  t_opacity :=
                    default (t_opacity t)
                            (opacity !! (i mod length opacity)) |})
       drawn.

Definition with_highlight (topic : topic) (opacity : list float)
    (highlighted : option Z) (m : Manager) : Manager :=
  {| visualizations := visualizations m; currentTopic := currentTopic m;
     clusterIdMaps := clusterIdMaps m; traces := traces m;
     highlightedCluster := slot_set topic highlighted (highlightedCluster m);
     plot := restyle opacity <$> plot m;
     toggle_shown := toggle_shown m; active_toggle := active_toggle m;
     section_shown := section_shown m; details_shown := details_shown m;
     details := details m |}.

(** [highlightCluster(clusterId, topic)] *)
Definition highlightCluster (clusterId : Z) (topic : topic) (m : Manager)
    : Manager :=
  match slot_get topic (traces m) with
  | None => m
  | Some stored =>
      with_highlight topic
        (imap (λ index _,
                 if bool_decide (slot_get topic (clusterIdMaps m) !! index
                                 = Some clusterId)
                 then 1.0%float else 0.15%float) stored)
        (Some clusterId) m
  end.

(** [resetHighlighting(topic)] *)
Definition resetHighlighting (topic : topic) (m : Manager) : Manager :=
  match slot_get topic (traces m) with
  | None => m
  | Some stored => with_highlight topic ((λ _, 0.8%float) <$> stored) None m
  end.

Definition with_details (shown : bool) (inner : Viz.Manager) (m : Manager)
    : Manager :=
  {| visualizations := visualizations m; currentTopic := currentTopic m;
     clusterIdMaps := clusterIdMaps m; traces := traces m;
     highlightedCluster := highlightedCluster m; plot := plot m;
     toggle_shown := toggle_shown m; active_toggle := active_toggle m;
     section_shown := section_shown m; details_shown := shown;
     details := inner |}.

(** [handleClusterClickByClusterId(clusterId, data, searchId)] in full:
    the cluster is highlighted, then the summary is looked up or asked
    for, the details section being displayed in both cases. *)
Definition handleClusterClickByClusterId (clusterId : Z) (data : PlotData)
    (searchId : string) (m : Manager) : Manager * option Viz.Request :=
  let m := highlightCluster clusterId (currentTopic m) m in
  let '(inner, request) :=
    Viz.handleClusterClickByClusterId clusterId (base data) searchId
      (details m) in
  (with_details true inner m, request).

(** [handleClusterClick(eventData)] for a click on the point of index
    [pointIndex] of the trace of index [curve]; there is no such event
    when the plot has no such point. *)
Definition handleClusterClick (curve pointIndex : nat) (m : Manager)
    : Manager * option Viz.Request :=
  match drawn ← plot m; t ← drawn !! curve; t_customdata t !! pointIndex with
  | None => (m, None)
  | Some point =>
      match slot_get (currentTopic m) (visualizations m) with
      | None => (m, None)
      | Some currentViz =>
          handleClusterClickByClusterId (cluster_id point)
            (v_data currentViz) (v_searchId currentViz) m
      end
  end.

(** The [plotly_legendclick] handler that [displayVisualization]
    installs, for a click on the legend entry of index [curveNumber]. *)
Definition legend_clicked (curveNumber : nat) (m : Manager)
    : Manager * option Viz.Request :=
  match slot_get (currentTopic m) (visualizations m) with
  | None => (m, None)
  | Some shown =>
      match slot_get (currentTopic m) (clusterIdMaps m) !! curveNumber with
      | None => (m, None)
      | Some clusterId =>
          handleClusterClickByClusterId clusterId (v_data shown)
            (v_searchId shown) m
      end
  end.

(** The two continuations of [handleClusterClickByClusterId]. *)
Definition summary_resolved (rq : Viz.Request) (summary : Cluster.Summary)
    (m : Manager) : Manager :=
  with_details true (Viz.summary_resolved rq summary (details m)) m.

Definition summary_rejected (rq : Viz.Request) (m : Manager) : Manager :=
  with_details true (Viz.summary_rejected rq (details m)) m.

(** [clearVisualization()]: everything is reset but the summary cache. *)
Definition clearVisualization (m : Manager) : Manager :=
  {| visualizations := Slots None None; currentTopic := top;
     clusterIdMaps := Slots [] []; traces := Slots None None;
     highlightedCluster := Slots None None; plot := None;
     toggle_shown := toggle_shown m; active_toggle := active_toggle m;
     section_shown := false; details_shown := details_shown m;
     details := details m |}.

(** What reaches the manager: the application creating a visualization or
    clearing them, the two topic buttons, clicks on the plot, and the
    summary service answering a request. *)
Inductive event :=
| Created (data : PlotData) (searchId : string) (topic : topic)
| TopicToggled (topic : topic)
| PointClicked (curve pointIndex : nat)
| LegendClicked (curveNumber : nat)
| SummaryResolved (rq : Viz.Request) (summary : Cluster.Summary)
| SummaryRejected (rq : Viz.Request)
| Cleared.

Definition step (m : Manager) (e : event) : option Manager :=
  match e with
  | Created data searchId topic =>
      createClusterVisualization data searchId topic m
  | TopicToggled topic => switchTopic topic m
  | PointClicked curve pointIndex =>
      Some (handleClusterClick curve pointIndex m).1
  | LegendClicked curveNumber => Some (legend_clicked curveNumber m).1
  | SummaryResolved rq summary => Some (summary_resolved rq summary m)
  | SummaryRejected rq => Some (summary_rejected rq m)
  | Cleared => Some (clearVisualization m)
  end.

Definition run (m : Manager) (events : list event) : option Manager :=
  foldl (λ state e, state ≫= (λ m, step m e)) (Some m) events.

(** The manager as its constructor leaves it. *)
Definition init : Manager :=
  {| visualizations := Slots None None; currentTopic := top;
     clusterIdMaps := Slots [] []; traces := Slots None None;
     highlightedCluster := Slots None None; plot := None;
     toggle_shown := false; active_toggle := None;
     section_shown := false; details_shown := false;
     details := Viz.init |}.

End Plot.

(** ** Concrete data used to exercise the definitions *)

Module Examples.

Definition sigma_node (key : string) (x y : float) : SigmaNode :=
  {| sn_key := key; sn_label := "Cluster " +:+ key; sn_size := 5;
     sn_color := "#999"; sn_originalId := key; sn_storiesCount := 1;
     sn_engagement := 0; sn_storyIds := [];
     sn_x := x; sn_y := y; sn_vx := None; sn_vy := None |}.

Definition sigma_edge (source target : string) (similarity : float) : SigmaEdge :=
  {| se_key := source +:+ "-" +:+ target; se_source := source;
     se_target := target; se_similarity := similarity;
     se_color := "rgba(100, 100, 100, 0.6)"; se_size := 2.5 |}.

(** Two nodes closer to each other than [0.1]. *)
Definition close_nodes : list SigmaNode :=
  [sigma_node "0" 0 0; sigma_node "1" 0.05 0].

Definition triangle_nodes : list SigmaNode :=
  [sigma_node "0" 10 10; sigma_node "1" 40 80; sigma_node "2" 90 30].
Definition triangle_edges : list SigmaEdge :=
  [sigma_edge "0" "1" 0.9; sigma_edge "1" "2" 0.6; sigma_edge "2" "7" 0.7].

Definition graph_node (id : string) (size : float) : GraphNode :=
  {| gn_id := id; gn_label := "Cluster " +:+ id; gn_size := size;
     gn_avg_engagement := 12.5; gn_color := "#3b82f6";
     gn_story_ids := Some [id +:+ "a"; id +:+ "b"] |}.

Definition graph_edge (source target : string) (similarity : option float)
    : GraphEdge :=
  {| ge_source := source; ge_target := target; ge_similarity := similarity |}.

(** Four clusters of sizes 1, 5, 10 and 20. *)
Definition four_sizes : GraphData :=
  {| gd_nodes := [graph_node "0" 1; graph_node "1" 5;
                  graph_node "2" 10; graph_node "3" 20];
     gd_edges := [graph_edge "0" "1" (Some 0.3%float);
                  graph_edge "1" "2" (Some 0.5%float);
                  graph_edge "2" "3" (Some 0.81%float)] |}.

(** Three clusters that all have seven stories. *)
Definition same_sizes : GraphData :=
  {| gd_nodes := [graph_node "0" 7; graph_node "1" 7; graph_node "2" 7];
     gd_edges := [] |}.

(** The graph of one topic, with three clusters, and the graph of the
    other, with two. *)
Definition graph_a : GraphData :=
  {| gd_nodes := [graph_node "0" 4; graph_node "1" 9; graph_node "2" 6];
     gd_edges := [graph_edge "0" "1" (Some 0.7%float);
                  graph_edge "1" "2" (Some 0.4%float)] |}.
Definition graph_b : GraphData :=
  {| gd_nodes := [graph_node "0" 3; graph_node "1" 8];
     gd_edges := [graph_edge "0" "1" (Some 0.6%float)] |}.

(** The four sizes in another order. *)
Definition shuffled_sizes : GraphData :=
  {| gd_nodes := [graph_node "0" 10; graph_node "1" 20;
                  graph_node "2" 1; graph_node "3" 5];
     gd_edges := [graph_edge "0" "1" (Some 0.3%float);
                  graph_edge "1" "2" (Some 0.5%float)] |}.

Fixpoint count (n : nat) : float :=
  match n with
  | O => 0%float
  | S m => (count m + 1)%float
  end.

(** A sequence of values in [[0, 1)] standing for [Math.random()]. *)
Definition random (i : nat) : float :=
  (count ((37 * i + 11) mod 100) / 100)%float.

Definition ids : Graph.slots (option string) :=
  Graph.Slots (Some "search-a") (Some "search-b").

(** The attributes of two clicked nodes and the summary that the service
    returns for the first. *)
Definition cluster_attrs (id label : string) : NodeAttrs :=
  {| na_label := label; na_x := 10; na_y := 20; na_size := 12;
     na_color := "#3b82f6"; na_originalId := id; na_storiesCount := 4;
     na_engagement := 12.5; na_storyIds := [id +:+ "a"; id +:+ "b"] |}.

Definition cluster_A : NodeAttrs := cluster_attrs "A" "Cluster A".

(** A node with the id of [cluster_A] and other stories. *)
Definition cluster_A_other_stories : NodeAttrs :=
  {| na_label := "Cluster A"; na_x := 10; na_y := 20; na_size := 12;
     na_color := "#3b82f6"; na_originalId := "A"; na_storiesCount := 2;
     na_engagement := 3; na_storyIds := ["Zy"; "Zz"] |}.
Definition cluster_B : NodeAttrs := cluster_attrs "B" "Cluster B".

(** The request that a click on [cluster_A] suspends on. *)
Definition request_A : Cluster.Request :=
  {| Cluster.rq_searchId := "search-a"; Cluster.rq_clusterId := "A";
     Cluster.rq_storyIds := ["Aa"; "Ab"]; Cluster.rq_cacheKey := "top-A" |}.

Definition summary_A : Cluster.Summary :=
  {| Cluster.sm_title := "Rust tooling";
     Cluster.sm_summary := "Stories about Rust build tools." |}.

(** Two responses with the same stories of cluster 1 in different orders. *)
Definition plot_data : Viz.VizData :=
  {| Viz.cluster_labels := [1; 0; 1; 1]%Z;
     Viz.tweet_ids := ["305"; "17"; "42"; "9"];
     Viz.tweet_texts := ["c"; "x"; "a"; "b"] |}.
Definition plot_data_reordered : Viz.VizData :=
  {| Viz.cluster_labels := [1; 1; 0; 1]%Z;
     Viz.tweet_ids := ["9"; "42"; "17"; "305"];
     Viz.tweet_texts := ["b"; "a"; "x"; "c"] |}.

Definition concept (id : string) (layer : Z) (children : list string)
    : Concept.ConceptNode :=
  {| Concept.cn_id := id; Concept.cn_label := "Concept " +:+ id;
     Concept.cn_layer := layer; Concept.cn_article_title := None;
     Concept.cn_article_url := None; Concept.cn_article_hn_url := None;
     Concept.cn_children := Some children |}.

(** A root with two concepts and three articles, listed root first. *)
Definition small_tree : list Concept.ConceptNode :=
  [concept "root" 2 ["c1"; "c2"]; concept "c1" 1 ["a1"; "a2"];
   concept "c2" 1 ["a3"]; concept "a1" 0 []; concept "a2" 0 [];
   concept "a3" 0 []].

(** The root declares a child ["ghost"] that is no node of the list. *)
Definition dangling_tree : list Concept.ConceptNode :=
  [concept "root" 1 ["a1"; "ghost"]; concept "a1" 0 []].

(** Another tree, for a second cluster. *)
Definition other_tree : list Concept.ConceptNode :=
  [concept "r" 1 ["x"; "y"]; concept "x" 0 []; concept "y" 0 []].

End Examples.

(** ** Concrete data for the cluster plot *)

Module Samples.

(** The response of [Examples.plot_data] with its coordinates, colours
    and cluster sizes; cluster 1 comes first in the arrays. *)
Definition plot : Plot.PlotData :=
  {| Plot.base := Examples.plot_data;
     Plot.xs := [0.5; 1.5; 2.5; 3.5]%float;
     Plot.ys := [4; 3; 2; 1]%float;
     Plot.colors := ["#ef4444"; "#3b82f6"; "#ef4444"; "#ef4444"];
     Plot.cluster_info := {["0" := "1"; "1" := "3"]} |}.

End Samples.

(* ===================================================================== *)
(** * Part II.  Properties                                                *)
(* ===================================================================== *)

Section LayoutFacts.
Import Layout.
Implicit Types (forces : gmap string vec) (n m : SigmaNode) (f : vec).
Implicit Types (nodes before after : list SigmaNode).

Lemma lookup_add_x key e forces j :
  add_x key e forces !! j
  = (if decide (key = j) then (λ f : vec, (f.1 + e, f.2)%float) <$> forces !! j
     else forces !! j).
Proof. unfold add_x. rewrite lookup_alter. by case_decide; subst. Qed.

Lemma lookup_add_y key e forces j :
  add_y key e forces !! j
  = (if decide (key = j) then (λ f : vec, (f.1, f.2 + e)%float) <$> forces !! j
     else forces !! j).
Proof. unfold add_y. rewrite lookup_alter. by case_decide; subst. Qed.

Lemma lookup_sub_x key e forces j :
  sub_x key e forces !! j
  = (if decide (key = j) then (λ f : vec, (f.1 - e, f.2)%float) <$> forces !! j
     else forces !! j).
Proof. unfold sub_x. rewrite lookup_alter. by case_decide; subst. Qed.

Lemma lookup_sub_y key e forces j :
  sub_y key e forces !! j
  = (if decide (key = j) then (λ f : vec, (f.1, f.2 - e)%float) <$> forces !! j
     else forces !! j).
Proof. unfold sub_y. rewrite lookup_alter. by case_decide; subst. Qed.

Lemma lookup_repulse n1 n2 forces key :
  repulse n1 n2 forces !! key = repulse_at key n1 n2 <$> forces !! key.
Proof.
  unfold repulse, repulse_at, repulsion, vadd, vsub.
  repeat (rewrite ?lookup_add_y, ?lookup_add_x, ?lookup_sub_y, ?lookup_sub_x;
          try case_decide).
  all: destruct (forces !! key) as [[fx fy]|]; simpl; try reflexivity.
  all: congruence.
Qed.

Lemma lookup_repulse_row n1 rest forces key :
  foldl (λ F n2, repulse n1 n2 F) forces rest !! key
  = (λ f, foldl (λ f n2, repulse_at key n1 n2 f) f rest) <$> forces !! key.
Proof.
  revert forces. induction rest as [|n2 rest IH]; intros forces; simpl.
  - by destruct (forces !! key).
  - rewrite IH, lookup_repulse. by destruct (forces !! key).
Qed.

Lemma lookup_repulsive_forces nodes forces key :
  repulsive_forces nodes forces !! key
  = repulsive_at key nodes <$> forces !! key.
Proof.
  revert forces. induction nodes as [|n1 rest IH]; intros forces; simpl.
  - by destruct (forces !! key).
  - rewrite IH, lookup_repulse_row. by destruct (forces !! key).
Qed.

Lemma repulse_at_other key n1 n2 f :
  sn_key n1 ≠ key → sn_key n2 ≠ key → repulse_at key n1 n2 f = f.
Proof. intros. unfold repulse_at. by repeat case_decide. Qed.

Lemma repulse_at_first key n1 n2 f :
  sn_key n1 = key → sn_key n2 ≠ key →
  repulse_at key n1 n2 f = vsub f (repulsion distance n1 n2).
Proof. intros. unfold repulse_at. by repeat case_decide. Qed.

Lemma repulse_at_second key n1 n2 f :
  sn_key n1 ≠ key → sn_key n2 = key →
  repulse_at key n1 n2 f = vadd f (repulsion distance n1 n2).
Proof. intros. unfold repulse_at. by repeat case_decide. Qed.

(** A row of the pair loop that does not involve [key] at all. *)
Lemma repulse_row_other key n1 rest f :
  sn_key n1 ≠ key → key ∉ sn_key <$> rest →
  foldl (λ f n2, repulse_at key n1 n2 f) f rest = f.
Proof.
  intros Hn1. revert f. induction rest as [|n2 rest IH]; intros f Hrest; [done|].
  rewrite fmap_cons, not_elem_of_cons in Hrest. destruct Hrest as [Hn2 Hrest].
  simpl. rewrite repulse_at_other by done. by apply IH.
Qed.

(** The row of the node stored under [key]: it is pushed away from each
    of the nodes that follow it. *)
Lemma repulse_row_own n1 rest f :
  sn_key n1 ∉ sn_key <$> rest →
  foldl (λ f n2, repulse_at (sn_key n1) n1 n2 f) f rest
  = foldl (λ f m, vsub f (repulsion distance n1 m)) f rest.
Proof.
  revert f. induction rest as [|n2 rest IH]; intros f Hrest; [done|].
  rewrite fmap_cons, not_elem_of_cons in Hrest. destruct Hrest as [Hn2 Hrest].
  simpl. rewrite repulse_at_first by done. by apply IH.
Qed.

(** The row of an earlier node [a]: among the nodes that follow it only
    the one stored under [key] is affected. *)
Lemma repulse_row_earlier a before n after f :
  sn_key a ≠ sn_key n →
  sn_key n ∉ sn_key <$> before → sn_key n ∉ sn_key <$> after →
  foldl (λ f n2, repulse_at (sn_key n) a n2 f) f (before ++ n :: after)
  = vadd f (repulsion distance a n).
Proof.
  intros Ha Hb Hafter. rewrite foldl_app. simpl.
  rewrite (repulse_row_other _ _ before) by done.
  rewrite repulse_at_second by done.
  by apply repulse_row_other.
Qed.

Lemma repulsive_at_other key nodes f :
  key ∉ sn_key <$> nodes → repulsive_at key nodes f = f.
Proof.
  revert f. induction nodes as [|n1 rest IH]; intros f Hk; [done|].
  rewrite fmap_cons, not_elem_of_cons in Hk. destruct Hk as [Hn1 Hrest].
  simpl. rewrite repulse_row_other by done. by apply IH.
Qed.

(** With distinct keys, the accumulator of a node collects exactly its
    repulsion from every other node, in index order. *)
Lemma repulsive_at_node before n after f :
  NoDup (sn_key <$> (before ++ n :: after)) →
  repulsive_at (sn_key n) (before ++ n :: after) f
  = foldl (λ f m, vsub f (repulsion distance n m))
          (foldl (λ f m, vadd f (repulsion distance m n)) f before)
          after.
Proof.
  revert f. induction before as [|a before IH]; intros f Hnd.
  - simpl in *. apply NoDup_cons in Hnd as [Hn Hafter].
    rewrite repulse_row_own by done. by apply repulsive_at_other.
  - simpl in Hnd. apply NoDup_cons in Hnd as [Ha Hnd].
    pose proof Hnd as Hnd'.
    rewrite fmap_app, fmap_cons in Hnd'.
    apply NoDup_app in Hnd' as (_ & Hsep & Hn).
    apply NoDup_cons in Hn as [Hn _].
    assert (sn_key n ∉ sn_key <$> before) as Hb.
    { intros Hin. apply (Hsep _ Hin). apply elem_of_cons. by left. }
    assert (sn_key a ≠ sn_key n) as Han.
    { intros Heq. apply Ha. rewrite Heq, fmap_app, fmap_cons.
      apply elem_of_app. right. apply elem_of_cons. by left. }
    simpl. rewrite repulse_row_earlier by done. by apply IH.
Qed.

Lemma lookup_attract nodes forces edge key :
  attract nodes forces edge !! key
  = (λ f, spring_on distance nodes key f edge) <$> forces !! key.
Proof.
  unfold attract, spring_on, spring, vadd, vsub.
  destruct (find_node nodes (se_source edge)) as [n1|];
    [destruct (find_node nodes (se_target edge)) as [n2|]|].
  - repeat (rewrite ?lookup_add_y, ?lookup_add_x, ?lookup_sub_y, ?lookup_sub_x;
            try case_decide).
    all: destruct (forces !! key) as [[fx fy]|]; simpl; try reflexivity.
    all: congruence.
  - by destruct (forces !! key).
  - by destruct (forces !! key).
Qed.

Lemma lookup_attractive_forces nodes edges forces key :
  attractive_forces nodes edges forces !! key
  = (λ f, foldl (spring_on distance nodes key) f edges) <$> forces !! key.
Proof.
  unfold attractive_forces. revert forces.
  induction edges as [|e edges IH]; intros forces; simpl.
  - by destruct (forces !! key).
  - rewrite IH, lookup_attract. by destruct (forces !! key).
Qed.

Lemma lookup_reset_forces nodes forces key :
  reset_forces nodes forces !! key
  = if decide (key ∈ sn_key <$> nodes) then Some (0, 0)%float
    else forces !! key.
Proof.
  unfold reset_forces. revert forces.
  induction nodes as [|n nodes IH]; intros forces.
  - rewrite decide_False; [done|]. apply not_elem_of_nil.
  - cbn [foldl]. rewrite IH, fmap_cons.
    destruct (decide (key = sn_key n)) as [->|Hne].
    + rewrite lookup_insert_eq, (decide_True (P := _ ∈ _ :: _))
        by apply list_elem_of_here.
      by case_decide.
    + rewrite lookup_insert_ne by done.
      apply decide_ext. rewrite elem_of_cons. tauto.
Qed.

(** The accumulator a node reads in the position loop. *)
Lemma iteration_force edges before n after forces :
  NoDup (sn_key <$> (before ++ n :: after)) →
  let nodes := before ++ n :: after in
  attractive_forces nodes edges
    (repulsive_forces nodes (reset_forces nodes forces)) !! sn_key n
  = Some (net_force distance nodes edges before n after).
Proof.
  intros Hnd nodes.
  rewrite lookup_attractive_forces, lookup_repulsive_forces, lookup_reset_forces.
  rewrite decide_True.
  - simpl. unfold net_force, net_repulsion, nodes.
    by rewrite repulsive_at_node.
  - unfold nodes. rewrite fmap_app, fmap_cons. set_solver.
Qed.

Lemma iteration_described edges nodes forces :
  NoDup (sn_key <$> nodes) →
  (iteration edges (nodes, forces)).1 = described_iteration distance edges nodes.
Proof.
  intros Hnd. unfold iteration, described_iteration. simpl.
  set (F := attractive_forces nodes edges _).
  assert (∀ before rest, nodes = before ++ rest →
            map (update_node F) rest
            = described_nodes distance nodes edges before rest) as Hgen.
  { intros before rest. revert before.
    induction rest as [|n after IH]; intros before Hsplit; [done|].
    simpl. f_equal.
    - unfold update_node, F. subst nodes.
      by rewrite iteration_force.
    - apply IH. by rewrite <-app_assoc. }
  by apply (Hgen []).
Qed.

Lemma iteration_keys edges nodes forces :
  sn_key <$> (iteration edges (nodes, forces)).1 = sn_key <$> nodes.
Proof.
  unfold iteration. simpl. rewrite <-list_fmap_compose.
  by apply list_fmap_ext.
Qed.

Lemma iterations_described edges count nodes forces :
  NoDup (sn_key <$> nodes) →
  (Nat.iter count (iteration edges) (nodes, forces)).1
  = Nat.iter count (described_iteration distance edges) nodes
  ∧ sn_key <$> (Nat.iter count (iteration edges) (nodes, forces)).1
    = sn_key <$> nodes.
Proof.
  intros Hnd. induction count as [|count [IHn IHk]]; [done|].
  rewrite Nat.iter_succ. destruct (Nat.iter count (iteration edges) (nodes, forces))
    as [nodes' forces'] eqn:Hiter.
  simpl in IHn, IHk. split.
  - rewrite iteration_described; [by rewrite IHn|]. by rewrite IHk.
  - by rewrite iteration_keys.
Qed.

End LayoutFacts.

Section GraphFacts.
Import Graph.
Variable random : nat → float.
Implicit Types (s : Manager) (data : GraphData) (cache : gmap string vec).
Implicit Types (graph : gmap string NodeAttrs) (nodes : list SigmaNode).

(** The node objects that [renderGraph] pushes, one per input node. *)
Lemma sigma_nodes_spec positions lo hi calls (gnodes : list GraphNode) :
  Forall2 (λ node sn,
             sn_key sn = gn_id node ∧ sn_originalId sn = gn_id node
             ∧ sn_size sn = nodeSize lo hi (gn_size node)
             ∧ ∀ cache (p : vec), positions = Some cache →
                          cache !! gn_id node = Some p →
                          (sn_x sn, sn_y sn) = p)
          gnodes (sigma_nodes random positions lo hi calls gnodes).1.
Proof.
  revert calls. induction gnodes as [|node rest IH]; intros calls; simpl.
  - constructor.
  - destruct (place random positions calls node) as [p calls'] eqn:Hplace.
    specialize (IH calls').
    destruct (sigma_nodes random positions lo hi calls' rest)
      as [others calls''].
    simpl in *. constructor; [|done].
    repeat split; simpl.
    intros cache q -> Hq. unfold place in Hplace. simpl in Hplace.
    rewrite Hq in Hplace. by destruct p; simplify_eq.
Qed.

Lemma sigma_nodes_keys positions lo hi calls (gnodes : list GraphNode) :
  sn_key <$> (sigma_nodes random positions lo hi calls gnodes).1
  = gn_id <$> gnodes.
Proof.
  pose proof (sigma_nodes_spec positions lo hi calls gnodes) as Hspec.
  induction Hspec as [|node sn rest sns (Hk & _) _ IH]; [done|].
  by rewrite !fmap_cons, Hk, IH.
Qed.

(** Adding nodes to the graphology graph. *)
Lemma lookup_addNode_other graph nodes key :
  key ∉ sn_key <$> nodes → foldl addNode graph nodes !! key = graph !! key.
Proof.
  revert graph. induction nodes as [|n nodes IH]; intros graph Hk; [done|].
  rewrite fmap_cons, not_elem_of_cons in Hk. destruct Hk as [Hn Hrest].
  simpl. rewrite IH by done. unfold addNode. by rewrite lookup_insert_ne.
Qed.

Lemma lookup_addNode graph nodes n :
  NoDup (sn_key <$> nodes) → n ∈ nodes →
  foldl addNode graph nodes !! sn_key n = Some (attrs_of n).
Proof.
  revert graph. induction nodes as [|m nodes IH]; intros graph Hnd Hin.
  - by apply elem_of_nil in Hin.
  - rewrite fmap_cons in Hnd. apply NoDup_cons in Hnd as [Hm Hnd].
    apply elem_of_cons in Hin as [->|Hin]; simpl.
    + rewrite lookup_addNode_other by done.
      unfold addNode. by rewrite lookup_insert_eq.
    + by apply IH.
Qed.

(** Writing the final positions back leaves every other attribute. *)
Lemma lookup_set_position_one graph n key :
  ∃ move : NodeAttrs → NodeAttrs,
    Layout.set_position graph n !! key = move <$> graph !! key
    ∧ ∀ a, na_size (move a) = na_size a.
Proof.
  unfold Layout.set_position. rewrite lookup_alter. case_decide as Hk.
  - subst key. eexists. split; [reflexivity|done].
  - exists id. by rewrite option_fmap_id.
Qed.

Lemma lookup_set_position graph nodes key :
  ∃ move : NodeAttrs → NodeAttrs,
    foldl Layout.set_position graph nodes !! key = move <$> graph !! key
    ∧ ∀ a, na_size (move a) = na_size a.
Proof.
  revert graph. induction nodes as [|n nodes IH]; intros graph.
  - exists id. split; [|done]. simpl. by rewrite option_fmap_id.
  - simpl. destruct (IH (Layout.set_position graph n)) as (mv & Hmv & Hsize).
    destruct (lookup_set_position_one graph n key) as (mv1 & Hmv1 & Hsize1).
    exists (mv ∘ mv1). split.
    + by rewrite Hmv, Hmv1, option_fmap_compose.
    + intros a. simpl. by rewrite Hsize, Hsize1.
Qed.

Lemma lookup_set_position_other graph nodes key :
  key ∉ sn_key <$> nodes →
  foldl Layout.set_position graph nodes !! key = graph !! key.
Proof.
  revert graph. induction nodes as [|n nodes IH]; intros graph Hk; [done|].
  rewrite fmap_cons, not_elem_of_cons in Hk. destruct Hk as [Hn Hrest].
  simpl. rewrite IH by done. unfold Layout.set_position.
  by rewrite lookup_alter_ne.
Qed.


(** The layout renames no node. *)
Lemma simulate_idents nodes edges :
  (λ n, (sn_key n, sn_originalId n)) <$> Layout.simulate nodes edges
  = (λ n, (sn_key n, sn_originalId n)) <$> nodes.
Proof.
  unfold Layout.simulate. generalize (Layout.reset_forces nodes ∅).
  generalize Layout.iterations. intros count forces.
  induction count as [|count IH]; [done|].
  rewrite Nat.iter_succ.
  destruct (Nat.iter count (Layout.iteration edges) (nodes, forces))
    as [nodes' forces'].
  simpl in *. rewrite <-IH, <-list_fmap_compose. by apply list_fmap_ext.
Qed.

(** Filling the position cache from the graph after the layout. *)
Lemma lookup_store_position_keep graph cache nodes id v :
  (∀ n a, n ∈ nodes → sn_originalId n = id → graph !! sn_key n = Some a →
          position_of a = v) →
  cache !! id = Some v →
  foldl (store_position graph) cache nodes !! id = Some v.
Proof.
  revert cache. induction nodes as [|m nodes IH]; intros cache Hsame Hv; [done|].
  simpl. apply IH.
  - intros n a Hn. apply Hsame. by apply list_elem_of_further.
  - unfold store_position. destruct (graph !! sn_key m) as [a|] eqn:Ha; [|done].
    destruct (decide (sn_originalId m = id)) as [Hid|Hid].
    + rewrite Hid, lookup_insert_eq. f_equal.
      by apply (Hsame m a); [apply list_elem_of_here|..].
    + by rewrite lookup_insert_ne.
Qed.

Lemma lookup_store_position graph cache nodes n a :
  (∀ m, m ∈ nodes → sn_key m = sn_originalId m) →
  n ∈ nodes → graph !! sn_key n = Some a →
  foldl (store_position graph) cache nodes !! sn_originalId n
  = Some (position_of a).
Proof.
  intros Hkeys Hin Ha.
  assert (∀ m b, m ∈ nodes → sn_originalId m = sn_originalId n →
                 graph !! sn_key m = Some b → position_of b = position_of a)
    as Hsame.
  { intros m b Hm Hid Hb. rewrite Hkeys, Hid, <-Hkeys in Hb by done.
    by simplify_eq. }
  clear Hkeys. revert cache.
  induction nodes as [|m nodes IH]; intros cache.
  - by apply elem_of_nil in Hin.
  - apply elem_of_cons in Hin as [<-|Hin]; simpl.
    + apply lookup_store_position_keep.
      * intros m b Hm. apply Hsame. by apply list_elem_of_further.
      * unfold store_position. by rewrite Ha, lookup_insert_eq.
    + apply IH; [done|].
      intros m' b Hm'. apply Hsame. by apply list_elem_of_further.
Qed.

Lemma drawn_at_eq s r key :
  currentGraph s = Some r →
  drawn_at s key = position_of <$> r_graph r !! key.
Proof.
  intros Hr. unfold drawn_at. rewrite Hr. simpl.
  by destruct (r_graph r !! key).
Qed.

(** The first render: the layout runs once and the cache receives, for
    every node, the position at which it is drawn. *)
Lemma render_first data s :
  calculatedPositions s = None →
  NoDup (gn_id <$> gd_nodes data) →
  let s1 := renderGraph random data s in
  layout_runs s1 = S (layout_runs s)
  ∧ currentGraphData s1 = Some data
  ∧ ∃ cache, calculatedPositions s1 = Some cache
      ∧ ∀ node, node ∈ gd_nodes data →
          ∃ p, cache !! gn_id node = Some p
               ∧ drawn_at s1 (gn_id node) = Some p.
Proof.
  intros Hnone Hnd. unfold renderGraph.
  set (lo := JS.Math_min _). set (hi := JS.Math_max _).
  pose proof (sigma_nodes_spec (calculatedPositions s) lo hi
                (random_calls s) (gd_nodes data)) as Hspec.
  pose proof (sigma_nodes_keys (calculatedPositions s) lo hi
                (random_calls s) (gd_nodes data)) as Hkeys.
  destruct (sigma_nodes random (calculatedPositions s) lo hi
              (random_calls s) (gd_nodes data)) as [sns calls'].
  simpl in Hspec, Hkeys. rewrite Hnone. unfold Layout.applyForceLayout.
  set (edges := sigma_edges _ _).
  pose proof (simulate_idents sns edges) as Hid.
  set (moved := Layout.simulate sns edges) in *.
  set (graph0 := foldl addNode ∅ sns).
  set (graph1 := foldl Layout.set_position graph0 moved).
  cbn zeta. split; [done|]. split; [done|]. eexists. split; [done|].
  intros node Hin.
  assert (∀ m, m ∈ sns → sn_key m = sn_originalId m) as Hsame0.
  { intros m Hm. apply list_elem_of_lookup in Hm as [i Hi].
    destruct (Forall2_lookup_r _ _ _ _ _ Hspec Hi) as (g & _ & Hk & Ho & _).
    congruence. }
  assert (∀ m, m ∈ moved → ∃ m0, m0 ∈ sns ∧ sn_key m0 = sn_key m
                                 ∧ sn_originalId m0 = sn_originalId m)
    as Hback.
  { intros m Hm.
    assert ((sn_key m, sn_originalId m)
              ∈ (λ n, (sn_key n, sn_originalId n)) <$> moved) as Hin'.
    { apply list_elem_of_fmap. by exists m. }
    rewrite Hid in Hin'. apply list_elem_of_fmap in Hin' as (m0 & Heq & Hm0).
    exists m0. injection Heq as Hkk Hoo. by rewrite Hkk, Hoo. }
  assert (∃ m, m ∈ moved ∧ sn_key m = gn_id node) as (m & Hm & Hkm).
  { assert (gn_id node ∈ sn_key <$> sns) as Hk.
    { rewrite Hkeys. apply list_elem_of_fmap. by exists node. }
    apply list_elem_of_fmap in Hk as (m0 & Hk0 & Hm0).
    assert ((sn_key m0, sn_originalId m0)
              ∈ (λ n, (sn_key n, sn_originalId n)) <$> moved) as Hin'.
    { rewrite Hid. apply list_elem_of_fmap. by exists m0. }
    apply list_elem_of_fmap in Hin' as (m & Heq & Hm).
    exists m. split; [done|]. injection Heq as Hkk Hoo. congruence. }
  destruct (Hback m Hm) as (m0 & Hm0 & Hk0 & Ho0).
  assert (graph0 !! sn_key m = Some (attrs_of m0)) as Hg0.
  { rewrite <-Hk0. apply lookup_addNode; [by rewrite Hkeys|done]. }
  destruct (lookup_set_position graph0 moved (sn_key m)) as (mv & Hmv & _).
  fold graph1 in Hmv. rewrite Hg0 in Hmv. simpl in Hmv.
  exists (position_of (mv (attrs_of m0))). split.
  - pose proof (Hsame0 m0 Hm0) as Hs0.
    replace (gn_id node) with (sn_originalId m) by congruence.
    apply lookup_store_position; [|done|done].
    intros m' Hm'. destruct (Hback m' Hm') as (m1 & Hm1 & Hk1 & Ho1).
    rewrite <-Hk1, <-Ho1. by apply Hsame0.
  - erewrite drawn_at_eq; [|reflexivity]. cbn [r_graph].
    by rewrite <-Hkm, Hmv.
Qed.

(** A render that finds every node in the cache: no layout, no random
    draw, the cache is left as it is and every node is drawn at its
    cached position. *)
Lemma render_cached data s cache :
  calculatedPositions s = Some cache →
  NoDup (gn_id <$> gd_nodes data) →
  (∀ node, node ∈ gd_nodes data → is_Some (cache !! gn_id node)) →
  let s' := renderGraph random data s in
  layout_runs s' = layout_runs s
  ∧ currentGraphData s' = Some data
  ∧ calculatedPositions s' = Some cache
  ∧ ∀ node, node ∈ gd_nodes data →
      drawn_at s' (gn_id node) = cache !! gn_id node.
Proof.
  intros Hcache Hnd Hall. unfold renderGraph.
  set (lo := JS.Math_min _). set (hi := JS.Math_max _).
  pose proof (sigma_nodes_spec (calculatedPositions s) lo hi
                (random_calls s) (gd_nodes data)) as Hspec.
  pose proof (sigma_nodes_keys (calculatedPositions s) lo hi
                (random_calls s) (gd_nodes data)) as Hkeys.
  destruct (sigma_nodes random (calculatedPositions s) lo hi
              (random_calls s) (gd_nodes data)) as [sns calls'].
  simpl in Hspec, Hkeys. rewrite Hcache in *. cbn zeta.
  split; [done|]. split; [done|]. split; [done|].
  intros node Hin. apply list_elem_of_lookup in Hin as [i Hi].
  destruct (Forall2_lookup_l _ _ _ _ _ Hspec Hi) as (m & Hm & Hk & _ & _ & Hp).
  destruct (Hall node) as [p Hpos]; [by eapply list_elem_of_lookup_2|].
  specialize (Hp cache p eq_refl Hpos).
  erewrite drawn_at_eq; [|reflexivity]. cbn [r_graph].
  rewrite <-Hk, lookup_addNode.
  - rewrite Hk, Hpos. simpl. by rewrite <-Hp.
  - by rewrite Hkeys.
  - by eapply list_elem_of_lookup_2.
Qed.

(** No event but a fetched graph touches a filled cache or runs the
    layout. *)
Lemma step_keeps_cache s e cache :
  is_fetch e = false → calculatedPositions s = Some cache →
  calculatedPositions (step random s e) = Some cache
  ∧ layout_runs (step random s e) = layout_runs s.
Proof.
  assert (∀ data s', calculatedPositions s' = Some cache →
            calculatedPositions (renderGraph random data s') = Some cache
            ∧ layout_runs (renderGraph random data s') = layout_runs s')
    as Hrender.
  { intros data s' Hc. unfold renderGraph.
    destruct (sigma_nodes _ _ _ _ _ _) as [sns calls'].
    by rewrite Hc. }
  intros Hfetch Hcache. destruct e as [percent|t|t data|data]; simpl in *.
  - destruct (currentGraphData s); [|done].
    exact (Hrender _ (set_threshold _ s) Hcache).
  - destruct (slot_get t (graphData s)); [|done].
    exact (Hrender _ (set_topic t s) Hcache).
  - done.
  - by apply Hrender.
Qed.

Lemma run_keeps_cache events s cache :
  Forall (λ e, is_fetch e = false) events →
  calculatedPositions s = Some cache →
  calculatedPositions (run random s events) = Some cache
  ∧ layout_runs (run random s events) = layout_runs s.
Proof.
  intros Hev. revert s. unfold run.
  induction Hev as [|e events He _ IH]; intros s Hcache; [done|].
  simpl. destruct (step_keeps_cache s e cache He Hcache) as [Hc Hl].
  destruct (IH _ Hc) as [Hc' Hl']. split; [done|]. by rewrite Hl', Hl.
Qed.

Lemma drawn_size_eq s r key :
  currentGraph s = Some r →
  drawn_size s key = na_size <$> r_graph r !! key.
Proof.
  intros Hr. unfold drawn_size. rewrite Hr. simpl.
  by destruct (r_graph r !! key).
Qed.

(** The radius with which a node is drawn, whether or not the layout
    runs in this render. *)
Lemma render_size data s node :
  NoDup (gn_id <$> gd_nodes data) → node ∈ gd_nodes data →
  drawn_size (renderGraph random data s) (gn_id node)
  = Some (nodeSize (JS.Math_min (gn_size <$> gd_nodes data))
                   (JS.Math_max (gn_size <$> gd_nodes data))
                   (gn_size node)).
Proof.
  intros Hnd Hin. unfold renderGraph.
  set (lo := JS.Math_min _). set (hi := JS.Math_max _).
  pose proof (sigma_nodes_spec (calculatedPositions s) lo hi
                (random_calls s) (gd_nodes data)) as Hspec.
  pose proof (sigma_nodes_keys (calculatedPositions s) lo hi
                (random_calls s) (gd_nodes data)) as Hkeys.
  destruct (sigma_nodes random (calculatedPositions s) lo hi
              (random_calls s) (gd_nodes data)) as [sns calls'].
  simpl in Hspec, Hkeys.
  apply list_elem_of_lookup in Hin as [i Hi].
  destruct (Forall2_lookup_l _ _ _ _ _ Hspec Hi) as (m & Hm & Hk & _ & Hsz & _).
  assert (foldl addNode ∅ sns !! gn_id node = Some (attrs_of m)) as Hg0.
  { rewrite <-Hk. apply lookup_addNode; [by rewrite Hkeys|].
    by eapply list_elem_of_lookup_2. }
  unfold Layout.applyForceLayout.
  set (edges := sigma_edges _ _).
  set (moved := Layout.simulate sns edges).
  destruct (lookup_set_position (foldl addNode ∅ sns) moved (gn_id node))
    as (mv & Hmv & Hsize).
  destruct (calculatedPositions s) as [cache|].
  - erewrite drawn_size_eq; [|reflexivity]. cbn [r_graph].
    rewrite Hg0. simpl. by rewrite Hsz.
  - cbn zeta. erewrite drawn_size_eq; [|reflexivity]. cbn [r_graph].
    rewrite Hmv, Hg0. simpl. by rewrite Hsize, <-Hsz.
Qed.

End GraphFacts.

(** ** C1: what [applyForceLayout] computes *)

(** The guard of the code replaces a distance that is zero (or [NaN]) and
    nothing else. *)
Lemma distance_guard (dx dy : float) :
  Layout.distance dx dy
  = let dist := PrimFloat.sqrt (dx * dx + dy * dy) in
    if PrimFloat.eqb dist 0 || PrimFloat.is_nan dist then 0.1%float else dist.
Proof.
  unfold Layout.distance, JS.or_else, JS.truthy. simpl.
  by destruct (PrimFloat.eqb _ 0), (PrimFloat.is_nan _).
Qed.

(** C1, as amended.  For nodes with pairwise distinct keys,
    [applyForceLayout] runs exactly 50 iterations, each of which starts
    every accumulator at zero, pushes every pair of nodes apart with
    magnitude [(0.1 / dist²) * 100] along [(dx / dist, dy / dist)], pulls
    the two ends of every edge whose endpoints are nodes with magnitude
    [(dist - 2) * 0.01] along the same vector, and then sets
    [v := v * 0.85 + force * 0.05] and [position := position + v]; [dist]
    is replaced by [0.1] exactly when the computed distance is zero or
    [NaN].  The result is a function of the initial nodes and the edges
    alone: it depends neither on the graphology graph nor on anything
    else. *)
Theorem C1_layout_is_fifty_described_iterations
    (graph : gmap string NodeAttrs) (nodes : list SigmaNode)
    (edges : list SigmaEdge) :
  NoDup (sn_key <$> nodes) →
  Layout.iterations = 50
  ∧ (Layout.applyForceLayout graph nodes edges).2
    = Nat.iter 50 (Layout.described_iteration Layout.distance edges) nodes
  ∧ (∀ dx dy, Layout.distance dx dy
       = let dist := PrimFloat.sqrt (dx * dx + dy * dy) in
         if PrimFloat.eqb dist 0 || PrimFloat.is_nan dist then 0.1%float
         else dist).
Proof.
  intros Hnd. split; [done|]. split; [|apply distance_guard].
  unfold Layout.applyForceLayout, Layout.simulate. cbn [snd].
  change Layout.iterations with 50.
  apply iterations_described, Hnd.
Qed.

Lemma C1_layout_witness :
  (Layout.applyForceLayout ∅ Examples.triangle_nodes Examples.triangle_edges).2
  = Layout.described_layout Layout.distance
      Examples.triangle_nodes Examples.triangle_edges.
Proof.
  apply (C1_layout_is_fifty_described_iterations
           ∅ Examples.triangle_nodes Examples.triangle_edges).
  apply (bool_decide_unpack _). vm_compute. exact I.
Defined.

(** C1 as stated fails: with a floor of [0.1] on the distance, two nodes
    [0.05] apart would be pushed by a force computed at distance [0.1];
    the code computes it at distance [0.05]. *)
Lemma C1_floor_counterexample :
  Layout.distance 0.05 0 = 0.05%float
  ∧ Layout.floor_guard 0.05 0 = 0.1%float
  ∧ (Layout.applyForceLayout ∅ Examples.close_nodes []).2
    ≠ Layout.described_layout Layout.floor_guard Examples.close_nodes [].
Proof.
  split; [vm_compute; reflexivity|]. split; [vm_compute; reflexivity|].
  intros Heq.
  apply (f_equal (λ l, match l with
                        | n :: _ => PrimFloat.ltb (sn_x n) (-1000)
                        | [] => false
                        end)) in Heq.
  vm_compute in Heq. discriminate.
Qed.

(** Two nodes at the same position are the one case in which the guard
    applies; the vector between them is zero, so they receive no force and
    stay where they are. *)
Lemma coincident_nodes_stay :
  (λ n, (sn_x n, sn_y n))
    <$> (Layout.applyForceLayout ∅
           [Examples.sigma_node "0" 3 4; Examples.sigma_node "1" 3 4] []).2
  = [(3, 4)%float; (3, 4)%float].
Proof. vm_compute. reflexivity. Qed.

(** ** C2: cached positions are reused by later renders *)

(** C2, as amended.  On graphs that [renderGraph] draws without an
    exception: a fetch empties the position cache, and the simulation
    runs in the render that finds it empty, which is the first render
    after the fetch, of whichever graph it is.  From then on, and until
    a new graph is fetched (for either topic), no event runs it again or
    changes the cache, and every render of that same graph, at whatever
    threshold, draws every node at the position of that first render;
    two such renders at thresholds [t1] and [t2] therefore draw
    identical coordinates. *)
Theorem C2_cached_positions_reused_until_next_fetch
    (random : nat → float) (s0 : Graph.Manager) (data : GraphData)
    (events : list Graph.event) :
  Graph.calculatedPositions s0 = None →
  Graph.accepted data →
  (∀ t other, Graph.slot_get t (Graph.graphData s0) = Some other →
     Graph.accepted other) →
  Forall (λ e, Graph.is_fetch e = false
               ∧ ∀ other, e = Graph.RenderTimer other → Graph.accepted other)
         events →
  let s1 := Graph.renderGraph random data s0 in
  let s := Graph.run random s1 events in
  Graph.layout_runs s1 = S (Graph.layout_runs s0)
  ∧ Graph.layout_runs s = Graph.layout_runs s1
  ∧ Graph.calculatedPositions s = Graph.calculatedPositions s1
  ∧ (∀ t1 t2 node, node ∈ gd_nodes data →
       let s1' := Graph.renderGraph random data (Graph.set_threshold t1 s) in
       let s2' := Graph.renderGraph random data (Graph.set_threshold t2 s) in
       Graph.layout_runs s1' = Graph.layout_runs s1
       ∧ Graph.calculatedPositions s1' = Graph.calculatedPositions s1
       ∧ is_Some (Graph.drawn_at s1 (gn_id node))
       ∧ Graph.drawn_at s1' (gn_id node) = Graph.drawn_at s1 (gn_id node)
       ∧ Graph.drawn_at s2' (gn_id node) = Graph.drawn_at s1' (gn_id node))
  ∧ (Graph.currentGraphData s = Some data →
     ∀ percent node, node ∈ gd_nodes data →
       Graph.drawn_at (Graph.step random s (Graph.ThresholdInput percent))
         (gn_id node)
       = Graph.drawn_at s1 (gn_id node))
  ∧ (∀ before t,
       Graph.calculatedPositions
         (Graph.step random before (Graph.GraphFetched t data)) = None).
Proof.
  intros Hnone (Hnd & _) _ Hev' s1 s.
  assert (Forall (λ e, Graph.is_fetch e = false) events) as Hev.
  { eapply Forall_impl; [exact Hev'|]. by intros e [He _]. }
  clear Hev'.
  destruct (render_first random data s0 Hnone Hnd)
    as (Hruns & _ & cache & Hcache & Hdrawn).
  fold s1 in Hruns, Hcache, Hdrawn.
  destruct (run_keeps_cache random events s1 cache Hev Hcache) as [Hc Hl].
  fold s in Hc, Hl.
  split; [done|]. split; [done|]. split; [by rewrite Hc, Hcache|].
  assert (∀ n, n ∈ gd_nodes data → is_Some (cache !! gn_id n)) as Hall.
  { intros n Hn. destruct (Hdrawn n Hn) as (p & Hp & _). by exists p. }
  split; [|split; [intros Hcurrent percent node Hin|done]].
  2:{ destruct (render_cached random data
                  (Graph.set_threshold (percent / 100) s) cache Hc Hnd Hall)
        as (_ & _ & _ & Hd).
      destruct (Hdrawn node Hin) as (p & Hp & Hp1).
      unfold Graph.step.
      change (Graph.currentGraphData (Graph.set_threshold (percent / 100) s))
        with (Graph.currentGraphData s).
      rewrite Hcurrent.
      transitivity (cache !! gn_id node); [exact (Hd node Hin)|].
      by rewrite Hp1. }
  intros t1 t2 node Hin s1' s2'.
  destruct (render_cached random data (Graph.set_threshold t1 s) cache Hc Hnd Hall)
    as (Hl1 & _ & Hc1 & Hd1).
  destruct (render_cached random data (Graph.set_threshold t2 s) cache Hc Hnd Hall)
    as (_ & _ & _ & Hd2).
  destruct (Hdrawn node Hin) as (p & Hp & Hp1).
  change (Graph.layout_runs (Graph.set_threshold t1 s))
    with (Graph.layout_runs s) in Hl1.
  rewrite Hl in Hl1.
  split; [exact Hl1|]. split; [by rewrite Hcache|].
  split; [by rewrite Hp1|].
  split.
  - transitivity (cache !! gn_id node); [exact (Hd1 node Hin)|].
    by rewrite Hp1.
  - transitivity (cache !! gn_id node); [exact (Hd2 node Hin)|].
    symmetry. exact (Hd1 node Hin).
Qed.

Lemma C2_cached_positions_witness :
  let fetched := Graph.step Examples.random (Graph.init Examples.ids)
                   (Graph.GraphFetched Graph.top Examples.graph_a) in
  let s1 := Graph.renderGraph Examples.random Examples.graph_a fetched in
  let s := Graph.run Examples.random s1
             [Graph.ThresholdInput 80; Graph.TopicClicked Graph.bottom;
              Graph.TopicClicked Graph.top] in
  Graph.layout_runs s = 1
  ∧ Graph.currentGraphData s = Some Examples.graph_a
  ∧ Graph.drawn_at
      (Graph.renderGraph Examples.random Examples.graph_a
         (Graph.set_threshold 0.3 s)) "2"
    = Graph.drawn_at s1 "2".
Proof.
  intros fetched s1 s.
  assert (Graph.calculatedPositions fetched = None) as Hnone by reflexivity.
  assert (Graph.accepted Examples.graph_a) as Haccepted
    by (apply (bool_decide_unpack _); vm_compute; exact I).
  assert (∀ t other,
            Graph.slot_get t (Graph.graphData fetched) = Some other →
            Graph.accepted other) as Hslots.
  { intros [] other; cbn; intros [= <-]. exact Haccepted. }
  assert (Forall (λ e, Graph.is_fetch e = false
                       ∧ ∀ other, e = Graph.RenderTimer other →
                                  Graph.accepted other)
            [Graph.ThresholdInput 80; Graph.TopicClicked Graph.bottom;
             Graph.TopicClicked Graph.top]) as Hev
    by (repeat constructor; discriminate).
  destruct (C2_cached_positions_reused_until_next_fetch
              Examples.random fetched Examples.graph_a
              [Graph.ThresholdInput 80; Graph.TopicClicked Graph.bottom;
               Graph.TopicClicked Graph.top]
              Hnone Haccepted Hslots Hev) as (_ & Hruns & _ & Hlater & _).
  split; [etrans; [exact Hruns|]; vm_compute; reflexivity|].
  split; [vm_compute; reflexivity|].
  assert (Examples.graph_node "2" 6 ∈ gd_nodes Examples.graph_a) as Hin
    by (do 2 apply list_elem_of_further; apply list_elem_of_here).
  destruct (Hlater 0.3%float 0.3%float _ Hin) as (_ & _ & _ & Hsame & _).
  exact Hsame.
Defined.

(** C2 as stated fails, in two ways.  First: the graph of the first
    topic is generated and rendered, then a graph is generated for the
    second topic, then the first topic is shown again and the threshold
    is moved: the two renders of the same generated graph draw node
    ["2"] at different coordinates (freshly drawn at random each time),
    and node ["0"] at the position computed for the other graph's node
    ["0"], not at its own.  Second: while the first graph is shown, a
    graph is generated for the second topic and the slider is moved
    before the deferred render: the simulation runs on the graph that
    was shown and never on the generated one, whose own first render
    finds the cache filled, and two renders of the generated graph at
    different thresholds, with no fetch in between, draw its node ["3"]
    at different coordinates. *)
Lemma C2_regeneration_counterexample :
  let first := Graph.run Examples.random (Graph.init Examples.ids)
                 [Graph.GraphFetched Graph.top Examples.graph_a;
                  Graph.RenderTimer Examples.graph_a] in
  let shown := Graph.run Examples.random first
                 [Graph.TopicClicked Graph.bottom;
                  Graph.GraphFetched Graph.bottom Examples.graph_b;
                  Graph.RenderTimer Examples.graph_b;
                  Graph.TopicClicked Graph.top] in
  let again := Graph.step Examples.random shown (Graph.ThresholdInput 30) in
  let fetched := Graph.run Examples.random first
                   [Graph.TopicClicked Graph.bottom;
                    Graph.GraphFetched Graph.bottom Examples.four_sizes;
                    Graph.ThresholdInput 30] in
  let raced := Graph.step Examples.random fetched
                 (Graph.RenderTimer Examples.four_sizes) in
  let moved := Graph.step Examples.random raced (Graph.ThresholdInput 40) in
  Graph.accepted Examples.graph_a ∧ Graph.accepted Examples.graph_b
  ∧ Graph.accepted Examples.four_sizes
  ∧ Graph.currentGraphData first = Some Examples.graph_a
  ∧ Graph.currentGraphData shown = Some Examples.graph_a
  ∧ Graph.currentGraphData again = Some Examples.graph_a
  ∧ Graph.drawn_at shown "2" = Some (81, 18)%float
  ∧ Graph.drawn_at again "2" ≠ Graph.drawn_at shown "2"
  ∧ Graph.drawn_at shown "0" ≠ Graph.drawn_at first "0"
  ∧ Graph.currentGraphData fetched = Some Examples.graph_a
  ∧ Graph.layout_runs fetched = 2
  ∧ Graph.currentGraphData raced = Some Examples.four_sizes
  ∧ Graph.drawn_at raced "0" = Graph.drawn_at fetched "0"
  ∧ Graph.currentGraphData moved = Some Examples.four_sizes
  ∧ Graph.layout_runs moved = 2
  ∧ Graph.drawn_at moved "3" ≠ Graph.drawn_at raced "3".
Proof.
  cbv zeta.
  split; [apply (bool_decide_unpack _); vm_compute; exact I|].
  split; [apply (bool_decide_unpack _); vm_compute; exact I|].
  split; [apply (bool_decide_unpack _); vm_compute; exact I|].
  split; [vm_compute; reflexivity|]. split; [vm_compute; reflexivity|].
  split; [vm_compute; reflexivity|]. split; [vm_compute; reflexivity|].
  split.
  { intros Heq.
    apply (f_equal (λ o : option vec,
                      match o with
                      | Some p => PrimFloat.eqb p.1 81
                      | None => false
                      end)) in Heq.
    vm_compute in Heq. discriminate. }
  split.
  { intros Heq.
    apply (f_equal (λ o : option vec,
                      match o with
                      | Some p => PrimFloat.ltb p.1 25
                      | None => false
                      end)) in Heq.
    vm_compute in Heq. discriminate. }
  split; [vm_compute; reflexivity|]. split; [vm_compute; reflexivity|].
  split; [vm_compute; reflexivity|]. split; [vm_compute; reflexivity|].
  split; [vm_compute; reflexivity|]. split; [vm_compute; reflexivity|].
  intros Heq.
  apply (f_equal (λ o : option vec,
                    match o with
                    | Some p => p.1
                    | None => 0%float
                    end)) in Heq.
  vm_compute in Heq. discriminate.
Qed.

(** ** C3: edge filtering and styling *)

(** On an edge whose similarity is missing or is a number other than
    zero, the rendered edge is the one the specification describes. *)
Lemma render_edge_described (threshold : float) (edge : GraphEdge) :
  (∀ v, ge_similarity edge = Some v → JS.truthy v = true) →
  match Graph.render_edge threshold edge with
  | Some drawn =>
      Graph.described_included threshold edge = true
      ∧ se_size drawn = Graph.described_width edge
      ∧ se_similarity drawn = default 0.5%float (ge_similarity edge)
  | None => Graph.described_included threshold edge = false
  end.
Proof.
  intros Htruthy.
  unfold Graph.render_edge, Graph.described_included, Graph.described_width,
    Graph.edge_similarity, Graph.edge_style, JS.or_default, JS.or_else.
  destruct (ge_similarity edge) as [v|]; simpl.
  - rewrite (Htruthy v eq_refl).
    destruct (JS.ge v threshold) eqn:Hge; [|done].
    simpl. by destruct (JS.gt v 0.8), (JS.ge v 0.5).
  - by destruct (JS.ge 0.5 threshold).
Qed.

(** C3 fails on a similarity of exactly zero: [edge.similarity || 0.5]
    takes it for a missing one.  At the initial threshold [0.5] the edge
    should be left out ([0 >= 0.5] is false) and, at a threshold it
    passes, be drawn faint; it is drawn, as a medium edge of similarity
    [0.5], at every threshold up to [0.5]. *)
Lemma C3_zero_similarity_is_drawn_as_medium :
  let edge := Examples.graph_edge "0" "1" (Some 0%float) in
  let medium := {| se_key := "0-1"; se_source := "0"; se_target := "1";
                   se_similarity := 0.5;
                   se_color := "rgba(100, 100, 100, 0.6)";
                   se_size := 2.5 |} in
  Graph.currentThreshold (Graph.init Examples.ids) = 0.5%float
  ∧ Graph.described_included 0.5 edge = false
  ∧ Graph.described_included 0 edge = true
  ∧ Graph.described_width edge = 1.5%float
  ∧ Graph.render_edge 0.5 edge = Some medium
  ∧ Graph.render_edge 0.25 edge = Some medium
  ∧ Graph.render_edge 0 edge = Some medium.
Proof. cbv zeta. repeat split; vm_compute; reflexivity. Qed.

(** ** C4: when the position cache is cleared *)

(** C4, as amended.  There is one position cache, shared by both topics.
    It is cleared by every fetched graph, whichever topic it is for, and
    by nothing else: a threshold change, a topic switch or a deferred
    render leaves a filled cache exactly as it is.  A fetched graph
    replaces the graph data of its own topic only, and no other event
    changes the graph data or the search ids of either topic. *)
Theorem C4_one_cache_cleared_by_every_fetch
    (random : nat → float) (s : Graph.Manager) :
  (∀ t data,
     Graph.calculatedPositions (Graph.step random s (Graph.GraphFetched t data))
     = None)
  ∧ (∀ e cache,
       Graph.is_fetch e = false →
       Graph.calculatedPositions s = Some cache →
       Graph.calculatedPositions (Graph.step random s e) = Some cache)
  ∧ (∀ t data,
       let s' := Graph.step random s (Graph.GraphFetched t data) in
       let other := match t with
                    | Graph.top => Graph.bottom
                    | Graph.bottom => Graph.top
                    end in
       Graph.slot_get t (Graph.graphData s') = Some data
       ∧ Graph.slot_get other (Graph.graphData s')
         = Graph.slot_get other (Graph.graphData s)
       ∧ Graph.searchIds s' = Graph.searchIds s)
  ∧ (∀ e,
       Graph.is_fetch e = false →
       Graph.graphData (Graph.step random s e) = Graph.graphData s
       ∧ Graph.searchIds (Graph.step random s e) = Graph.searchIds s).
Proof.
  split; [done|]. split.
  { intros e cache He Hc. by apply step_keeps_cache. }
  split.
  { intros t data. by destruct t. }
  assert (∀ data s', Graph.graphData (Graph.renderGraph random data s')
                     = Graph.graphData s'
                     ∧ Graph.searchIds (Graph.renderGraph random data s')
                       = Graph.searchIds s') as Hrender.
  { intros data s'. unfold Graph.renderGraph.
    destruct (Graph.sigma_nodes _ _ _ _ _ _) as [sns calls'].
    by destruct (Graph.calculatedPositions s'). }
  intros e He. destruct e as [percent|t|t data|data]; simpl in *.
  - destruct (Graph.currentGraphData s); [|done].
    exact (Hrender _ (Graph.set_threshold _ s)).
  - destruct (Graph.slot_get t (Graph.graphData s)); [|done].
    exact (Hrender _ (Graph.set_topic t s)).
  - done.
  - apply Hrender.
Qed.

Lemma C4_one_cache_witness :
  let s := Graph.run Examples.random (Graph.init Examples.ids)
             [Graph.GraphFetched Graph.top Examples.graph_a;
              Graph.RenderTimer Examples.graph_a] in
  Graph.calculatedPositions
    (Graph.step Examples.random s (Graph.TopicClicked Graph.bottom))
  = Graph.calculatedPositions s.
Proof.
  intros s.
  destruct (Graph.calculatedPositions s) as [cache|] eqn:Hcache.
  - destruct (C4_one_cache_cleared_by_every_fetch Examples.random s)
      as (_ & Hkeep & _).
    exact (Hkeep (Graph.TopicClicked Graph.bottom) cache eq_refl Hcache).
  - exfalso. vm_compute in Hcache. discriminate.
Defined.

(** C4 as stated fails: the cache is not scoped per topic.  Once the
    graph of the first topic has been rendered its positions are cached;
    fetching a graph for the second topic clears them, although the first
    topic still owns its graph. *)
Lemma C4_shared_cache_counterexample :
  let s := Graph.run Examples.random (Graph.init Examples.ids)
             [Graph.GraphFetched Graph.top Examples.graph_a;
              Graph.RenderTimer Examples.graph_a] in
  let s' := Graph.step Examples.random s
              (Graph.GraphFetched Graph.bottom Examples.graph_b) in
  (Graph.calculatedPositions s ≫= (λ cache, cache !! "2"))
  = Some (59.014950284842818, 96.049660999584489)%float
  ∧ Graph.slot_get Graph.top (Graph.graphData s') = Some Examples.graph_a
  ∧ Graph.calculatedPositions s' = None.
Proof. cbv zeta. repeat split; vm_compute; reflexivity. Qed.

(** ** The order on the numbers, [Math.min] and [Math.max] *)

Section FloatOrder.
Import SpecFloat.

Lemma compare_cont_Eq (m1 m2 : positive) :
  Pos.compare_cont Eq m1 m2 = (m1 ?= m2)%positive.
Proof. rewrite Pos.compare_cont_spec. by destruct (m1 ?= m2)%positive. Qed.

Ltac order_cases :=
  repeat match goal with
  | |- context [Pos.compare_cont Eq ?m1 ?m2] => rewrite (compare_cont_Eq m1 m2)
  | H : context [Pos.compare_cont Eq ?m1 ?m2] |- _ =>
      rewrite (compare_cont_Eq m1 m2) in H
  end;
  repeat match goal with
  | H : context [(?e1 ?= ?e2)%Z] |- _ =>
      destruct (Z.compare_spec e1 e2); simpl in H
  | H : context [(?m1 ?= ?m2)%positive] |- _ =>
      destruct (Pos.compare_spec m1 m2); simpl in H
  | |- context [(?e1 ?= ?e2)%Z] => destruct (Z.compare_spec e1 e2); simpl
  | |- context [(?m1 ?= ?m2)%positive] =>
      destruct (Pos.compare_spec m1 m2); simpl
  end;
  simplify_eq; simpl; try done; try lia.

(** [SFcompare] is an order on the numbers: it is antisymmetric and
    transitive, and it is defined on every two values neither of which is
    [NaN]. *)
Lemma SFcompare_opp (a b : spec_float) (x : comparison) :
  SFcompare a b = Some x → SFcompare b a = Some (CompOpp x).
Proof.
  destruct a as [[]|[]| |[] m1 e1], b as [[]|[]| |[] m2 e2]; simpl;
    intros Hx; try congruence; try (by injection Hx as <-).
  all: order_cases.
Qed.

Lemma SFcompare_trans (a b c : spec_float) (x : comparison) :
  SFcompare a b = Some x → SFcompare b c = Some x → SFcompare a c = Some x.
Proof.
  destruct a as [[]|[]| |[] m1 e1], b as [[]|[]| |[] m2 e2],
    c as [[]|[]| |[] m3 e3]; simpl; intros Hab Hbc; try congruence.
  all: order_cases.
Qed.

Lemma SFcompare_Eq_l (a b c : spec_float) (x : comparison) :
  SFcompare a b = Some Eq → SFcompare b c = Some x → SFcompare a c = Some x.
Proof.
  destruct a as [[]|[]| |[] m1 e1], b as [[]|[]| |[] m2 e2],
    c as [[]|[]| |[] m3 e3]; simpl; intros Hab Hbc; try congruence.
  all: order_cases.
Qed.

Lemma SFcompare_defined (a b : spec_float) :
  is_Some (SFcompare a a) → is_Some (SFcompare b b) →
  is_Some (SFcompare a b).
Proof.
  destruct a as [[]|[]| |[] m1 e1], b as [[]|[]| |[] m2 e2]; simpl;
    intros [? Ha] [? Hb]; try congruence; by eexists.
Qed.

End FloatOrder.

Section FloatFacts.
Implicit Types (a b c v : float).

Lemma compare_cases a b :
  (PrimFloat.ltb a b = true ↔ SFcompare (Prim2SF a) (Prim2SF b) = Some Lt)
  ∧ (PrimFloat.leb a b = true
     ↔ SFcompare (Prim2SF a) (Prim2SF b) = Some Lt
       ∨ SFcompare (Prim2SF a) (Prim2SF b) = Some Eq)
  ∧ (PrimFloat.eqb a b = true ↔ SFcompare (Prim2SF a) (Prim2SF b) = Some Eq).
Proof.
  rewrite FloatAxioms.ltb_spec, FloatAxioms.leb_spec, FloatAxioms.eqb_spec. unfold SFltb, SFleb, SFeqb.
  destruct (SFcompare _ _) as [[]|]; repeat split; try done;
    intros; try tauto; try (by right); try (by left).
  all: by destruct H.
Qed.

Lemma is_nan_false a :
  PrimFloat.is_nan a = false ↔ is_Some (SFcompare (Prim2SF a) (Prim2SF a)).
Proof.
  unfold PrimFloat.is_nan. rewrite FloatAxioms.eqb_spec. unfold SFeqb.
  destruct (Prim2SF a) as [[]|[]| |[] m e]; simpl;
    rewrite ?compare_cont_Eq, ?Z.compare_refl, ?Pos.compare_refl; simpl;
    split; try done; try (by eexists); by intros [].
Qed.

Lemma leb_trans a b c :
  PrimFloat.leb a b = true → PrimFloat.leb b c = true →
  PrimFloat.leb a c = true.
Proof.
  intros Hab%compare_cases Hbc%compare_cases. apply compare_cases.
  destruct Hab as [Hab|Hab], Hbc as [Hbc|Hbc].
  - left. by apply (SFcompare_trans _ (Prim2SF b)).
  - left. apply SFcompare_opp in Hab, Hbc. simpl in *.
    pose proof (SFcompare_Eq_l _ _ _ _ Hbc Hab) as Hca.
    by apply SFcompare_opp in Hca.
  - left. by apply (SFcompare_Eq_l _ (Prim2SF b)).
  - right. by apply (SFcompare_Eq_l _ (Prim2SF b)).
Qed.

Lemma ltb_leb a b : PrimFloat.ltb a b = true → PrimFloat.leb a b = true.
Proof. intros Hab%compare_cases. apply compare_cases. by left. Qed.

Lemma eqb_leb a b : PrimFloat.eqb a b = true → PrimFloat.leb a b = true.
Proof. intros Hab%compare_cases. apply compare_cases. by right. Qed.

Lemma leb_refl a : PrimFloat.is_nan a = false → PrimFloat.leb a a = true.
Proof.
  intros Ha. apply eqb_leb. unfold PrimFloat.is_nan in Ha.
  by apply negb_false_iff in Ha.
Qed.

(** Of two numbers, the one that is not below the other is above it or
    equal to it. *)
Lemma leb_of_not_ltb a b :
  PrimFloat.is_nan a = false → PrimFloat.is_nan b = false →
  PrimFloat.ltb a b = false → PrimFloat.leb b a = true.
Proof.
  intros Ha%is_nan_false Hb%is_nan_false Hlt. apply compare_cases.
  destruct (SFcompare_defined _ _ Ha Hb) as [x Hx].
  destruct x.
  - right. by apply SFcompare_opp in Hx.
  - exfalso. apply compare_cases in Hx. congruence.
  - left. by apply SFcompare_opp in Hx.
Qed.

Lemma leb_infinity v :
  PrimFloat.is_nan v = false → PrimFloat.leb v infinity = true.
Proof.
  intros Hv%is_nan_false. rewrite FloatAxioms.leb_spec. unfold SFleb.
  change (Prim2SF infinity) with (S754_infinity false).
  by destruct (Prim2SF v) as [[]|[]| |[] m e], Hv.
Qed.

Lemma neg_infinity_leb v :
  PrimFloat.is_nan v = false → PrimFloat.leb neg_infinity v = true.
Proof.
  intros Hv%is_nan_false. rewrite FloatAxioms.leb_spec. unfold SFleb.
  change (Prim2SF neg_infinity) with (S754_infinity true).
  by destruct (Prim2SF v) as [[]|[]| |[] m e], Hv.
Qed.

(** The only number that [+Infinity] does not exceed is [+Infinity], and
    likewise for [-Infinity]. *)
Lemma infinity_leb v : PrimFloat.leb infinity v = true → v = infinity.
Proof.
  rewrite FloatAxioms.leb_spec. unfold SFleb.
  change (Prim2SF infinity) with (S754_infinity false).
  intros Hv. apply Prim2SF_inj.
  change (Prim2SF infinity) with (S754_infinity false).
  by destruct (Prim2SF v) as [[]|[]| |[] m e].
Qed.

Lemma leb_neg_infinity v : PrimFloat.leb v neg_infinity = true → v = neg_infinity.
Proof.
  rewrite FloatAxioms.leb_spec. unfold SFleb.
  change (Prim2SF neg_infinity) with (S754_infinity true).
  intros Hv. apply Prim2SF_inj.
  change (Prim2SF neg_infinity) with (S754_infinity true).
  by destruct (Prim2SF v) as [[]|[]| |[] m e].
Qed.

(** [Math.min] of numbers, none of them [NaN], from a running minimum:
    the result is the running minimum or one of the numbers, and it
    exceeds neither. *)
Lemma min_step_fold (vs : list float) (lowest : float) :
  PrimFloat.is_nan lowest = false →
  Forall (λ v, PrimFloat.is_nan v = false) vs →
  let r := foldl JS.min_step lowest vs in
  PrimFloat.is_nan r = false
  ∧ (r = lowest ∨ r ∈ vs)
  ∧ PrimFloat.leb r lowest = true
  ∧ ∀ v, v ∈ vs → PrimFloat.leb r v = true.
Proof.
  revert lowest. induction vs as [|v vs IH]; intros lowest Hlow Hvs.
  - cbn. split; [done|]. split; [by left|]. split; [by apply leb_refl|].
    intros v Hv. by apply elem_of_nil in Hv.
  - apply Forall_cons in Hvs as [Hv Hvs]. cbn [foldl].
    assert (PrimFloat.is_nan (JS.min_step lowest v) = false
            ∧ (JS.min_step lowest v = lowest ∨ JS.min_step lowest v = v)
            ∧ PrimFloat.leb (JS.min_step lowest v) lowest = true
            ∧ PrimFloat.leb (JS.min_step lowest v) v = true)
      as (Hnan & Hwhich & Hle_low & Hle_v).
    { unfold JS.min_step. rewrite Hlow, Hv. cbn [orb].
      destruct (PrimFloat.ltb v lowest) eqn:Hlt.
      - split; [done|]. split; [by right|].
        split; [by apply ltb_leb|by apply leb_refl].
      - destruct (PrimFloat.eqb v lowest && JS.is_neg_zero v) eqn:Heq.
        + apply andb_true_iff in Heq as [Heq _].
          split; [done|]. split; [by right|].
          split; [by apply eqb_leb|by apply leb_refl].
        + split; [done|]. split; [by left|].
          split; [by apply leb_refl|by apply leb_of_not_ltb]. }
    destruct (IH _ Hnan Hvs) as (Hr & Hin & Hle & Hall).
    split; [done|]. split; [|split].
    + destruct Hin as [->|Hin]; [|right; by apply list_elem_of_further].
      destruct Hwhich as [->| ->]; [by left|right; apply list_elem_of_here].
    + by apply (leb_trans _ _ _ Hle).
    + intros w [->|Hw]%elem_of_cons; [|by apply Hall].
      by apply (leb_trans _ _ _ Hle).
Qed.

Lemma max_step_fold (vs : list float) (highest : float) :
  PrimFloat.is_nan highest = false →
  Forall (λ v, PrimFloat.is_nan v = false) vs →
  let r := foldl JS.max_step highest vs in
  PrimFloat.is_nan r = false
  ∧ (r = highest ∨ r ∈ vs)
  ∧ PrimFloat.leb highest r = true
  ∧ ∀ v, v ∈ vs → PrimFloat.leb v r = true.
Proof.
  revert highest. induction vs as [|v vs IH]; intros highest Hhigh Hvs.
  - cbn. split; [done|]. split; [by left|]. split; [by apply leb_refl|].
    intros v Hv. by apply elem_of_nil in Hv.
  - apply Forall_cons in Hvs as [Hv Hvs]. cbn [foldl].
    assert (PrimFloat.is_nan (JS.max_step highest v) = false
            ∧ (JS.max_step highest v = highest ∨ JS.max_step highest v = v)
            ∧ PrimFloat.leb highest (JS.max_step highest v) = true
            ∧ PrimFloat.leb v (JS.max_step highest v) = true)
      as (Hnan & Hwhich & Hle_high & Hle_v).
    { unfold JS.max_step. rewrite Hhigh, Hv. cbn [orb].
      destruct (PrimFloat.ltb highest v) eqn:Hlt.
      - split; [done|]. split; [by right|].
        split; [by apply ltb_leb|by apply leb_refl].
      - destruct (PrimFloat.eqb v highest && JS.is_neg_zero highest) eqn:Heq.
        + apply andb_true_iff in Heq as [Heq _].
          split; [done|]. split; [by right|].
          split; [|by apply leb_refl].
          apply compare_cases in Heq. apply SFcompare_opp in Heq.
          apply compare_cases. by right.
        + split; [done|]. split; [by left|].
          split; [by apply leb_refl|by apply leb_of_not_ltb]. }
    destruct (IH _ Hnan Hvs) as (Hr & Hin & Hle & Hall).
    split; [done|]. split; [|split].
    + destruct Hin as [->|Hin]; [|right; by apply list_elem_of_further].
      destruct Hwhich as [->| ->]; [by left|right; apply list_elem_of_here].
    + by apply (leb_trans _ _ _ Hle_high).
    + intros w [->|Hw]%elem_of_cons; [|by apply Hall].
      by apply (leb_trans _ _ _ Hle_v).
Qed.

(** [Math.min] and [Math.max] of at least one number, none of them
    [NaN], are one of the numbers, the least and the greatest. *)
Lemma Math_min_least (vs : list float) :
  vs ≠ [] → Forall (λ v, PrimFloat.is_nan v = false) vs →
  JS.Math_min vs ∈ vs ∧ ∀ v, v ∈ vs → PrimFloat.leb (JS.Math_min vs) v = true.
Proof.
  intros Hne Hvs.
  destruct (min_step_fold vs infinity eq_refl Hvs) as (_ & Hin & _ & Hall).
  fold (JS.Math_min vs) in Hin, Hall. split; [|done].
  destruct Hin as [Hinf|Hin]; [|done].
  destruct vs as [|v vs]; [done|].
  assert (v = infinity) as ->.
  { apply infinity_leb. rewrite <-Hinf. apply Hall, list_elem_of_here. }
  rewrite Hinf. apply list_elem_of_here.
Qed.

Lemma Math_max_greatest (vs : list float) :
  vs ≠ [] → Forall (λ v, PrimFloat.is_nan v = false) vs →
  JS.Math_max vs ∈ vs ∧ ∀ v, v ∈ vs → PrimFloat.leb v (JS.Math_max vs) = true.
Proof.
  intros Hne Hvs.
  destruct (max_step_fold vs neg_infinity eq_refl Hvs) as (_ & Hin & _ & Hall).
  fold (JS.Math_max vs) in Hin, Hall. split; [|done].
  destruct Hin as [Hinf|Hin]; [|done].
  destruct vs as [|v vs]; [done|].
  assert (v = neg_infinity) as ->.
  { apply leb_neg_infinity. rewrite <-Hinf. apply Hall, list_elem_of_here. }
  rewrite Hinf. apply list_elem_of_here.
Qed.


(** A finite number is not [NaN]. *)
Lemma finite_is_nan v : JS.finite v = true → PrimFloat.is_nan v = false.
Proof.
  unfold JS.finite. intros [Hlo _]%andb_true_iff.
  apply compare_cases in Hlo. apply is_nan_false.
  change (Prim2SF neg_infinity) with (S754_infinity true) in Hlo.
  by destruct (Prim2SF v) as [[]|[]| |[] m e]; simpl; try done;
    rewrite ?compare_cont_Eq, ?Z.compare_refl, ?Pos.compare_refl; simpl;
    eexists.
Qed.

(** A finite number minus itself is [+0]. *)
Lemma sub_self v : JS.finite v = true → (v - v)%float = 0%float.
Proof.
  unfold JS.finite. intros [Hlo Hhi]%andb_true_iff. revert Hlo Hhi.
  rewrite !FloatAxioms.ltb_spec. unfold SFltb.
  change (Prim2SF neg_infinity) with (S754_infinity true).
  change (Prim2SF infinity) with (S754_infinity false).
  intros Hlo Hhi. apply Prim2SF_inj. rewrite FloatAxioms.sub_spec.
  change (Prim2SF 0) with (S754_zero false).
  destruct (Prim2SF v) as [[]|[]| |[] m e]; try done.
  all: unfold SF64sub, SFsub; rewrite Z.min_id; unfold shl_align.
  all: rewrite Z.sub_diag; cbn [fst cond_Zopp]; reflexivity.
Qed.

(** The radius that [+0] above the smallest size gives is [minSize],
    whatever the denominator chosen by [||]. *)
Lemma radius_of_zero d :
  JS.truthy d = true →
  (Graph.minSize + (0 / d) * (Graph.maxSize - Graph.minSize))%float
  = Graph.minSize.
Proof.
  unfold JS.truthy. intros [Hz Hn]%andb_true_iff.
  apply negb_true_iff in Hz, Hn.
  apply Prim2SF_inj.
  rewrite FloatAxioms.add_spec, FloatAxioms.mul_spec, FloatAxioms.div_spec.
  revert Hz. rewrite FloatAxioms.eqb_spec. unfold SFeqb.
  apply is_nan_false in Hn. revert Hn.
  change (Prim2SF 0) with (S754_zero false).
  replace (Prim2SF (Graph.maxSize - Graph.minSize))
    with (Prim2SF 25) by (vm_compute; reflexivity).
  destruct (Prim2SF d) as [[]|[]| |[] m e]; intros [? Hn] Hz; try done.
  all: vm_compute; reflexivity.
Qed.

End FloatFacts.

(** ** C9: the radius of a node *)

(** C9.  In a graph whose sizes are numbers, [Math.min] and [Math.max]
    of the sizes are sizes of the node set, the smallest and the largest
    one.  Every node of the rendered graph is drawn with radius
    [5 + ((size - min) / (max - min)) * (30 - 5)], the denominator being
    [1] when [max - min] is zero; a node of the smallest size is drawn
    with radius 5, and so is every node when all sizes are equal.  For
    sizes 1, 5, 10 and 20, in this order or another, the radii of 1 and
    20 are 5 and 30 and the other two lie strictly between. *)
Theorem C9_node_radius_is_linear_in_size
    (random : nat → float) (s : Graph.Manager) (data : GraphData)
    (node : GraphNode) :
  Graph.accepted data →
  Forall (λ n, JS.finite (gn_size n) = true) (gd_nodes data) →
  node ∈ gd_nodes data →
  let sizes := gn_size <$> gd_nodes data in
  let lo := JS.Math_min sizes in
  let hi := JS.Math_max sizes in
  let drawn := Graph.drawn_size (Graph.renderGraph random data s) in
  (lo ∈ sizes ∧ hi ∈ sizes
   ∧ ∀ n, n ∈ gd_nodes data →
       PrimFloat.leb lo (gn_size n) = true
       ∧ PrimFloat.leb (gn_size n) hi = true)
  ∧ (let denominator :=
       if PrimFloat.eqb (hi - lo) 0 || PrimFloat.is_nan (hi - lo)
       then 1%float else (hi - lo)%float in
     drawn (gn_id node)
     = Some (Graph.minSize
             + ((gn_size node - lo) / denominator)
               * (Graph.maxSize - Graph.minSize))%float)
  ∧ (gn_size node = lo → drawn (gn_id node) = Some Graph.minSize)
  ∧ ((∀ n, n ∈ gd_nodes data → gn_size n = gn_size node) →
     ∀ n, n ∈ gd_nodes data → drawn (gn_id n) = Some Graph.minSize)
  ∧ (let drawn := Graph.drawn_size
                    (Graph.renderGraph random Examples.four_sizes s) in
     drawn "0" = Some Graph.minSize
     ∧ drawn "3" = Some Graph.maxSize
     ∧ (∃ r, drawn "1" = Some r ∧ PrimFloat.ltb Graph.minSize r = true
             ∧ PrimFloat.ltb r Graph.maxSize = true)
     ∧ (∃ r, drawn "2" = Some r ∧ PrimFloat.ltb Graph.minSize r = true
             ∧ PrimFloat.ltb r Graph.maxSize = true))
  ∧ (let drawn := Graph.drawn_size
                    (Graph.renderGraph random Examples.shuffled_sizes s) in
     drawn "2" = Some Graph.minSize
     ∧ drawn "1" = Some Graph.maxSize
     ∧ (∃ r, drawn "3" = Some r ∧ PrimFloat.ltb Graph.minSize r = true
             ∧ PrimFloat.ltb r Graph.maxSize = true)
     ∧ (∃ r, drawn "0" = Some r ∧ PrimFloat.ltb Graph.minSize r = true
             ∧ PrimFloat.ltb r Graph.maxSize = true))
  ∧ (let drawn := Graph.drawn_size
                    (Graph.renderGraph random Examples.same_sizes s) in
     drawn "0" = Some Graph.minSize ∧ drawn "1" = Some Graph.minSize
     ∧ drawn "2" = Some Graph.minSize).
Proof.
  intros (Hnd & _) Hfinite Hin sizes lo hi drawn.
  assert (∀ d n, n ∈ gd_nodes d → NoDup (gn_id <$> gd_nodes d) →
            Graph.drawn_size (Graph.renderGraph random d s) (gn_id n)
            = Some (Graph.nodeSize (JS.Math_min (gn_size <$> gd_nodes d))
                      (JS.Math_max (gn_size <$> gd_nodes d)) (gn_size n)))
    as Hsize by (intros; by apply render_size).
  assert (sizes ≠ []) as Hne.
  { intros Hnil. apply (list_elem_of_fmap_2 gn_size) in Hin.
    fold sizes in Hin. rewrite Hnil in Hin. by apply elem_of_nil in Hin. }
  assert (Forall (λ v, PrimFloat.is_nan v = false) sizes) as Hnan.
  { apply Forall_fmap. eapply Forall_impl; [exact Hfinite|].
    intros n Hn. by apply finite_is_nan. }
  destruct (Math_min_least sizes Hne Hnan) as [Hlo_in Hlo].
  destruct (Math_max_greatest sizes Hne Hnan) as [Hhi_in Hhi].
  fold lo in Hlo_in, Hlo. fold hi in Hhi_in, Hhi.
  assert (∀ n, n ∈ gd_nodes data → gn_size n = lo →
            drawn (gn_id n) = Some Graph.minSize) as Hlowest.
  { intros n Hn Hsz. unfold drawn. rewrite Hsize by done. f_equal.
    fold sizes lo hi. unfold Graph.nodeSize. rewrite Hsz.
    rewrite sub_self.
    - apply radius_of_zero. unfold JS.or_else.
      by destruct (JS.truthy (hi - lo)) eqn:Hd.
    - rewrite <-Hsz. by apply (proj1 (Forall_forall _ _) Hfinite). }
  split; [|split; [|split; [|split; [|split; [|split]]]]].
  - split; [done|]. split; [done|]. intros n Hn.
    apply (list_elem_of_fmap_2 gn_size) in Hn. auto.
  - cbv zeta. unfold drawn. rewrite Hsize by done. f_equal.
    unfold Graph.nodeSize, JS.or_else, JS.truthy. fold sizes lo hi.
    by destruct (PrimFloat.eqb _ 0), (PrimFloat.is_nan _).
  - by apply Hlowest.
  - intros Hall n Hn. apply Hlowest; [done|].
    apply list_elem_of_fmap in Hlo_in as (m & -> & Hm).
    by rewrite (Hall n Hn), (Hall m Hm).
  - assert (NoDup (gn_id <$> gd_nodes Examples.four_sizes)) as Hnd4
      by (apply (bool_decide_unpack _); vm_compute; exact I).
    pose proof (λ n Hn, Hsize Examples.four_sizes n Hn Hnd4) as Hfour.
    cbv zeta. repeat split.
    + etrans; [exact (Hfour (Examples.graph_node "0" 1)
                        ltac:(apply list_elem_of_here))|].
      vm_compute. reflexivity.
    + etrans; [exact (Hfour (Examples.graph_node "3" 20)
                        ltac:(do 3 apply list_elem_of_further;
                              apply list_elem_of_here))|].
      vm_compute. reflexivity.
    + eexists. split.
      * exact (Hfour (Examples.graph_node "1" 5)
                 ltac:(apply list_elem_of_further, list_elem_of_here)).
      * split; vm_compute; reflexivity.
    + eexists. split.
      * exact (Hfour (Examples.graph_node "2" 10)
                 ltac:(do 2 apply list_elem_of_further;
                       apply list_elem_of_here)).
      * split; vm_compute; reflexivity.
  - assert (NoDup (gn_id <$> gd_nodes Examples.shuffled_sizes)) as Hnd4
      by (apply (bool_decide_unpack _); vm_compute; exact I).
    pose proof (λ n Hn, Hsize Examples.shuffled_sizes n Hn Hnd4) as Hfour.
    cbv zeta. repeat split.
    + etrans; [exact (Hfour (Examples.graph_node "2" 1)
                        ltac:(do 2 apply list_elem_of_further;
                              apply list_elem_of_here))|].
      vm_compute. reflexivity.
    + etrans; [exact (Hfour (Examples.graph_node "1" 20)
                        ltac:(apply list_elem_of_further, list_elem_of_here))|].
      vm_compute. reflexivity.
    + eexists. split.
      * exact (Hfour (Examples.graph_node "3" 5)
                 ltac:(do 3 apply list_elem_of_further;
                       apply list_elem_of_here)).
      * split; vm_compute; reflexivity.
    + eexists. split.
      * exact (Hfour (Examples.graph_node "0" 10)
                 ltac:(apply list_elem_of_here)).
      * split; vm_compute; reflexivity.
  - assert (NoDup (gn_id <$> gd_nodes Examples.same_sizes)) as Hnd3
      by (apply (bool_decide_unpack _); vm_compute; exact I).
    pose proof (λ n Hn, Hsize Examples.same_sizes n Hn Hnd3) as Hsame.
    cbv zeta. repeat split.
    + etrans; [exact (Hsame (Examples.graph_node "0" 7)
                        ltac:(apply list_elem_of_here))|].
      vm_compute. reflexivity.
    + etrans; [exact (Hsame (Examples.graph_node "1" 7)
                        ltac:(apply list_elem_of_further, list_elem_of_here))|].
      vm_compute. reflexivity.
    + etrans; [exact (Hsame (Examples.graph_node "2" 7)
                        ltac:(do 2 apply list_elem_of_further;
                              apply list_elem_of_here))|].
      vm_compute. reflexivity.
Qed.

Lemma C9_node_radius_witness :
  JS.Math_min (gn_size <$> gd_nodes Examples.shuffled_sizes) = 1%float
  ∧ JS.Math_max (gn_size <$> gd_nodes Examples.shuffled_sizes) = 20%float
  ∧ Graph.drawn_size
      (Graph.renderGraph Examples.random Examples.shuffled_sizes
         (Graph.init Examples.ids)) "3"
    = Some 10.263157894736842%float.
Proof.
  assert (Graph.accepted Examples.shuffled_sizes) as Haccepted
    by (apply (bool_decide_unpack _); vm_compute; exact I).
  assert (Forall (λ n, JS.finite (gn_size n) = true)
            (gd_nodes Examples.shuffled_sizes)) as Hfinite
    by (repeat constructor).
  assert (Examples.graph_node "3" 5 ∈ gd_nodes Examples.shuffled_sizes) as Hin
    by (do 3 apply list_elem_of_further; apply list_elem_of_here).
  destruct (C9_node_radius_is_linear_in_size
              Examples.random (Graph.init Examples.ids) Examples.shuffled_sizes
              (Examples.graph_node "3" 5) Haccepted Hfinite Hin)
    as (_ & Hradius & _).
  split; [vm_compute; reflexivity|]. split; [vm_compute; reflexivity|].
  etrans; [exact Hradius|]. vm_compute. reflexivity.
Defined.

(** ** C5: a summary that arrives after the selection has moved on *)

(** [showClusterDetails] makes the clicked node the selection, whatever
    branch it then takes. *)
Lemma showClusterDetails_selects (attrs : NodeAttrs) (s : Cluster.Page) :
  Cluster.currentClusterId (Cluster.showClusterDetails attrs s).1
  = Some (na_originalId attrs).
Proof.
  unfold Cluster.showClusterDetails.
  destruct (Cluster.summaryCache _ !! _); [done|].
  destruct (Graph.slot_get _ _); [|done]. by case_bool_decide.
Qed.

(** The call is suspended exactly on a cache miss with a search id. *)
Lemma showClusterDetails_awaits (attrs : NodeAttrs) (s : Cluster.Page)
    (searchId : string) :
  Cluster.summaryCache s
    !! (Cluster.topic_name (Cluster.currentTopic s) +:+ "-" +:+ na_originalId attrs)
  = None →
  Graph.slot_get (Cluster.currentTopic s) (Cluster.searchIds s) = Some searchId →
  searchId ≠ "" →
  (Cluster.showClusterDetails attrs s).2
  = Some {| Cluster.rq_searchId := searchId;
            Cluster.rq_clusterId := na_originalId attrs;
            Cluster.rq_storyIds := na_storyIds attrs;
            Cluster.rq_cacheKey :=
              Cluster.topic_name (Cluster.currentTopic s) +:+ "-"
              +:+ na_originalId attrs |}.
Proof.
  intros Hmiss Hid Hne. unfold Cluster.showClusterDetails. simpl.
  rewrite Hmiss, Hid. by rewrite bool_decide_eq_false_2.
Qed.

(** C5, as amended.  There is no stale-response guard: when cluster A is
    selected, then cluster B while A's fetch is pending, and A's response
    arrives, the selection is still B but the title and the summary shown
    become those of A's response, which is also put in the cache under
    A's key. *)
Theorem C5_late_summary_is_applied_to_the_view
    (s s1 s2 : Cluster.Page) (a b : NodeAttrs) (rq : Cluster.Request)
    (pending : option Cluster.Request) (response : Cluster.Summary) :
  Cluster.showClusterDetails a s = (s1, Some rq) →
  Cluster.showClusterDetails b s1 = (s2, pending) →
  let s3 := Cluster.summary_resolved rq response s2 in
  Cluster.rq_clusterId rq = na_originalId a
  ∧ Cluster.currentClusterId s3 = Some (na_originalId b)
  ∧ Cluster.cluster_view_title s3 = Cluster.sm_title response
  ∧ Cluster.cluster_summary_text s3 = Cluster.sm_summary response
  ∧ Cluster.summaryCache s3 !! Cluster.rq_cacheKey rq = Some response.
Proof.
  intros Ha Hb s3.
  pose proof (showClusterDetails_selects b s1) as Hsel.
  rewrite Hb in Hsel. simpl in Hsel.
  split.
  { unfold Cluster.showClusterDetails in Ha.
    destruct (Cluster.summaryCache _ !! _); [done|].
    destruct (Graph.slot_get _ _); [|done].
    case_bool_decide; [done|]. by simplify_eq. }
  unfold s3, Cluster.summary_resolved. simpl.
  split; [exact Hsel|]. split; [reflexivity|]. split; [reflexivity|].
  rewrite lookup_insert_eq. by destruct response.
Qed.

Lemma C5_late_summary_witness :
  let first := Cluster.showClusterDetails Examples.cluster_A
                 (Cluster.init Examples.ids) in
  let second := Cluster.showClusterDetails Examples.cluster_B first.1 in
  Cluster.cluster_view_title
    (Cluster.summary_resolved Examples.request_A Examples.summary_A second.1)
  = "Rust tooling".
Proof.
  intros first second.
  destruct (C5_late_summary_is_applied_to_the_view
              (Cluster.init Examples.ids) first.1 second.1
              Examples.cluster_A Examples.cluster_B Examples.request_A
              second.2 Examples.summary_A) as (_ & _ & Htitle & _).
  - vm_compute. reflexivity.
  - apply surjective_pairing.
  - exact Htitle.
Defined.

(** C5 as stated fails: A is selected and its fetch is pending, B is
    selected and its fetch is pending too, then A's response arrives.  The
    selection stays B, but the view no longer shows B's title and
    placeholder: it shows the title and the summary of A. *)
Lemma C5_stale_response_counterexample :
  let first := Cluster.showClusterDetails Examples.cluster_A
                 (Cluster.init Examples.ids) in
  let second := Cluster.showClusterDetails Examples.cluster_B first.1 in
  let arrived := Cluster.summary_resolved Examples.request_A
                   Examples.summary_A second.1 in
  first.2 = Some Examples.request_A
  ∧ is_Some second.2
  ∧ Cluster.currentClusterId second.1 = Some "B"
  ∧ Cluster.cluster_view_title second.1 = "Cluster B"
  ∧ Cluster.cluster_summary_text second.1 = "Generating summary..."
  ∧ Cluster.currentClusterId arrived = Some "B"
  ∧ Cluster.cluster_view_title arrived = "Rust tooling"
  ∧ Cluster.cluster_summary_text arrived = "Stories about Rust build tools."
  ∧ Cluster.summaryCache arrived !! "top-A" = Some Examples.summary_A.
Proof.
  cbv zeta. split; [vm_compute; reflexivity|].
  split; [vm_compute; by eexists|].
  repeat split; vm_compute; reflexivity.
Qed.

(** ** C7: the summary cache key *)

(** Sorting forgets the order in which the ids were supplied. *)
Lemma sort_permutation (ids1 ids2 : list string) :
  ids1 ≡ₚ ids2 → Viz.sort ids1 = Viz.sort ids2.
Proof.
  intros Hperm. unfold Viz.sort.
  apply (StronglySorted_unique String.le).
  - apply StronglySorted_merge_sort; apply _.
  - apply StronglySorted_merge_sort; apply _.
  - by rewrite !merge_sort_Permutation.
Qed.

Lemma getCacheKey_permutation (searchId : string) (clusterId : Z)
    (ids1 ids2 : list string) :
  ids1 ≡ₚ ids2 →
  Viz._getCacheKey searchId clusterId ids1
  = Viz._getCacheKey searchId clusterId ids2.
Proof.
  intros Hperm. unfold Viz._getCacheKey. by rewrite (sort_permutation _ _ Hperm).
Qed.

(** The cluster view of the knowledge-graph page keeps a cache of its own,
    keyed by topic and cluster id only; there too a repeated request is
    served from the cache. *)
Lemma showClusterDetails_cached_again
    (s s1 : Cluster.Page) (attrs again : NodeAttrs) (rq : Cluster.Request)
    (response : Cluster.Summary) :
  Cluster.showClusterDetails attrs s = (s1, Some rq) →
  na_originalId again = na_originalId attrs →
  let s2 := Cluster.summary_resolved rq response s1 in
  (Cluster.showClusterDetails again s2).2 = None
  ∧ Cluster.cluster_summary_text (Cluster.showClusterDetails again s2).1
    = Cluster.sm_summary response.
Proof.
  intros Hfirst Hid s2.
  unfold Cluster.showClusterDetails in Hfirst.
  destruct (Cluster.summaryCache _ !! _); [done|].
  destruct (Graph.slot_get _ _); [|done].
  case_bool_decide; [done|]. injection Hfirst as <- <-.
  unfold Cluster.showClusterDetails, s2, Cluster.summary_resolved. simpl.
  by rewrite Hid, lookup_insert_eq.
Qed.

(** The request that the cluster view suspends on carries the key made of
    the topic and the cluster id, and leaves the cache as it was. *)
Lemma showClusterDetails_pending
    (s s1 : Cluster.Page) (attrs : NodeAttrs) (rq : Cluster.Request) :
  Cluster.showClusterDetails attrs s = (s1, Some rq) →
  Cluster.rq_cacheKey rq
  = Cluster.topic_name (Cluster.currentTopic s) +:+ "-" +:+ na_originalId attrs
  ∧ Cluster.rq_storyIds rq = na_storyIds attrs
  ∧ Cluster.summaryCache s !! Cluster.rq_cacheKey rq = None
  ∧ Cluster.summaryCache s1 = Cluster.summaryCache s
  ∧ Cluster.currentTopic s1 = Cluster.currentTopic s
  ∧ Cluster.searchIds s1 = Cluster.searchIds s.
Proof.
  unfold Cluster.showClusterDetails. cbn.
  destruct (Cluster.summaryCache s !! _) eqn:Hmiss; [done|].
  destruct (Graph.slot_get _ _); [|done].
  case_bool_decide; [done|]. by intros [= <- <-].
Qed.

(** C7, as amended.  In the cluster plot the key is the search id, the
    cluster id and the story ids sorted as strings, joined by [":"] and
    [","]; the sorted ids are the supplied ones in increasing order, so
    the same ids in another order give the same key.  Once a summary
    request has been answered, a second request for the same search, the
    same cluster and the same stories in another order finds it in the
    cache: no call to the Summary Service is made for it, and the one
    call made for the first request remains the only one.  A second
    request made while the first is still awaiting its answer misses the
    cache and calls the service again.  The cluster view of the
    knowledge-graph page keys its cache by topic and cluster id, without
    the story ids: a request for the same cluster is served from it once
    the first has been answered, whatever its story ids, and calls the
    service again before that. *)
Theorem C7_reordered_story_ids_hit_the_cache
    (m m1 : Viz.Manager) (searchId : string) (clusterId : Z)
    (data1 data2 : Viz.VizData) (rq : Viz.Request)
    (summary : Cluster.Summary) :
  Viz.cluster_story_ids clusterId data1 ≡ₚ Viz.cluster_story_ids clusterId data2 →
  Viz.handleClusterClickByClusterId clusterId data1 searchId m = (m1, Some rq) →
  let ids1 := Viz.cluster_story_ids clusterId data1 in
  let ids2 := Viz.cluster_story_ids clusterId data2 in
  let m2 := Viz.summary_resolved rq summary m1 in
  let second := Viz.handleClusterClickByClusterId clusterId data2 searchId m2 in
  let early := Viz.handleClusterClickByClusterId clusterId data2 searchId m1 in
  (Viz._getCacheKey searchId clusterId ids1
   = searchId +:+ ":" +:+ pretty clusterId +:+ ":"
     +:+ String.concat "," (Viz.sort ids1)
   ∧ StronglySorted String.le (Viz.sort ids1)
   ∧ Viz.sort ids1 ≡ₚ ids1
   ∧ Viz.sort ids2 = Viz.sort ids1
   ∧ Viz._getCacheKey searchId clusterId ids2
     = Viz._getCacheKey searchId clusterId ids1
   ∧ Viz.rq_cacheKey rq = Viz._getCacheKey searchId clusterId ids1)
  ∧ (second.2 = None
     ∧ Viz.details_title second.1 = Cluster.sm_title summary
     ∧ Viz.summary_calls second.1
       = Viz.summary_calls m ++ [(searchId, clusterId, ids1)])
  ∧ (early.2 = Some {| Viz.rq_cacheKey := Viz.rq_cacheKey rq;
                       Viz.rq_stories := Viz.cluster_stories clusterId data2 |}
     ∧ Viz.summary_calls early.1
       = Viz.summary_calls m
         ++ [(searchId, clusterId, ids1); (searchId, clusterId, ids2)])
  ∧ (∀ (s s1 : Cluster.Page) (attrs again : NodeAttrs)
       (pending : Cluster.Request) (response : Cluster.Summary),
       Cluster.showClusterDetails attrs s = (s1, Some pending) →
       na_originalId again = na_originalId attrs →
       let s2 := Cluster.summary_resolved pending response s1 in
       Cluster.rq_cacheKey pending
       = Cluster.topic_name (Cluster.currentTopic s) +:+ "-"
         +:+ na_originalId attrs
       ∧ (Cluster.showClusterDetails again s2).2 = None
       ∧ Cluster.cluster_summary_text (Cluster.showClusterDetails again s2).1
         = Cluster.sm_summary response
       ∧ ∃ repeated,
           (Cluster.showClusterDetails again s1).2 = Some repeated
           ∧ Cluster.rq_cacheKey repeated = Cluster.rq_cacheKey pending
           ∧ Cluster.rq_storyIds repeated = na_storyIds again).
Proof.
  intros Hperm Hfirst ids1 ids2 m2 second early.
  assert (Viz._getCacheKey searchId clusterId ids2
          = Viz._getCacheKey searchId clusterId ids1) as Hkey
    by (symmetry; by apply getCacheKey_permutation).
  unfold Viz.handleClusterClickByClusterId in Hfirst.
  fold ids1 in Hfirst.
  destruct (Viz.summaryCache m !! _) as [cached|] eqn:Hmiss; [done|].
  injection Hfirst as <- <-.
  split; [|split; [|split]].
  - split; [reflexivity|].
    split; [apply StronglySorted_merge_sort; apply _|].
    split; [apply merge_sort_Permutation|].
    split; [symmetry; by apply sort_permutation|]. by split.
  - unfold second, Viz.handleClusterClickByClusterId. fold ids2.
    rewrite Hkey. unfold m2, Viz.summary_resolved. simpl.
    by rewrite lookup_insert_eq.
  - unfold early, Viz.handleClusterClickByClusterId. fold ids2.
    rewrite Hkey. simpl. rewrite Hmiss. simpl.
    split; [done|]. by rewrite <-(assoc_L (++)).
  - intros s s1 attrs again pending response Hclick Hid s2.
    destruct (showClusterDetails_pending _ _ _ _ Hclick)
      as (Hpending & _ & Hnone & Hcache & Htopic & Hids).
    destruct (showClusterDetails_cached_again s s1 attrs again pending
                response Hclick Hid) as [Hhit Htext].
    split; [done|]. split; [done|]. split; [done|].
    unfold Cluster.showClusterDetails in Hclick |- *. cbn in Hclick |- *.
    rewrite Hcache, Htopic, Hids, Hid.
    rewrite Hpending in Hnone. rewrite Hnone.
    destruct (Cluster.summaryCache s !! _); [done|].
    destruct (Graph.slot_get _ _); [|done].
    case_bool_decide; [done|]. eexists. split; [reflexivity|].
    by rewrite Hpending.
Qed.

Lemma C7_reordered_story_ids_witness :
  let first := Viz.handleClusterClickByClusterId 1 Examples.plot_data
                 "search-a" Viz.init in
  let m2 := Viz.summary_resolved
              {| Viz.rq_cacheKey := "search-a:1:305,42,9";
                 Viz.rq_stories := Viz.cluster_stories 1 Examples.plot_data |}
              Examples.summary_A first.1 in
  let second := Viz.handleClusterClickByClusterId 1
                  Examples.plot_data_reordered "search-a" m2 in
  Viz.cluster_story_ids 1 Examples.plot_data = ["305"; "42"; "9"]
  ∧ Viz.cluster_story_ids 1 Examples.plot_data_reordered = ["9"; "42"; "305"]
  ∧ second.2 = None
  ∧ Viz.summary_calls second.1 = [("search-a", 1%Z, ["305"; "42"; "9"])].
Proof.
  intros first m2 second.
  destruct (C7_reordered_story_ids_hit_the_cache
              Viz.init first.1 "search-a" 1 Examples.plot_data
              Examples.plot_data_reordered
              {| Viz.rq_cacheKey := "search-a:1:305,42,9";
                 Viz.rq_stories := Viz.cluster_stories 1 Examples.plot_data |}
              Examples.summary_A) as (_ & (Hhit & _ & Hcalls) & _).
  - apply (bool_decide_unpack _). vm_compute. exact I.
  - vm_compute. reflexivity.
  - split; [vm_compute; reflexivity|]. split; [vm_compute; reflexivity|].
    split; [exact Hhit|exact Hcalls].
Defined.

(** C7 as stated fails, in two ways.  Two requests for the same search,
    the same cluster and the same stories in another order, the second
    made before the first is answered: the second is not served from the
    cache and the Summary Service is called twice.  And in the cluster
    view of the knowledge-graph page the key is ["top-A"], made of the
    topic and the cluster id: after the summary of a cluster has been
    answered, a request for the same cluster id with other stories is
    served the cached summary, which a key made of the story ids would
    not allow. *)
Lemma C7_pending_and_topic_key_counterexample :
  let first := Viz.handleClusterClickByClusterId 1 Examples.plot_data
                 "search-a" Viz.init in
  let second := Viz.handleClusterClickByClusterId 1
                  Examples.plot_data_reordered "search-a" first.1 in
  let clicked := Cluster.showClusterDetails Examples.cluster_A
                   (Cluster.init Examples.ids) in
  (Viz.cluster_story_ids 1 Examples.plot_data
   ≡ₚ Viz.cluster_story_ids 1 Examples.plot_data_reordered
   ∧ is_Some first.2
   ∧ is_Some second.2
   ∧ Viz.summary_calls second.1
     = [("search-a", 1%Z, ["305"; "42"; "9"]);
        ("search-a", 1%Z, ["9"; "42"; "305"])])
  ∧ ∃ pending,
      clicked.2 = Some pending
      ∧ Cluster.rq_cacheKey pending = "top-A"
      ∧ Cluster.rq_searchId pending = "search-a"
      ∧ Cluster.rq_storyIds pending = ["Aa"; "Ab"]
      ∧ na_originalId Examples.cluster_A_other_stories = "A"
      ∧ na_storyIds Examples.cluster_A_other_stories = ["Zy"; "Zz"]
      ∧ let answered := Cluster.summary_resolved pending Examples.summary_A
                          clicked.1 in
        let other := Cluster.showClusterDetails
                       Examples.cluster_A_other_stories answered in
        other.2 = None
        ∧ Cluster.cluster_summary_text other.1
          = Cluster.sm_summary Examples.summary_A.
Proof.
  cbv zeta. split.
  - split; [apply (bool_decide_unpack _); vm_compute; exact I|].
    split; [vm_compute; by eexists|]. split; [vm_compute; by eexists|].
    vm_compute. reflexivity.
  - eexists. split; [vm_compute; reflexivity|].
    repeat split; vm_compute; reflexivity.
Qed.

(** ** C8 and C10: the path-highlight toggle *)

Lemma clear_unmarked_nodes (nodes : list Concept.NodeElem) :
  forallb (λ e, negb (Concept.ne_highlighted e) && negb (Concept.ne_dimmed e))
          nodes = true →
  Concept.clear_node <$> nodes = nodes.
Proof.
  induction nodes as [|e nodes IH]; [done|].
  rewrite fmap_cons. cbn [forallb]. intros [He Hrest]%andb_true_iff.
  rewrite IH by done. by destruct e as [id article [] []].
Qed.

Lemma clear_unmarked_links (links : list Concept.LinkElem) :
  forallb (λ e, negb (Concept.le_highlighted e) && negb (Concept.le_dimmed e))
          links = true →
  Concept.clear_link <$> links = links.
Proof.
  induction links as [|e links IH]; [done|].
  rewrite fmap_cons. cbn [forallb]. intros [He Hrest]%andb_true_iff.
  rewrite IH by done. by destruct e as [source target [] []].
Qed.

Lemma clear_canvas_unmarked (content : Concept.Canvas) :
  Concept.unmarked content = true → Concept.clear_canvas content = content.
Proof.
  destruct content as [| |tree nodes links]; simpl; [done..|].
  intros [Hn Hl]%andb_true_iff.
  by rewrite clear_unmarked_nodes, clear_unmarked_links.
Qed.

Lemma unmarked_clear_canvas (content : Concept.Canvas) :
  Concept.unmarked (Concept.clear_canvas content) = true.
Proof.
  destruct content as [| |tree nodes links]; simpl; [done..|].
  apply andb_true_iff. split.
  - by induction nodes.
  - by induction links.
Qed.

Lemma clear_mark_canvas (path : list string) (content : Concept.Canvas) :
  Concept.clear_canvas (Concept.mark_canvas path content)
  = Concept.clear_canvas content.
Proof.
  destruct content as [| |tree nodes links]; simpl; [done..|].
  by rewrite <-!list_fmap_compose.
Qed.

Lemma clear_canvas_idemp (content : Concept.Canvas) :
  Concept.clear_canvas (Concept.clear_canvas content)
  = Concept.clear_canvas content.
Proof.
  apply clear_canvas_unmarked, unmarked_clear_canvas.
Qed.

Lemma unmarked_no_highlight (content : Concept.Canvas) :
  Concept.unmarked content = true → Concept.no_highlight content = true.
Proof.
  destruct content as [| |tree nodes links]; simpl; [done..|].
  intros [Hn Hl]%andb_true_iff. apply andb_true_iff. split.
  - induction nodes as [|[id article [] []] nodes IH]; simpl in *; try done.
    by apply IH.
  - induction links as [|[source target [] []] links IH]; simpl in *; try done.
    by apply IH.
Qed.

(** A freshly drawn tree carries no highlighted or dimmed class. *)
Lemma unmarked_draw (root : Concept.hnode) :
  Concept.unmarked (Concept.draw root) = true.
Proof.
  unfold Concept.draw. simpl. apply andb_true_iff. split.
  - by induction (Concept.descendants root).
  - induction (Concept.descendants root) as [|[[parent|] t] entries IH];
      simpl; done.
Qed.

(** A click while a path is highlighted clears every class, whichever
    circle is clicked. *)
Lemma click_when_highlighted_clears (s : Cluster.Page) (tree : Concept.hnode)
    (nodes : list Concept.NodeElem) (links : list Concept.LinkElem)
    (target : list nat) :
  Cluster.canvas s = Concept.Svg tree nodes links →
  Cluster.isPathHighlighted s = true →
  is_Some (Concept.path_to_root tree target) →
  Cluster.circle_clicked target s = Cluster.clearPathHighlight s
  ∧ Cluster.isPathHighlighted (Cluster.circle_clicked target s) = false
  ∧ Concept.unmarked (Cluster.canvas (Cluster.circle_clicked target s)) = true.
Proof.
  intros Hcanvas Hflag [path Hpath].
  assert (Cluster.circle_clicked target s = Cluster.clearPathHighlight s) as ->.
  { unfold Cluster.circle_clicked. by rewrite Hcanvas, Hpath, Hflag. }
  split; [done|]. split; [done|]. simpl. apply unmarked_clear_canvas.
Qed.

(** C8.  From the unhighlighted state, a click on the circle of a node
    [n] highlights, and a click on the circle of any node [m] then gives
    back exactly the state before the first click: no node and no link
    carries a highlighted or dimmed class and the flag is off.  A click
    in the highlighted state always clears, whichever node it hits. *)
Theorem C8_second_click_restores_the_unhighlighted_tree
    (s : Cluster.Page) (tree : Concept.hnode)
    (nodes : list Concept.NodeElem) (links : list Concept.LinkElem)
    (n m : list nat) :
  Cluster.canvas s = Concept.Svg tree nodes links →
  Cluster.isPathHighlighted s = false →
  Concept.unmarked (Cluster.canvas s) = true →
  is_Some (Concept.path_to_root tree n) →
  is_Some (Concept.path_to_root tree m) →
  let highlighted := Cluster.circle_clicked n s in
  let after := Cluster.circle_clicked m highlighted in
  Cluster.isPathHighlighted highlighted = true
  ∧ after = s
  ∧ Cluster.isPathHighlighted after = false
  ∧ Concept.unmarked (Cluster.canvas after) = true.
Proof.
  intros Hcanvas Hflag Hunmarked [pn Hpn] Hm highlighted after.
  assert (highlighted = Cluster.highlightPathToRoot pn s) as Hh.
  { unfold highlighted, Cluster.circle_clicked.
    by rewrite Hcanvas, Hpn, Hflag. }
  assert (Cluster.canvas highlighted
          = Concept.Svg tree (Concept.mark_node pn <$> (Concept.clear_node <$> nodes))
              (Concept.mark_link pn <$> (Concept.clear_link <$> links)))
    as Hcanvas'.
  { rewrite Hh. simpl. by rewrite Hcanvas. }
  assert (Cluster.isPathHighlighted highlighted = true) as Hflag'
    by (by rewrite Hh).
  destruct (click_when_highlighted_clears highlighted tree _ _ m
              Hcanvas' Hflag' Hm) as (Hafter & Hoff & Hclean).
  fold after in Hafter, Hoff, Hclean.
  split; [done|].
  assert (after = s) as Hsame.
  { rewrite Hafter, Hh. unfold Cluster.clearPathHighlight,
      Cluster.highlightPathToRoot, Cluster.set_canvas. simpl.
    rewrite clear_mark_canvas, clear_canvas_idemp,
      (clear_canvas_unmarked _ Hunmarked).
    destruct s. simpl in *. by subst. }
  split; [done|]. by split.
Qed.

Lemma C8_second_click_witness :
  ∃ s, Cluster.renderConceptTree (Some Examples.small_tree) "root"
         (Cluster.init Examples.ids) = Some s
       ∧ Cluster.circle_clicked [1] (Cluster.circle_clicked [0; 1] s) = s.
Proof.
  eexists. split; [vm_compute; reflexivity|].
  eapply C8_second_click_restores_the_unhighlighted_tree.
  - vm_compute. reflexivity.
  - reflexivity.
  - vm_compute. reflexivity.
  - vm_compute. by eexists.
  - vm_compute. by eexists.
Defined.

(** C10.  [renderConceptTree] does not touch [isPathHighlighted].  If a
    path was highlighted on the tree shown before, the flag is still on
    over the fresh tree, so the first click on one of its circles takes
    the clearing branch: the tree stays as drawn, no path is highlighted,
    and only then is the flag off. *)
Theorem C10_render_keeps_the_highlight_flag
    (s s' : Cluster.Page) (nodes : option (list Concept.ConceptNode))
    (rootId : string) :
  Cluster.renderConceptTree nodes rootId s = Some s' →
  Cluster.isPathHighlighted s' = Cluster.isPathHighlighted s
  ∧ Concept.unmarked (Cluster.canvas s') = true
  ∧ (Cluster.isPathHighlighted s = true →
     ∀ tree elems links target,
       Cluster.canvas s' = Concept.Svg tree elems links →
       is_Some (Concept.path_to_root tree target) →
       let clicked := Cluster.circle_clicked target s' in
       Cluster.canvas clicked = Cluster.canvas s'
       ∧ Concept.no_highlight (Cluster.canvas clicked) = true
       ∧ Cluster.isPathHighlighted clicked = false).
Proof.
  intros Hrender.
  assert (Cluster.isPathHighlighted s' = Cluster.isPathHighlighted s
          ∧ Concept.unmarked (Cluster.canvas s') = true) as [Hflag Hfresh].
  { unfold Cluster.renderConceptTree in Hrender.
    destruct nodes as [[|node nodes]|]; [by simplify_eq/=| |by simplify_eq/=].
    destruct (Concept.nodeMap _ !! rootId) as [root|]; [|by simplify_eq/=].
    destruct (Concept.hierarchy _ _ root) as [tree|]; simplify_eq/=.
    split; [done|]. apply unmarked_draw. }
  split; [done|]. split; [done|].
  intros Hon tree elems links target Hcanvas Htarget clicked.
  rewrite <-Hflag in Hon.
  destruct (click_when_highlighted_clears s' tree elems links target
              Hcanvas Hon Htarget) as (Hclick & Hoff & Hclean).
  fold clicked in Hclick, Hoff, Hclean.
  split; [|split; [by apply unmarked_no_highlight|done]].
  rewrite Hclick. simpl. by apply clear_canvas_unmarked.
Qed.

Lemma C10_render_keeps_flag_witness :
  ∃ s1 s3,
    Cluster.renderConceptTree (Some Examples.small_tree) "root"
      (Cluster.init Examples.ids) = Some s1
    ∧ Cluster.renderConceptTree (Some Examples.other_tree) "r"
        (Cluster.circle_clicked [0; 1] s1) = Some s3
    ∧ Cluster.isPathHighlighted s3 = true
    ∧ Cluster.canvas (Cluster.circle_clicked [0] s3) = Cluster.canvas s3
    ∧ Concept.no_highlight (Cluster.canvas (Cluster.circle_clicked [0] s3))
      = true.
Proof.
  eexists. eexists.
  split; [vm_compute; reflexivity|].
  split; [vm_compute; reflexivity|].
  split; [reflexivity|].
  match goal with
  | |- Cluster.canvas (Cluster.circle_clicked _ ?s3) = _ ∧ _ =>
      destruct (C10_render_keeps_the_highlight_flag
                  (Cluster.circle_clicked [0; 1]
                     (default (Cluster.init Examples.ids)
                        (Cluster.renderConceptTree (Some Examples.small_tree)
                           "root" (Cluster.init Examples.ids))))
                  s3 (Some Examples.other_tree) "r")
        as (_ & _ & Hclick)
  end.
  - vm_compute. reflexivity.
  - edestruct Hclick as (Hsame & Hnone & _).
    + vm_compute. reflexivity.
    + vm_compute. reflexivity.
    + instantiate (1 := [0]). vm_compute. by eexists.
    + split; [exact Hsame|exact Hnone].
Defined.

(** ** C6: when the concept-hierarchy build is rejected *)

Section BuildFacts.
Import Concept.
Implicit Types (st : Building) (node : ConceptNode).

Lemma allocate_well_addressed node children st :
  well_addressed st → well_addressed (allocate node children st).
Proof.
  intros Hwf id addr. unfold allocate. simpl.
  destruct (decide (cn_id node = id)) as [<-|Hne].
  - rewrite lookup_insert_eq. intros [= <-]. eexists.
    split; [by apply list_lookup_middle|done].
  - rewrite lookup_insert_ne by done. intros Hid.
    destruct (Hwf id addr Hid) as (b & Hb & Hbid).
    exists b. split; [|done]. by apply lookup_app_l_Some.
Qed.

Lemma allocate_nodeMap node children st id :
  nodeMap (allocate node children st) !! id = None
  ↔ nodeMap st !! id = None ∧ id ≠ cn_id node.
Proof.
  unfold allocate. simpl. destruct (decide (cn_id node = id)) as [<-|Hne].
  - rewrite lookup_insert_eq. split; [done|]. by intros [_ []].
  - rewrite lookup_insert_ne by done. split; [|tauto].
    intros Hnone. split; [done|]. by intros ->.
Qed.

Lemma initialize_facts nodes st :
  well_addressed st →
  well_addressed (foldl initialize st nodes)
  ∧ ∀ id, nodeMap (foldl initialize st nodes) !! id = None
          ↔ nodeMap st !! id = None ∧ id ∉ cn_id <$> nodes.
Proof.
  revert st. induction nodes as [|node nodes IH]; intros st Hwf.
  - split; [done|]. intros id. rewrite fmap_nil, elem_of_nil. tauto.
  - simpl. destruct (IH (initialize st node)) as [Hwf' Hdom].
    { by apply allocate_well_addressed. }
    split; [done|]. intros id. rewrite Hdom. unfold initialize.
    rewrite allocate_nodeMap, not_elem_of_cons. tauto.
Qed.

Lemma create_facts nodes st :
  well_addressed st →
  well_addressed (foldl create st nodes)
  ∧ ∀ id, nodeMap (foldl create st nodes) !! id = None
          ↔ nodeMap st !! id = None ∧ id ∉ cn_id <$> nodes.
Proof.
  revert st. induction nodes as [|node nodes IH]; intros st Hwf.
  - split; [done|]. intros id. rewrite fmap_nil, elem_of_nil. tauto.
  - simpl. destruct (IH (create st node)) as [Hwf' Hdom].
    { unfold create. destruct (nodeMap st !! cn_id node); [done|].
      by apply allocate_well_addressed. }
    split; [done|]. intros id. rewrite Hdom, not_elem_of_cons. unfold create.
    destruct (nodeMap st !! cn_id node) as [addr|] eqn:Hpresent.
    + split; [|tauto]. intros [Hnone Hnotin]. split; [done|].
      split; [|done]. intros ->. congruence.
    + rewrite allocate_nodeMap. tauto.
Qed.

Lemma link_facts nodes st :
  well_addressed st →
  well_addressed (foldl link st nodes)
  ∧ nodeMap (foldl link st nodes) = nodeMap st.
Proof.
  revert st. induction nodes as [|node nodes IH]; intros st Hwf; [done|].
  simpl.
  assert (well_addressed (link st node) ∧ nodeMap (link st node) = nodeMap st)
    as [Hwf' Hmap].
  { unfold link. destruct (cn_children node) as [[|child others]|]; [done| |done].
    destruct (nodeMap st !! cn_id node) as [addr|]; [|done].
    split; [|done]. intros id a Hid. simpl in *.
    destruct (Hwf id a Hid) as (b & Hb & Hbid).
    rewrite list_lookup_alter. case_decide as Ha.
    - subst a. rewrite Hb. simpl. by eexists.
    - by exists b. }
  destruct (IH _ Hwf') as [Hwf'' Hmap'].
  split; [done|]. by rewrite Hmap'.
Qed.

(** The ids that [nodeMap] knows after the build are those of the list,
    and each leads to an object carrying that id. *)
Lemma build_facts nodes :
  well_addressed (build nodes)
  ∧ ∀ id, nodeMap (build nodes) !! id = None ↔ id ∉ cn_id <$> nodes.
Proof.
  unfold build.
  destruct (initialize_facts nodes {| heap := []; nodeMap := ∅ |}) as [Hwf1 Hdom1].
  { intros id addr. simpl. by rewrite lookup_empty. }
  destruct (create_facts nodes _ Hwf1) as [Hwf2 Hdom2].
  destruct (link_facts nodes _ Hwf2) as [Hwf3 Hmap3].
  split; [done|]. intros id. rewrite Hmap3, Hdom2, Hdom1. simpl.
  rewrite lookup_empty. tauto.
Qed.

(** With distinct ids the first loop stores the [i]-th node at address
    [i]; the object of a node that declares no child has none. *)
Lemma initialize_indexed rest done st :
  NoDup (cn_id <$> (done ++ rest)) →
  b_data <$> heap st = done →
  (∀ i node, done !! i = Some node → nodeMap st !! cn_id node = Some i) →
  (∀ i b, heap st !! i = Some b → declared (b_data b) = [] → b_children b = []) →
  b_data <$> heap (foldl initialize st rest) = done ++ rest
  ∧ (∀ i node, (done ++ rest) !! i = Some node →
       nodeMap (foldl initialize st rest) !! cn_id node = Some i)
  ∧ (∀ i b, heap (foldl initialize st rest) !! i = Some b →
       declared (b_data b) = [] → b_children b = []).
Proof.
  revert done st. induction rest as [|node rest IH]; intros done st Hnd Hdata Hmap Hempty.
  - rewrite app_nil_r. by simpl.
  - simpl. rewrite (cons_middle node done rest), app_assoc in Hnd |- *.
    assert (length (heap st) = length done) as Hlen
      by (by rewrite <-Hdata, length_fmap).
    apply IH; [done|..].
    + unfold initialize, allocate. simpl. by rewrite fmap_app, Hdata.
    + intros i n Hi. unfold initialize, allocate. simpl.
      destruct (decide (i = length done)) as [->|Hne].
      * rewrite list_lookup_middle in Hi by done. simplify_eq.
        by rewrite lookup_insert_eq, Hlen.
      * assert (i < length done) as Hlt.
        { apply lookup_lt_Some in Hi. rewrite length_app in Hi. simpl in Hi. lia. }
        rewrite lookup_app_l in Hi by done.
        rewrite lookup_insert_ne; [by apply Hmap|].
        intros Heq. apply Hne.
        apply (NoDup_lookup _ _ _ (cn_id n) Hnd).
        -- rewrite list_lookup_fmap, <-app_assoc, lookup_app_l by done.
           by rewrite Hi.
        -- rewrite list_lookup_fmap, <-app_assoc. simpl.
           rewrite list_lookup_middle by done. simpl. by rewrite Heq.
    + intros i b Hi Hnone. unfold initialize, allocate in Hi. simpl in Hi.
      apply lookup_app_Some in Hi as [Hi|[_ Hi]]; [by eapply Hempty|].
      destruct (i - length (heap st)) as [|j]; [|done].
      simpl in Hi. simplify_eq. simpl in *. unfold declared in Hnone.
      destruct (cn_children node) as [ids|]; [|done]. simpl in Hnone.
      by subst ids.
Qed.

(** The loop commented "First pass" finds every node already there. *)
Lemma create_noop nodes st :
  (∀ node, node ∈ nodes → is_Some (nodeMap st !! cn_id node)) →
  foldl create st nodes = st.
Proof.
  induction nodes as [|node nodes IH]; intros Hall; [done|].
  simpl. assert (create st node = st) as ->.
  { unfold create. destruct (Hall node) as [addr ->]; [|done].
    apply list_elem_of_here. }
  apply IH. intros n Hn. apply Hall. by apply list_elem_of_further.
Qed.

(** The loop commented "Second pass" gives every object the declared
    children that resolve, in the order declared. *)
Lemma link_indexed rest done st :
  (∀ i node, (done ++ rest) !! i = Some node →
     nodeMap st !! cn_id node = Some i) →
  (∀ i node, (done ++ rest) !! i = Some node →
     ∃ b, heap st !! i = Some b ∧ b_data b = node
          ∧ (i < length done ∨ declared node = [] →
             b_children b = resolve (nodeMap st) (declared node))) →
  nodeMap (foldl link st rest) = nodeMap st
  ∧ ∀ i node, (done ++ rest) !! i = Some node →
      ∃ b, heap (foldl link st rest) !! i = Some b ∧ b_data b = node
           ∧ b_children b = resolve (nodeMap st) (declared node).
Proof.
  revert done st. induction rest as [|node rest IH]; intros done st Hmap Hinv.
  - split; [done|]. intros i n Hi. destruct (Hinv i n Hi) as (b & Hb & Hd & Hc).
    exists b. split; [done|]. split; [done|]. apply Hc. left.
    apply lookup_lt_Some in Hi. by rewrite app_nil_r in Hi.
  - simpl. rewrite (cons_middle node done rest), app_assoc in Hmap, Hinv |- *.
    assert (nodeMap (link st node) = nodeMap st) as Hsame.
    { unfold link. destruct (cn_children node) as [[|c cs]|]; [done| |done].
      by destruct (nodeMap st !! cn_id node). }
    assert (((done ++ [node]) ++ rest) !! length done = Some node) as Hnode.
    { rewrite <-app_assoc. by apply list_lookup_middle. }
    destruct (IH (done ++ [node]) (link st node)) as [Hmap' Hinv'].
    + intros i n Hi. rewrite Hsame. by apply Hmap.
    + intros i n Hi. rewrite Hsame.
      destruct (Hinv i n Hi) as (b & Hb & Hd & Hc).
      unfold link.
      destruct (cn_children node) as [[|c cs]|] eqn:Hch.
      * exists b. split; [done|]. split; [done|]. intros [Hlt|Hnone]; [|auto].
        rewrite length_app in Hlt. simpl in Hlt.
        destruct (decide (i = length done)) as [->|Hne]; [|apply Hc; left; lia].
        rewrite Hnode in Hi. simplify_eq. apply Hc. right.
        unfold declared. by rewrite Hch.
      * rewrite (Hmap _ _ Hnode). simpl.
        rewrite list_lookup_alter. case_decide as Hi'.
        -- subst i. rewrite Hnode in Hi. simplify_eq. rewrite Hb. simpl.
           eexists. split; [done|]. split; [done|]. intros _. simpl.
           unfold declared. by rewrite Hch.
        -- exists b. split; [done|]. split; [done|]. intros [Hlt|Hnone]; [|auto].
           rewrite length_app in Hlt. simpl in Hlt. apply Hc. left. lia.
      * exists b. split; [done|]. split; [done|]. intros [Hlt|Hnone]; [|auto].
        rewrite length_app in Hlt. simpl in Hlt.
        destruct (decide (i = length done)) as [->|Hne]; [|apply Hc; left; lia].
        rewrite Hnode in Hi. simplify_eq. apply Hc. right.
        unfold declared. by rewrite Hch.
    + split; [by rewrite Hmap'|]. intros i n Hi.
      destruct (Hinv' i n Hi) as (b & Hb & Hd & Hc).
      exists b. by rewrite <-Hsame.
Qed.

(** The result of the build on nodes with distinct ids: the [i]-th node is
    stored at address [i] under its id, with exactly those of its declared
    children that are ids of the list. *)
Lemma build_indexed nodes :
  NoDup (cn_id <$> nodes) →
  length (heap (build nodes)) = length nodes
  ∧ ∀ i node, nodes !! i = Some node →
      nodeMap (build nodes) !! cn_id node = Some i
      ∧ ∃ b, heap (build nodes) !! i = Some b ∧ b_data b = node
             ∧ b_children b = resolve (nodeMap (build nodes)) (declared node).
Proof.
  intros Hnd. unfold build.
  destruct (initialize_indexed nodes [] {| heap := []; nodeMap := ∅ |})
    as (Hdata & Hmap & Hempty); [done|done|done|done|].
  simpl in Hdata, Hmap.
  set (st1 := foldl initialize {| heap := []; nodeMap := ∅ |} nodes) in *.
  rewrite (create_noop nodes st1).
  2:{ intros node [i Hi]%list_elem_of_lookup. by rewrite (Hmap i node Hi). }
  destruct (link_indexed nodes [] st1) as [Hsame Hbuilt]; [done|..].
  - intros i node Hi. simpl in Hi.
    assert (is_Some (heap st1 !! i)) as [b Hb].
    { apply lookup_lt_is_Some. rewrite <-(length_fmap b_data), Hdata.
      by eapply lookup_lt_Some. }
    exists b. split; [done|].
    assert (b_data b = node) as Hd.
    { apply (f_equal (λ l, l !! i)) in Hdata.
      rewrite list_lookup_fmap, Hb, Hi in Hdata. by simplify_eq/=. }
    split; [done|]. intros [Hlt|Hnone]; [simpl in Hlt; lia|].
    rewrite Hnone. simpl. apply (Hempty i b Hb). by rewrite Hd.
  - simpl in Hbuilt. split.
    + assert (∀ rest st, length (heap (foldl link st rest)) = length (heap st))
        as Hlen.
      { induction rest as [|n rest IH]; intros st; [done|]. simpl. rewrite IH.
        unfold link. destruct (cn_children n) as [[|c cs]|]; [done| |done].
        destruct (nodeMap st !! cn_id n); [|done]. simpl. apply length_alter. }
      by rewrite Hlen, <-(length_fmap b_data), Hdata.
    + intros i node Hi. rewrite Hsame. split; [by apply Hmap|].
      by apply Hbuilt.
Qed.

(** On nodes with distinct ids whose resolved children always rank below
    their parent, [d3.hierarchy] returns from every node, given fuel above
    its rank: the tree has the node at its root and, as children, the
    trees of the declared children that are ids of the list. *)
Lemma hierarchy_returns nodes (rank : string → nat) :
  NoDup (cn_id <$> nodes) →
  (∀ node child, node ∈ nodes → child ∈ declared node →
     child ∈ cn_id <$> nodes → rank child < rank (cn_id node)) →
  ∀ fuel i node, nodes !! i = Some node → rank (cn_id node) < fuel →
    ∃ tree, hierarchy fuel (heap (build nodes)) i = Some tree
            ∧ data_of tree = node
            ∧ cn_id ∘ data_of <$> kids_of tree
              = filter (λ child, child ∈ cn_id <$> nodes) (declared node).
Proof.
  intros Hnd Hrank.
  destruct (build_indexed nodes Hnd) as [Hlen Hbuilt].
  destruct (build_facts nodes) as [Hwf Hdom].
  induction fuel as [|fuel IH]; intros i node Hi Hfuel; [lia|].
  destruct (Hbuilt i node Hi) as (Hid & b & Hb & Hd & Hc).
  assert (∀ ids, (∀ child, child ∈ ids → child ∈ declared node) →
            ∃ kids, mapM (hierarchy fuel (heap (build nodes)))
                      (resolve (nodeMap (build nodes)) ids) = Some kids
                    ∧ cn_id ∘ data_of <$> kids
                      = filter (λ child, child ∈ cn_id <$> nodes) ids)
    as Hkids.
  { induction ids as [|child ids IHids]; intros Hsub.
    - exists []. by split.
    - destruct IHids as (kids & Hmap & Hids).
      { intros c Hc'. apply Hsub. by apply list_elem_of_further. }
      change (resolve (nodeMap (build nodes)) (child :: ids))
        with (match nodeMap (build nodes) !! child with
              | Some addr => addr :: resolve (nodeMap (build nodes)) ids
              | None => resolve (nodeMap (build nodes)) ids
              end).
      rewrite filter_cons.
      destruct (nodeMap (build nodes) !! child) as [addr|] eqn:Hchild.
      + destruct (Hwf child addr Hchild) as (bc & Hbc & Hcid).
        assert (child ∈ cn_id <$> nodes) as Hin.
        { destruct (decide (child ∈ cn_id <$> nodes)) as [|Hnotin]; [done|].
          apply Hdom in Hnotin. congruence. }
        assert (∃ nc, nodes !! addr = Some nc) as [nc Hnc].
        { apply lookup_lt_is_Some. rewrite <-Hlen. by eapply lookup_lt_Some. }
        destruct (Hbuilt addr nc Hnc) as (_ & bc' & Hbc' & Hdc & _).
        assert (cn_id nc = child) as Hncid by congruence.
        destruct (IH addr nc Hnc) as (t & Ht & Hdt & _).
        { rewrite Hncid.
          assert (rank child < rank (cn_id node)); [|lia].
          apply Hrank; [by eapply list_elem_of_lookup_2| |done].
          apply Hsub. apply list_elem_of_here. }
        exists (t :: kids). split.
        * csimpl. rewrite Ht. csimpl. apply bind_Some. by exists kids.
        * rewrite decide_True by done. rewrite fmap_cons. simpl.
          by rewrite Hdt, Hncid, <-Hids.
      + rewrite decide_False; [by exists kids|]. by apply Hdom. }
  destruct (Hkids (declared node)) as (kids & Hmap & Hids); [done|].
  exists (HNode node kids). split; [|by split].
  unfold hierarchy; fold hierarchy. rewrite Hb. simpl.
  rewrite Hc, Hmap. simpl. by rewrite Hd.
Qed.

Lemma hierarchy_root fuel objects addr tree :
  hierarchy fuel objects addr = Some tree →
  ∃ b, objects !! addr = Some b ∧ data_of tree = b_data b.
Proof.
  destruct fuel as [|fuel]; [done|]. unfold hierarchy; fold hierarchy.
  destruct (objects !! addr) as [b|]; [|done]. simpl.
  destruct (mapM _ _) as [kids|]; [|done]. simpl.
  intros [= <-]. by exists b.
Qed.

End BuildFacts.

(** C6, as amended.  On node lists and root ids that name no member of
    [Object.prototype]: the build is rejected, a message taking the place
    of the tree, exactly when the node list is missing or the root id is
    the id of none of its nodes (in particular when the list is empty).
    A declared child id that resolves to no node never causes a
    rejection: whenever the root id is found and the render returns, the
    canvas holds the drawing of a tree whose root carries the root id.
    And it does return on every list of nodes with distinct ids in which
    a child that resolves ranks below its parent: the tree is drawn from
    the root node, whose children are its declared children that are ids
    of the list, the others being dropped. *)
Theorem C6_build_is_rejected_exactly_without_a_root
    (s : Cluster.Page) (nodes : option (list Concept.ConceptNode))
    (rootId : string) :
  (∀ l, nodes = Some l → Concept.plain l rootId) →
  ((∃ s' text, Cluster.renderConceptTree nodes rootId s = Some s'
               ∧ Cluster.canvas s' = Concept.Message text)
   ↔ (nodes = None
      ∨ ∃ l, nodes = Some l ∧ rootId ∉ Concept.cn_id <$> l))
  ∧ (∀ s', Cluster.renderConceptTree nodes rootId s = Some s' →
       (∃ text, Cluster.canvas s' = Concept.Message text)
       ∨ (∃ tree,
            Cluster.canvas s' = Concept.draw tree
            ∧ Concept.cn_id (Concept.data_of tree) = rootId))
  ∧ (∀ l (rank : string → nat) root,
       nodes = Some l →
       NoDup (Concept.cn_id <$> l) →
       (∀ node child, node ∈ l → child ∈ Concept.declared node →
          child ∈ Concept.cn_id <$> l →
          rank child < rank (Concept.cn_id node)) →
       root ∈ l → Concept.cn_id root = rootId → rank rootId ≤ length l →
       ∃ s' tree,
         Cluster.renderConceptTree nodes rootId s = Some s'
         ∧ Cluster.canvas s' = Concept.draw tree
         ∧ Concept.data_of tree = root
         ∧ Concept.cn_id ∘ Concept.data_of <$> Concept.kids_of tree
           = filter (λ child, child ∈ Concept.cn_id <$> l)
                    (Concept.declared root)).
Proof.
  intros _.
  assert (∀ s', Cluster.renderConceptTree nodes rootId s = Some s' →
            ((∃ text, Cluster.canvas s' = Concept.Message text)
             ∧ (nodes = None
                ∨ ∃ l, nodes = Some l ∧ rootId ∉ Concept.cn_id <$> l))
            ∨ ((∃ tree,
                  Cluster.canvas s' = Concept.draw tree
                  ∧ Concept.cn_id (Concept.data_of tree) = rootId)
               ∧ ∃ l, nodes = Some l ∧ rootId ∈ Concept.cn_id <$> l))
    as Hcases.
  { intros s' Hrender. unfold Cluster.renderConceptTree in Hrender.
    destruct nodes as [[|node rest]|].
    - left. simplify_eq/=. split; [by eexists|].
      right. exists []. split; [done|]. apply not_elem_of_nil.
    - destruct (build_facts (node :: rest)) as [Hwf Hdom].
      destruct (Concept.nodeMap _ !! rootId) as [root|] eqn:Hroot.
      + right.
        destruct (Concept.hierarchy _ _ root) as [tree|] eqn:Htree;
          simplify_eq/=.
        split.
        * eexists. split; [reflexivity|].
          destruct (hierarchy_root _ _ _ _ Htree) as (b & Hb & ->).
          destruct (Hwf rootId root Hroot) as (b' & Hb' & Hid). congruence.
        * exists (node :: rest). split; [done|].
          destruct (decide (rootId ∈ Concept.cn_id <$> node :: rest))
            as [Hin|Hnotin]; [done|].
          apply Hdom in Hnotin. congruence.
      + left. simplify_eq/=. split; [by eexists|].
        right. exists (node :: rest). split; [done|]. by apply Hdom.
    - left. simplify_eq/=. split; [by eexists|]. by left. }
  split; [split|split].
  - intros (s' & text & Hrender & Hmsg).
    destruct (Hcases s' Hrender) as [[_ Hwhy]|[(tree & Hsvg & _) _]];
      [done|]. unfold Concept.draw in Hsvg. congruence.
  - intros Hwhy.
    assert (∃ s', Cluster.renderConceptTree nodes rootId s = Some s')
      as [s' Hrender].
    { unfold Cluster.renderConceptTree.
      destruct Hwhy as [->|(l & -> & Hnotin)]; [by eexists|].
      destruct l as [|node rest]; [by eexists|].
      destruct (build_facts (node :: rest)) as [_ Hdom].
      apply Hdom in Hnotin. rewrite Hnotin. by eexists. }
    exists s'.
    destruct (Hcases s' Hrender) as [[[text Hmsg] _]|[_ (l & Hl & Hin)]].
    + by exists text.
    + exfalso. destruct Hwhy as [->|(l' & Hl' & Hnotin)]; [done|].
      congruence.
  - intros s' Hrender.
    destruct (Hcases s' Hrender) as [[Hmsg _]|[Hsvg _]]; [by left|by right].
  - intros l rank root -> Hnd Hrank [i Hi]%list_elem_of_lookup Hid Hbound.
    destruct (build_indexed l Hnd) as [Hlen Hbuilt].
    destruct (Hbuilt i root Hi) as (Hroot & _).
    destruct (hierarchy_returns l rank Hnd Hrank
                (S (length (Concept.heap (Concept.build l)))) i root Hi)
      as (tree & Htree & Hdata & Hkids).
    { rewrite Hid, Hlen. lia. }
    unfold Cluster.renderConceptTree.
    destruct l as [|node rest]; [done|].
    rewrite <-Hid, Hroot, Htree. simpl.
    do 2 eexists. split; [reflexivity|]. split; [reflexivity|]. by split.
Qed.

Lemma C6_build_witness :
  Concept.plain Examples.dangling_tree "root"
  ∧ ∃ s' tree,
      Cluster.renderConceptTree (Some Examples.dangling_tree) "root"
        (Cluster.init Examples.ids) = Some s'
      ∧ Cluster.canvas s' = Concept.draw tree
      ∧ Concept.data_of tree = Examples.concept "root" 1 ["a1"; "ghost"]
      ∧ Concept.cn_id ∘ Concept.data_of <$> Concept.kids_of tree = ["a1"].
Proof.
  assert (Concept.plain Examples.dangling_tree "root") as Hplain
    by (apply (bool_decide_unpack _); vm_compute; exact I).
  split; [exact Hplain|].
  destruct (C6_build_is_rejected_exactly_without_a_root
              (Cluster.init Examples.ids) (Some Examples.dangling_tree) "root")
    as (_ & _ & Hdrawn).
  { by intros l [= <-]. }
  destruct (Hdrawn Examples.dangling_tree
              (λ id, if bool_decide (id = "root") then 1 else 0)
              (Examples.concept "root" 1 ["a1"; "ghost"]))
    as (s' & tree & Hrender & Hcanvas & Hroot & Hkids).
  - reflexivity.
  - apply (bool_decide_unpack _). vm_compute. exact I.
  - intros node child Hnode Hchild Hin.
    apply elem_of_cons in Hnode as [->|Hnode].
    + apply elem_of_cons in Hchild as [->|Hchild]; [vm_compute; lia|].
      apply elem_of_cons in Hchild as [->|Hchild]; [|by apply elem_of_nil in Hchild].
      exfalso. revert Hin. apply (bool_decide_unpack _). vm_compute. exact I.
    + apply elem_of_cons in Hnode as [->|Hnode]; [|by apply elem_of_nil in Hnode].
      by apply elem_of_nil in Hchild.
  - apply list_elem_of_here.
  - reflexivity.
  - vm_compute. lia.
  - exists s', tree.
    split; [exact Hrender|]. split; [exact Hcanvas|]. split; [exact Hroot|].
    etrans; [exact Hkids|]. vm_compute. reflexivity.
Defined.

(** C6 as stated fails on a dangling child: the root declares the child
    ["ghost"], which is the id of no node, and the build is not rejected;
    the tree is drawn without that child. *)
Lemma C6_dangling_child_counterexample :
  Concept.plain Examples.dangling_tree "root"
  ∧ Concept.cn_children (Examples.concept "root" 1 ["a1"; "ghost"])
    = Some ["a1"; "ghost"]
  ∧ ("ghost" ∉ Concept.cn_id <$> Examples.dangling_tree)
  ∧ (∃ s' tree elems links,
       Cluster.renderConceptTree (Some Examples.dangling_tree) "root"
         (Cluster.init Examples.ids) = Some s'
       ∧ Cluster.canvas s' = Concept.Svg tree elems links
       ∧ Concept.ne_id <$> elems = ["root"; "a1"]
       ∧ Concept.le_target <$> links = ["a1"]).
Proof.
  split; [apply (bool_decide_unpack _); vm_compute; exact I|].
  split; [reflexivity|]. split.
  - apply (bool_decide_unpack _). vm_compute. exact I.
  - do 4 eexists. split; [vm_compute; reflexivity|].
    split; [reflexivity|]. split; vm_compute; reflexivity.
Qed.

(** ** The threshold and the tiers of the edges *)


(** The edges that a render hands to the renderer are the edges of the
    graph that pass the threshold, in their order. *)
Lemma render_edges (random : nat → float) (data : GraphData)
    (s : Graph.Manager) :
  Graph.r_edges <$> Graph.currentGraph (Graph.renderGraph random data s)
  = Some (Graph.sigma_edges (Graph.currentThreshold s) (gd_edges data)).
Proof.
  unfold Graph.renderGraph.
  destruct (Graph.sigma_nodes _ _ _ _ _ _) as [nodes calls].
  by destruct (Graph.calculatedPositions s).
Qed.

Lemma omap_sublist {A B} (f g : A → option B) (l : list A) :
  (∀ x y, x ∈ l → f x = Some y → g x = Some y) →
  sublist (omap f l) (omap g l).
Proof.
  induction l as [|x l IH]; intros Hfg; [constructor|].
  assert (sublist (omap f l) (omap g l)) as Hrest.
  { apply IH. intros y z Hy. apply Hfg. by apply list_elem_of_further. }
  simpl. destruct (f x) as [y|] eqn:Hf.
  - rewrite (Hfg x y (list_elem_of_here _ _) Hf). by constructor.
  - destruct (g x); [by constructor|done].
Qed.

(** Raising the threshold only removes edges.  Of two renders of a graph
    at thresholds [t1 <= t2], the edges drawn at [t2] are among those
    drawn at [t1], in the same order and drawn the same: an edge keeps
    its colour, its width and the similarity shown for it for as long as
    it is drawn. *)
Theorem raising_the_threshold_only_removes_edges
    (random : nat → float) (s : Graph.Manager) (data : GraphData)
    (t1 t2 : float) :
  Graph.accepted data →
  PrimFloat.leb t1 t2 = true →
  let drawn t :=
    Graph.r_edges
      <$> Graph.currentGraph
            (Graph.renderGraph random data (Graph.set_threshold t s)) in
  ∃ edges1 edges2,
    drawn t1 = Some edges1 ∧ drawn t2 = Some edges2
    ∧ sublist edges2 edges1
    ∧ (∀ edge, edge ∈ gd_edges data →
         is_Some (Graph.render_edge t2 edge) →
         Graph.render_edge t1 edge = Graph.render_edge t2 edge).
Proof.
  intros _ Hle drawn.
  assert (∀ edge, is_Some (Graph.render_edge t2 edge) →
            Graph.render_edge t1 edge = Graph.render_edge t2 edge) as Hkeep.
  { intros edge. unfold Graph.render_edge, JS.ge.
    destruct (PrimFloat.leb t2 _) eqn:H2; [|by intros []].
    by rewrite (leb_trans _ _ _ Hle H2). }
  exists (Graph.sigma_edges t1 (gd_edges data)),
         (Graph.sigma_edges t2 (gd_edges data)).
  split; [apply render_edges|]. split; [apply render_edges|].
  split; [|by intros edge _; apply Hkeep].
  apply omap_sublist. intros edge shown _ Hshown.
  rewrite Hkeep; [done|]. rewrite Hshown. by eexists.
Qed.

Lemma raising_the_threshold_witness :
  let drawn t :=
    Graph.r_edges
      <$> Graph.currentGraph
            (Graph.renderGraph Examples.random Examples.four_sizes
               (Graph.set_threshold t (Graph.init Examples.ids))) in
  ∃ edges1 edges2,
    drawn 0.3%float = Some edges1 ∧ drawn 0.5%float = Some edges2
    ∧ sublist edges2 edges1
    ∧ se_key <$> edges1 = ["0-1"; "1-2"; "2-3"]
    ∧ se_key <$> edges2 = ["1-2"; "2-3"].
Proof.
  intros drawn.
  assert (Graph.accepted Examples.four_sizes) as Haccepted
    by (apply (bool_decide_unpack _); vm_compute; exact I).
  destruct (raising_the_threshold_only_removes_edges
              Examples.random (Graph.init Examples.ids) Examples.four_sizes
              0.3 0.5 Haccepted eq_refl)
    as (edges1 & edges2 & H1 & H2 & Hsub & _).
  exists edges1, edges2.
  split; [exact H1|]. split; [exact H2|]. split; [exact Hsub|].
  rewrite render_edges in H1, H2. injection H1 as <-. injection H2 as <-.
  split; vm_compute; reflexivity.
Defined.



(** ** What the layout and the first render leave behind *)

Section LayoutKeeps.
Import Graph.




End LayoutKeeps.

Section FirstRender.
Import Graph.
Variable random : nat → float.

Lemma lookup_store_position_other graph cache nodes id :
  id ∉ sn_originalId <$> nodes →
  foldl (store_position graph) cache nodes !! id = cache !! id.
Proof.
  revert cache. induction nodes as [|n nodes IH]; intros cache Hid; [done|].
  rewrite fmap_cons, not_elem_of_cons in Hid. destruct Hid as [Hn Hrest].
  simpl. rewrite IH by done. unfold store_position.
  destruct (graph !! sn_key n); [|done]. by rewrite lookup_insert_ne.
Qed.

(** Outside the nodes of the graph, the first render draws nothing and
    caches nothing. *)
Lemma render_first_other data s id :
  calculatedPositions s = None →
  id ∉ gn_id <$> gd_nodes data →
  let s1 := renderGraph random data s in
  drawn_at s1 id = None
  ∧ ∃ cache, calculatedPositions s1 = Some cache ∧ cache !! id = None.
Proof.
  intros Hnone Hid. unfold renderGraph.
  set (lo := JS.Math_min _). set (hi := JS.Math_max _).
  pose proof (sigma_nodes_spec random (calculatedPositions s) lo hi
                (random_calls s) (gd_nodes data)) as Hspec.
  pose proof (sigma_nodes_keys random (calculatedPositions s) lo hi
                (random_calls s) (gd_nodes data)) as Hkeys.
  destruct (sigma_nodes random (calculatedPositions s) lo hi
              (random_calls s) (gd_nodes data)) as [sns calls'].
  simpl in Hspec, Hkeys. rewrite Hnone. unfold Layout.applyForceLayout.
  set (edges := sigma_edges _ _).
  pose proof (simulate_idents sns edges) as Hidents.
  set (moved := Layout.simulate sns edges) in *.
  cbn zeta.
  assert (sn_originalId <$> sns = gn_id <$> gd_nodes data) as Horig.
  { clear -Hspec. induction Hspec as [|node sn rest sns' (_ & Ho & _) _ IH];
      [done|]. by rewrite !fmap_cons, Ho, IH. }
  assert (sn_key <$> moved = sn_key <$> sns) as Hmk.
  { apply (f_equal (fmap fst)) in Hidents.
    by rewrite <-!list_fmap_compose in Hidents. }
  assert (sn_originalId <$> moved = sn_originalId <$> sns) as Hmo.
  { apply (f_equal (fmap snd)) in Hidents.
    by rewrite <-!list_fmap_compose in Hidents. }
  split.
  - erewrite drawn_at_eq; [|reflexivity]. cbn [r_graph].
    rewrite lookup_set_position_other by (by rewrite Hmk, Hkeys).
    by rewrite lookup_addNode_other by (by rewrite Hkeys).
  - eexists. split; [reflexivity|].
    by rewrite lookup_store_position_other by (by rewrite Hmo, Horig).
Qed.

(** The first render after a fetch caches the position of every node of
    the graph and of nothing else, and what it caches is what it draws:
    the cache and the picture agree on every id. *)
Theorem first_render_caches_what_it_draws (data : GraphData)
    (s : Manager) :
  accepted data →
  calculatedPositions s = None →
  let s1 := renderGraph random data s in
  ∃ cache,
    calculatedPositions s1 = Some cache
    ∧ (∀ id, is_Some (cache !! id) ↔ id ∈ gn_id <$> gd_nodes data)
    ∧ (∀ id, drawn_at s1 id = cache !! id).
Proof.
  intros (Hnd & _) Hnone s1.
  destruct (render_first random data s Hnone Hnd)
    as (_ & _ & cache & Hcache & Hnodes).
  fold s1 in Hcache, Hnodes.
  exists cache. split; [done|].
  assert (∀ id, id ∉ gn_id <$> gd_nodes data →
            drawn_at s1 id = None ∧ cache !! id = None) as Hother.
  { intros id Hid.
    destruct (render_first_other data s id Hnone Hid)
      as (Hdrawn & cache' & Hcache' & Hmiss).
    fold s1 in Hdrawn, Hcache'. split; [done|]. congruence. }
  split; intros id.
  - destruct (decide (id ∈ gn_id <$> gd_nodes data)) as [Hin|Hout].
    + split; [done|]. intros _.
      apply list_elem_of_fmap in Hin as (node & -> & Hnode).
      destruct (Hnodes node Hnode) as (p & Hp & _). by exists p.
    + destruct (Hother id Hout) as [_ Hmiss]. rewrite Hmiss.
      split; [by intros []|done].
  - destruct (decide (id ∈ gn_id <$> gd_nodes data)) as [Hin|Hout].
    + apply list_elem_of_fmap in Hin as (node & -> & Hnode).
      destruct (Hnodes node Hnode) as (p & Hp & Hd). by rewrite Hp, Hd.
    + destruct (Hother id Hout) as [Hd Hmiss]. by rewrite Hd, Hmiss.
Qed.

End FirstRender.

Lemma first_render_caches_witness :
  let s1 := Graph.renderGraph Examples.random Examples.graph_a
              (Graph.init Examples.ids) in
  ∃ cache,
    Graph.calculatedPositions s1 = Some cache
    ∧ is_Some (cache !! "2") ∧ cache !! "3" = None
    ∧ Graph.drawn_at s1 "2" = cache !! "2".
Proof.
  intros s1.
  assert (Graph.accepted Examples.graph_a) as Haccepted
    by (apply (bool_decide_unpack _); vm_compute; exact I).
  destruct (first_render_caches_what_it_draws Examples.random
              Examples.graph_a (Graph.init Examples.ids) Haccepted eq_refl)
    as (cache & Hcache & Hdom & Hdrawn).
  exists cache. split; [exact Hcache|]. split; [|split].
  - apply Hdom. apply (bool_decide_unpack _). vm_compute. exact I.
  - destruct (cache !! "3") eqn:Hthree; [|reflexivity].
    exfalso. assert ("3" ∈ gn_id <$> gd_nodes Examples.graph_a) as Hin
      by (apply Hdom; by eexists).
    revert Hin. apply (bool_decide_unpack _). vm_compute. exact I.
  - apply Hdrawn.
Defined.

(** ** Sequences of clicks on the concept tree *)





(** ** The details of a cluster of the plot *)

(** A summary request that fails leaves nothing in the cache.  The
    details section shows the error with no story, the cache is as it
    was before the click, and the next click on the same cluster misses
    the cache like the first and calls the Summary Service again, with
    the same key. *)
Theorem failed_summary_is_requested_again
    (m m1 : Viz.Manager) (searchId : string) (clusterId : Z)
    (data : Viz.VizData) (rq : Viz.Request) :
  Viz.handleClusterClickByClusterId clusterId data searchId m = (m1, Some rq) →
  let failed := Viz.summary_rejected rq m1 in
  let again := Viz.handleClusterClickByClusterId clusterId data searchId
                 failed in
  Viz.details_title failed = "Error"
  ∧ Viz.details_stories failed = []
  ∧ Viz.summaryCache failed = Viz.summaryCache m
  ∧ again.2 = Some rq
  ∧ Viz.summary_calls again.1
    = Viz.summary_calls m
      ++ [(searchId, clusterId, Viz.cluster_story_ids clusterId data);
          (searchId, clusterId, Viz.cluster_story_ids clusterId data)].
Proof.
  intros Hfirst failed again.
  unfold Viz.handleClusterClickByClusterId in Hfirst.
  destruct (Viz.summaryCache m !! _) as [cached|] eqn:Hmiss; [done|].
  injection Hfirst as <- <-.
  split; [done|]. split; [done|]. split; [done|].
  unfold again, Viz.handleClusterClickByClusterId. simpl. rewrite Hmiss.
  simpl. split; [done|]. by rewrite <-(assoc_L (++)).
Qed.

Lemma failed_summary_witness :
  let first := Viz.handleClusterClickByClusterId 1 Examples.plot_data
                 "search-a" Viz.init in
  let failed := Viz.summary_rejected
                  {| Viz.rq_cacheKey := "search-a:1:305,42,9";
                     Viz.rq_stories := Viz.cluster_stories 1 Examples.plot_data |}
                  first.1 in
  let again := Viz.handleClusterClickByClusterId 1 Examples.plot_data
                 "search-a" failed in
  Viz.summaryCache failed = ∅
  ∧ Viz.summary_calls again.1
    = [("search-a", 1%Z, ["305"; "42"; "9"]);
       ("search-a", 1%Z, ["305"; "42"; "9"])].
Proof.
  intros first failed again.
  destruct (failed_summary_is_requested_again
              Viz.init first.1 "search-a" 1 Examples.plot_data
              {| Viz.rq_cacheKey := "search-a:1:305,42,9";
                 Viz.rq_stories := Viz.cluster_stories 1 Examples.plot_data |})
    as (_ & _ & Hcache & _ & Hcalls).
  - vm_compute. reflexivity.
  - split; [exact Hcache|exact Hcalls].
Defined.

(** The stories listed for a cluster are the stories whose ids are sent
    to the Summary Service, in the same order: both loops of the click
    handler select the same indices.  There are as many of them as the
    label occurs, and none when it does not occur. *)
Theorem listed_stories_are_the_summarised_ones
    (clusterId : Z) (data : Viz.VizData) :
  length (Viz.tweet_ids data) = length (Viz.cluster_labels data) →
  length (Viz.tweet_texts data) = length (Viz.cluster_labels data) →
  Viz.st_id <$> Viz.cluster_stories clusterId data
  = Viz.cluster_story_ids clusterId data
  ∧ length (Viz.cluster_story_ids clusterId data)
    = length (filter (λ label, label = clusterId) (Viz.cluster_labels data))
  ∧ (clusterId ∉ Viz.cluster_labels data →
     Viz.cluster_story_ids clusterId data = []
     ∧ Viz.cluster_stories clusterId data = []).
Proof.
  intros Hids Htexts.
  assert (Viz.st_id <$> Viz.cluster_stories clusterId data
          = Viz.cluster_story_ids clusterId data) as Hsame.
  { unfold Viz.cluster_stories, Viz.cluster_story_ids.
    assert (length (Viz.tweet_texts data) = length (Viz.tweet_ids data))
      as Hlen by congruence.
    clear Hids Htexts. revert Hlen.
    generalize (Viz.tweet_ids data) (Viz.tweet_texts data).
    induction (Viz.cluster_labels data) as [|l labels IH];
      intros [|i ids] [|t texts] Hlen; try done.
    simpl in Hlen. injection Hlen as Hlen. simpl. rewrite !filter_cons. simpl.
    case_decide; [|by apply IH]. rewrite !fmap_cons. simpl.
    by rewrite IH. }
  assert (∀ (labels : list Z) (ids : list string),
            length ids = length labels →
            length (filter (λ entry : Z * string, entry.1 = clusterId)
                           (zip labels ids))
            = length (filter (λ label, label = clusterId) labels)) as Hcount.
  { induction labels as [|l labels IH]; intros [|i ids] Hlen; try done.
    simpl in Hlen. injection Hlen as Hlen. simpl. rewrite !filter_cons. simpl.
    case_decide; simpl; by rewrite IH. }
  split; [done|]. split.
  - unfold Viz.cluster_story_ids. rewrite length_fmap. by apply Hcount.
  - intros Hnot.
    assert (filter (λ label, label = clusterId) (Viz.cluster_labels data) = [])
      as Hnone.
    { clear Hids Htexts Hsame.
      induction (Viz.cluster_labels data) as [|l labels IH]; [done|].
      apply not_elem_of_cons in Hnot as [Hl Hrest].
      rewrite filter_cons. case_decide; [congruence|]. by apply IH. }
    assert (Viz.cluster_story_ids clusterId data = []) as Hids0.
    { apply length_zero_iff_nil. unfold Viz.cluster_story_ids.
      by rewrite length_fmap, Hcount, Hnone. }
    split; [done|]. apply (fmap_nil_inv Viz.st_id). by rewrite Hsame.
Qed.

Lemma listed_stories_witness :
  Viz.cluster_stories 1 Examples.plot_data_reordered
  = [{| Viz.st_text := "b"; Viz.st_id := "9" |};
     {| Viz.st_text := "a"; Viz.st_id := "42" |};
     {| Viz.st_text := "c"; Viz.st_id := "305" |}]
  ∧ Viz.st_id <$> Viz.cluster_stories 1 Examples.plot_data_reordered
    = Viz.cluster_story_ids 1 Examples.plot_data_reordered.
Proof.
  split; [vm_compute; reflexivity|].
  apply (listed_stories_are_the_summarised_ones 1
           Examples.plot_data_reordered); reflexivity.
Defined.

(** ** Shortened text *)

Lemma append_cons (a : Ascii.ascii) (s1 s2 : string) :
  String a s1 +:+ s2 = String a (s1 +:+ s2).
Proof. reflexivity. Qed.

Lemma length_append (s1 s2 : string) :
  String.length (s1 +:+ s2) = String.length s1 + String.length s2.
Proof.
  induction s1 as [|a s1 IH]; [done|]. rewrite append_cons. cbn.
  by rewrite IH.
Qed.

Lemma length_substring_0 (n : nat) (s : string) :
  String.length (String.substring 0 n s) = n `min` String.length s.
Proof.
  revert s. induction n as [|n IH]; intros [|a s]; cbn; try done.
  by rewrite IH.
Qed.

Lemma substring_0_append (n : nat) (s1 s2 : string) :
  n ≤ String.length s1 →
  String.substring 0 n (s1 +:+ s2) = String.substring 0 n s1.
Proof.
  revert s1. induction n as [|n IH]; intros [|a s1] Hn.
  - by destruct s2.
  - done.
  - cbn in Hn. lia.
  - rewrite append_cons. cbn in *. rewrite IH; [done|lia].
Qed.

Lemma substring_0_all (n : nat) (s : string) :
  String.length s ≤ n → String.substring 0 n s = s.
Proof.
  revert s. induction n as [|n IH]; intros [|a s] Hn; cbn in *; try done.
  - lia.
  - rewrite IH; [done|lia].
Qed.

(** [truncateText] returns a short text as it is and cuts a longer one to
    its first [maxLength] characters followed by three dots.  The result
    can therefore be three characters longer than [maxLength], never
    more, and truncating it again changes nothing. *)
Theorem truncateText_cuts_once (text : string) (maxLength : nat) :
  (String.length text ≤ maxLength → Text.truncateText text maxLength = text)
  ∧ (maxLength < String.length text →
     Text.truncateText text maxLength
     = String.substring 0 maxLength text +:+ "..."
     ∧ String.length (Text.truncateText text maxLength) = maxLength + 3)
  ∧ String.length (Text.truncateText text maxLength) ≤ maxLength + 3
  ∧ Text.truncateText (Text.truncateText text maxLength) maxLength
    = Text.truncateText text maxLength.
Proof.
  unfold Text.truncateText.
  destruct (Nat.leb_spec (String.length text) maxLength) as [Hshort|Hlong].
  - split; [done|]. split; [lia|]. split; [lia|].
    by rewrite (proj2 (Nat.leb_le _ _) Hshort).
  - assert (String.length (String.substring 0 maxLength text +:+ "...")
            = maxLength + 3) as Hlen.
    { rewrite length_append, length_substring_0. cbn. lia. }
    split; [lia|]. split; [done|]. split; [lia|].
    rewrite Hlen, (proj2 (Nat.leb_gt _ _)) by lia.
    rewrite substring_0_append by (rewrite length_substring_0; lia).
    rewrite (substring_0_all maxLength (String.substring _ _ _));
      [done|rewrite length_substring_0; lia].
Qed.


Section PlotFacts.
Import Plot.
Implicit Types (data : PlotData) (groups : list (Z * Group)) (g : Group).
Implicit Types (labels : list Z) (c label : Z).

Lemma group_of_add_point data label index groups c :
  group_of c (add_point data label index groups)
  = if decide (label = c)
    then Some (push_point data index
                 (default (new_group data index) (group_of label groups)))
    else group_of c groups.
Proof.
  induction groups as [|[l g] rest IH]; simpl.
  - by repeat case_decide.
  - destruct (decide (l = label)) as [->|Hne]; simpl.
    + by repeat case_decide.
    + rewrite IH. repeat case_decide; congruence.
Qed.

Lemma keys_add_point data label index groups :
  (add_point data label index groups).*1
  = groups.*1 ++ (if decide (label ∈ groups.*1) then [] else [label]).
Proof.
  induction groups as [|[l g] rest IH].
  - case_decide as Hin; [by apply elem_of_nil in Hin|done].
  - cbn [add_point]. destruct (decide (l = label)) as [->|Hne].
    + rewrite fmap_cons. cbn [fst].
      rewrite decide_True by apply list_elem_of_here. by rewrite app_nil_r.
    + rewrite !fmap_cons, IH. cbn [fst app]. f_equal. f_equal.
      apply decide_ext. rewrite elem_of_cons.
      split; [by right|]. by intros [?|?].
Qed.

Lemma group_of_group_from data labels index groups c :
  group_of c (group_from data index labels groups)
  = match positions c index labels with
    | [] => group_of c groups
    | p :: ps =>
        Some (foldl (λ g i, push_point data i g)
                (default (new_group data p) (group_of c groups)) (p :: ps))
    end.
Proof.
  revert index groups.
  induction labels as [|l rest IH]; intros index groups; [done|].
  cbn [group_from positions]. rewrite IH, group_of_add_point.
  destruct (decide (l = c)) as [->|Hne]; simpl.
  - by destruct (positions c (S index) rest).
  - done.
Qed.

Lemma keys_group_from data labels index groups :
  NoDup groups.*1 →
  NoDup (group_from data index labels groups).*1
  ∧ ∀ c, c ∈ (group_from data index labels groups).*1
         ↔ c ∈ groups.*1 ∨ c ∈ labels.
Proof.
  revert index groups.
  induction labels as [|l rest IH]; intros index groups Hnd.
  - split; [done|]. intros c. cbn [group_from].
    split; [by left|]. intros [?|Hin]; [done|]. by apply elem_of_nil in Hin.
  - cbn [group_from].
    destruct (IH (S index) (add_point data l index groups)) as [Hnd' Hin].
    { rewrite keys_add_point. case_decide; [by rewrite app_nil_r|].
      apply NoDup_app. split; [done|]. split; [|apply NoDup_singleton].
      intros x Hx ->%list_elem_of_singleton. done. }
    split; [done|]. intros c. rewrite Hin, keys_add_point, elem_of_cons.
    case_decide as Hl.
    + rewrite app_nil_r. split; [tauto|]. intros [?|[->|?]]; auto.
    + rewrite elem_of_app, list_elem_of_singleton. tauto.
Qed.

Lemma group_of_elem groups c g :
  NoDup groups.*1 → (c, g) ∈ groups → group_of c groups = Some g.
Proof.
  induction groups as [|[l g'] rest IH]; intros Hnd Hin.
  - by apply elem_of_nil in Hin.
  - simpl in Hnd. apply NoDup_cons in Hnd as [Hl Hnd].
    apply elem_of_cons in Hin as [[= -> ->]|Hin]; simpl.
    + by rewrite decide_True.
    + rewrite decide_False; [by apply IH|].
      intros ->. apply Hl. apply list_elem_of_fmap. by exists (c, g).
Qed.

Lemma positions_nil c index labels :
  positions c index labels = [] ↔ c ∉ labels.
Proof.
  revert index. induction labels as [|l rest IH]; intros index; simpl.
  - split; [intros _; apply not_elem_of_nil|done].
  - rewrite not_elem_of_cons. case_decide as Hl; simpl.
    + split; [done|]. intros [Hne _]. by subst.
    + rewrite IH. split; [|tauto]. intros ?. split; [congruence|done].
Qed.

Lemma pushed_fields data g ps :
  let pushed := foldl (λ g i, push_point data i g) g ps in
  g_ids pushed = g_ids g ++ ((λ i, Viz.tweet_ids (base data) !! i) <$> ps)
  ∧ g_texts pushed
    = g_texts g ++ ((λ i, Viz.tweet_texts (base data) !! i) <$> ps)
  ∧ g_x pushed = g_x g ++ ((λ i, xs data !! i) <$> ps)
  ∧ g_y pushed = g_y g ++ ((λ i, ys data !! i) <$> ps)
  ∧ g_color pushed = g_color g.
Proof.
  revert g. induction ps as [|p ps IH]; intros g; simpl.
  - by rewrite !app_nil_r.
  - destruct (IH (push_point data p g)) as (-> & -> & -> & -> & ->).
    simpl. by rewrite <-!app_assoc.
Qed.

(** The values found at the positions of a label are the second
    components of the pairs that carry the label. *)
Lemma positions_zip {A} c labels (values : list A) index :
  length labels ≤ length (drop index values) →
  (λ i, values !! i) <$> positions c index labels
  = Some <$> (snd <$> filter (λ e, e.1 = c) (zip labels (drop index values))).
Proof.
  revert index. induction labels as [|l rest IH]; intros index Hlen; [done|].
  destruct (drop index values) as [|v tail] eqn:Hdrop; [simpl in Hlen; lia|].
  assert (values !! index = Some v) as Hv.
  { rewrite <-(Nat.add_0_r index), <-lookup_drop, Hdrop. done. }
  assert (drop (S index) values = tail) as Htail.
  { rewrite <-(drop_drop _ 1 index)
      || rewrite <-(Nat.add_1_r index), <-drop_drop. all: by rewrite Hdrop. }
  cbn [positions zip zip_with]. rewrite filter_cons. simpl.
  rewrite fmap_app, IH, Htail by (rewrite Htail; simpl in Hlen; lia).
  case_decide as Hl; simpl; by rewrite ?Hv.
Qed.

End PlotFacts.

Section PlotDisplay.
Import Plot.
Implicit Types (data : PlotData) (m : Manager) (t : Graph.topic).

Lemma slot_get_set {A} t (v : A) (s : Graph.slots A) :
  Graph.slot_get t (Graph.slot_set t v s) = v.
Proof. by destruct t. Qed.

Lemma slot_get_set_ne {A} t t' (v : A) (s : Graph.slots A) :
  t ≠ t' → Graph.slot_get t' (Graph.slot_set t v s) = Graph.slot_get t' s.
Proof. by destruct t, t'. Qed.

Lemma Object_keys_Permutation {A} (entries : list (Z * A)) :
  Object_keys entries ≡ₚ entries.
Proof.
  unfold Object_keys. rewrite merge_sort_Permutation.
  apply filter_app_complement.
Qed.

(** The keys of [clusterGroups] are the labels, each once, and every
    group holds the points of its label in the order of the arrays. *)
Lemma keys_facts data :
  let keys := Object_keys (clusterGroups data) in
  NoDup keys.*1
  ∧ (∀ c, c ∈ keys.*1 ↔ c ∈ Viz.cluster_labels (base data))
  ∧ ∀ c g, (c, g) ∈ keys →
      c ∈ Viz.cluster_labels (base data)
      ∧ g_ids g = (λ i, Viz.tweet_ids (base data) !! i)
                    <$> positions c 0 (Viz.cluster_labels (base data))
      ∧ g_texts g = (λ i, Viz.tweet_texts (base data) !! i)
                      <$> positions c 0 (Viz.cluster_labels (base data)).
Proof.
  intros keys.
  destruct (keys_group_from data (Viz.cluster_labels (base data)) 0 [])
    as [Hnd Hin]; [apply NoDup_nil_2|].
  fold (clusterGroups data) in Hnd, Hin.
  assert (keys ≡ₚ clusterGroups data) as Hperm
    by apply Object_keys_Permutation.
  assert (∀ c, c ∈ keys.*1 ↔ c ∈ Viz.cluster_labels (base data)) as Hkeys.
  { intros c. rewrite Hperm, Hin. split; [|by right].
    intros [Hc|?]; [|done]. by apply elem_of_nil in Hc. }
  split; [by rewrite Hperm|]. split; [done|].
  intros c g Hg.
  assert (c ∈ Viz.cluster_labels (base data)) as Hc.
  { apply Hkeys, list_elem_of_fmap. by exists (c, g). }
  split; [done|].
  rewrite Hperm in Hg. apply (group_of_elem _ _ _ Hnd) in Hg.
  unfold clusterGroups in Hg. rewrite group_of_group_from in Hg.
  destruct (positions c 0 (Viz.cluster_labels (base data))) as [|p ps] eqn:Hp.
  { by apply positions_nil in Hp. }
  change (group_of c []) with (@None Group) in Hg.
  change (default (new_group data p) None) with (new_group data p) in Hg.
  injection Hg as <-.
  pose proof (pushed_fields data (new_group data p) (p :: ps)) as Hf.
  cbv zeta in Hf. destruct Hf as (Hi & Ht & _).
  split; [exact Hi|exact Ht].
Qed.

(** The same, against the arrays zipped with the labels, when no array is
    shorter than [cluster_labels]. *)
Lemma stories_fields c (labels : list Z) (texts ids : list string) :
  length texts = length labels → length ids = length labels →
  let stories :=
    (λ entry : Z * (string * string),
       {| Viz.st_text := entry.2.1; Viz.st_id := entry.2.2 |})
      <$> filter (λ entry, entry.1 = c) (zip labels (zip texts ids)) in
  Viz.st_id <$> stories = snd <$> filter (λ e, e.1 = c) (zip labels ids)
  ∧ Viz.st_text <$> stories = snd <$> filter (λ e, e.1 = c) (zip labels texts).
Proof.
  revert texts ids.
  induction labels as [|l rest IH]; intros texts ids Ht Hi; [done|].
  destruct texts as [|x texts]; [done|]. destruct ids as [|y ids]; [done|].
  injection Ht as Ht. injection Hi as Hi.
  destruct (IH texts ids Ht Hi) as [IHi IHt].
  cbn [zip zip_with]. rewrite !filter_cons. cbn [fst].
  case_decide; cbn; by rewrite ?IHi, ?IHt.
Qed.

Lemma group_stories data c g :
  length (Viz.tweet_ids (base data)) = length (Viz.cluster_labels (base data)) →
  length (Viz.tweet_texts (base data)) = length (Viz.cluster_labels (base data)) →
  (c, g) ∈ Object_keys (clusterGroups data) →
  g_ids g = Some ∘ Viz.st_id <$> Viz.cluster_stories c (base data)
  ∧ g_texts g = Some ∘ Viz.st_text <$> Viz.cluster_stories c (base data)
  ∧ Viz.st_id <$> Viz.cluster_stories c (base data)
    = Viz.cluster_story_ids c (base data).
Proof.
  intros Hi Ht Hg.
  destruct (keys_facts data) as (_ & _ & Hgroup).
  destruct (Hgroup c g Hg) as (_ & -> & ->).
  destruct (stories_fields c _ _ _ Ht Hi) as [Hids Htexts].
  fold (Viz.cluster_stories c (base data)) in Hids, Htexts.
  rewrite !positions_zip by (rewrite drop_0; lia). rewrite !drop_0.
  rewrite !list_fmap_compose, Hids, Htexts. done.
Qed.

Lemma mapM_defined {A B} (h : A → B) (l : list A) :
  mapM (λ v : option A, h <$> v) (Some <$> l) = Some (h <$> l).
Proof.
  apply mapM_Some_2. induction l as [|x l IH]; constructor; done.
Qed.

Lemma created_facts data searchId t m m' :
  createClusterVisualization data searchId t m = Some m' →
  ∃ drawn,
    mapM (make_trace data) (Object_keys (clusterGroups data)) = Some drawn
    ∧ currentTopic m' = t
    ∧ Graph.slot_get t (visualizations m')
      = Some {| v_searchId := searchId; v_data := data |}
    ∧ Graph.slot_get t (clusterIdMaps m')
      = (Object_keys (clusterGroups data)).*1
    ∧ Graph.slot_get t (traces m') = Some drawn
    ∧ plot m' = Some drawn
    ∧ Graph.slot_get t (highlightedCluster m') = None
    ∧ details m' = details m.
Proof.
  unfold createClusterVisualization, displayVisualization. cbn.
  rewrite slot_get_set. cbn.
  destruct (mapM _ _) as [drawn|]; [|done]. intros [= <-].
  exists drawn. cbn. by rewrite !slot_get_set.
Qed.

Lemma make_trace_facts data c g tr :
  make_trace data (c, g) = Some tr →
  t_customdata tr
  = imap (λ i id, {| story_id := id; cluster_id := c;
                     full_text := mjoin (g_texts g !! i) |}) (g_ids g)
  ∧ mapM (λ t : option string, (λ s, Text.truncateText s 100) <$> t)
         (g_texts g) = Some (t_text tr)
  ∧ t_opacity tr = 0.8%float.
Proof.
  unfold make_trace. cbn.
  destruct (cluster_info data !! pretty c); [|done]. cbn.
  destruct (mapM _ _); [|done]. by intros [= <-].
Qed.

End PlotDisplay.

Section PlotOrder.
Import Plot.

#[local] Instance key_le_total {A} : Total (@key_le A).
Proof. intros a b. unfold key_le. lia. Qed.

#[local] Instance key_le_trans {A} : Transitive (@key_le A).
Proof. intros a b c. unfold key_le. lia. Qed.

Lemma StronglySorted_seq (start count : nat) :
  StronglySorted lt (seq start count).
Proof.
  revert start. induction count as [|count IH]; intros start;
    constructor; [apply IH|].
  apply Forall_forall. intros x Hx%elem_of_seq. lia.
Qed.

Lemma StronglySorted_seqZ (start count : Z) :
  StronglySorted Z.lt (seqZ start count).
Proof.
  unfold seqZ.
  apply (StronglySorted_fmap _ lt); [|apply StronglySorted_seq]. lia.
Qed.

(** A list of distinct integers in non-decreasing order increases. *)
Lemma StronglySorted_le_lt (l : list Z) :
  NoDup l → StronglySorted Z.le l → StronglySorted Z.lt l.
Proof.
  induction 2 as [|x l Hsorted IH Hall]; constructor.
  - apply IH. by eapply NoDup_cons_1_2.
  - apply NoDup_cons in H as [Hx _].
    rewrite Forall_forall in Hall |- *. intros y Hy.
    destruct (decide (x = y)) as [->|Hne]; [done|].
    specialize (Hall y Hy). lia.
Qed.

Lemma filter_none {A} (P : A → Prop) `{!∀ x, Decision (P x)} (l : list A) :
  (∀ x, x ∈ l → ¬ P x) → filter P l = [].
Proof.
  induction l as [|x l IH]; intros Hall; [done|].
  rewrite filter_cons, decide_False by (apply Hall, list_elem_of_here).
  apply IH. intros y Hy. by apply Hall, list_elem_of_further.
Qed.

(** When every label is an array index, the keys come out in
    increasing order. *)
Lemma keys_sorted data :
  (∀ c, c ∈ Viz.cluster_labels (base data) → is_index c) →
  StronglySorted Z.lt (Object_keys (clusterGroups data)).*1.
Proof.
  intros Hindex.
  destruct (keys_facts data) as (Hnd & Hkeys & _).
  apply StronglySorted_le_lt; [done|].
  assert (∀ entry, entry ∈ clusterGroups data → is_index entry.1) as Hall.
  { intros [c g] Hg. apply Hindex, Hkeys.
    rewrite Object_keys_Permutation. apply list_elem_of_fmap. by exists (c, g). }
  unfold Object_keys.
  rewrite (filter_none (λ e, ¬ is_index e.1)), app_nil_r.
  - apply (StronglySorted_fmap _ key_le); [done|].
    apply StronglySorted_merge_sort; apply _.
  - intros entry Hentry Hnot. by apply Hnot, Hall.
Qed.

End PlotOrder.

Section PlotCache.
Import Plot.

Lemma displayVisualization_details t m m' :
  displayVisualization t m = Some m' → details m' = details m.
Proof.
  unfold displayVisualization.
  destruct (Graph.slot_get t (visualizations m)); [|by intros [= <-]].
  cbn. destruct (mapM _ _); [|done]. by intros [= <-].
Qed.

Lemma click_keeps_cache clusterId (data : Viz.VizData) searchId
    (inner : Viz.Manager) :
  Viz.summaryCache
    (Viz.handleClusterClickByClusterId clusterId data searchId inner).1
  = Viz.summaryCache inner.
Proof.
  unfold Viz.handleClusterClickByClusterId.
  by destruct (Viz.summaryCache inner !! _).
Qed.

Lemma highlightCluster_details c t m :
  details (highlightCluster c t m) = details m.
Proof.
  unfold highlightCluster. by destruct (Graph.slot_get t (traces m)).
Qed.

Lemma handleClusterClickByClusterId_cache c data searchId m :
  Viz.summaryCache (details (handleClusterClickByClusterId c data searchId m).1)
  = Viz.summaryCache (details m).
Proof.
  unfold handleClusterClickByClusterId.
  pose proof (click_keeps_cache c (base data) searchId
                (details (highlightCluster c (currentTopic m) m))) as Hkeep.
  destruct (Viz.handleClusterClickByClusterId _ _ _ _) as [inner request].
  cbn in *. by rewrite Hkeep, highlightCluster_details.
Qed.

(** No event removes a key from the summary cache. *)
Lemma step_keeps_summaries m e m' key :
  step m e = Some m' →
  is_Some (Viz.summaryCache (details m) !! key) →
  is_Some (Viz.summaryCache (details m') !! key).
Proof.
  destruct e as [data searchId t|t|curve pointIndex|curveNumber|rq summary|rq|];
    cbn; intros Hstep Hkey.
  - unfold createClusterVisualization in Hstep.
    by rewrite (displayVisualization_details _ _ _ Hstep).
  - unfold switchTopic in Hstep.
    destruct (Graph.slot_get t (visualizations m)).
    + by rewrite (displayVisualization_details _ _ _ Hstep).
    + by injection Hstep as <-.
  - injection Hstep as <-. unfold handleClusterClick.
    destruct (_ ≫= _); [|done].
    destruct (Graph.slot_get _ (visualizations m)); [|done].
    by rewrite handleClusterClickByClusterId_cache.
  - injection Hstep as <-. unfold legend_clicked.
    destruct (Graph.slot_get _ (visualizations m)); [|done].
    destruct (_ !! curveNumber); [|done].
    by rewrite handleClusterClickByClusterId_cache.
  - injection Hstep as <-. cbn.
    destruct (decide (Viz.rq_cacheKey rq = key)) as [->|Hne].
    + rewrite lookup_insert_eq. by eexists.
    + by rewrite lookup_insert_ne.
  - by injection Hstep as <-.
  - by injection Hstep as <-.
Qed.

Lemma run_keeps_summaries events m m' key :
  run m events = Some m' →
  is_Some (Viz.summaryCache (details m) !! key) →
  is_Some (Viz.summaryCache (details m') !! key).
Proof.
  unfold run. revert m.
  induction events as [|e events IH]; intros m; cbn.
  - by intros [= <-].
  - destruct (step m e) as [m1|] eqn:Hstep.
    + intros Hrun Hkey. apply (IH m1 Hrun).
      by apply (step_keeps_summaries m e).
    + intros Hrun. exfalso. clear -Hrun.
      induction events as [|e' events IH']; [done|]. by apply IH'.
Qed.

End PlotCache.

(** ** The cluster plot: traces, legend, highlighting *)

(** Every story is drawn once, in the trace of its label.  When no array
    of the response is shorter than [cluster_labels] and [cluster_info]
    has an entry for every label, [createClusterVisualization] returns
    and displays one trace for each label; the points of the trace of a
    cluster are, in the same order, the stories that a click on that
    cluster lists and whose ids it sends to the Summary Service. *)
Theorem plot_draws_each_story_in_the_trace_of_its_label
    (data : Plot.PlotData) (searchId : string) (t : Graph.topic)
    (m : Plot.Manager) :
  let labels := Viz.cluster_labels (Plot.base data) in
  length (Viz.tweet_ids (Plot.base data)) = length labels →
  length (Viz.tweet_texts (Plot.base data)) = length labels →
  (∀ c, c ∈ labels → is_Some (Plot.cluster_info data !! pretty c)) →
  ∃ m' drawn,
    Plot.createClusterVisualization data searchId t m = Some m'
    ∧ Plot.currentTopic m' = t
    ∧ Plot.plot m' = Some drawn
    ∧ NoDup (Graph.slot_get t (Plot.clusterIdMaps m'))
    ∧ (∀ c, c ∈ Graph.slot_get t (Plot.clusterIdMaps m') ↔ c ∈ labels)
    ∧ length drawn = length (Graph.slot_get t (Plot.clusterIdMaps m'))
    ∧ ∀ i c tr,
        Graph.slot_get t (Plot.clusterIdMaps m') !! i = Some c →
        drawn !! i = Some tr →
        Plot.t_customdata tr
        = (λ story, {| Plot.story_id := Some (Viz.st_id story);
                       Plot.cluster_id := c;
                       Plot.full_text := Some (Viz.st_text story) |})
            <$> Viz.cluster_stories c (Plot.base data)
        ∧ Plot.story_id <$> Plot.t_customdata tr
          = Some <$> Viz.cluster_story_ids c (Plot.base data)
        ∧ Plot.t_text tr
          = (λ story, Text.truncateText (Viz.st_text story) 100)
              <$> Viz.cluster_stories c (Plot.base data)
        ∧ Plot.t_opacity tr = 0.8%float.
Proof.
  intros labels Hids Htexts Hinfo.
  destruct (keys_facts data) as (Hnd & Hkeys & Hgroup).
  set (keys := Plot.Object_keys (Plot.clusterGroups data)) in *.
  assert (is_Some (mapM (Plot.make_trace data) keys)) as [drawn Hdrawn].
  { apply mapM_is_Some, Forall_forall. intros [c g] Hg.
    destruct (group_stories data c g Hids Htexts Hg) as (_ & Hgt & _).
    destruct (Hgroup c g Hg) as (Hc & _).
    destruct (Hinfo c Hc) as [size Hsize].
    unfold compose, Plot.make_trace. cbn. rewrite Hsize. cbn.
    rewrite Hgt, list_fmap_compose, mapM_defined. by eexists. }
  assert (∃ m', Plot.createClusterVisualization data searchId t m = Some m')
    as [m' Hm'].
  { unfold Plot.createClusterVisualization, Plot.displayVisualization. cbn.
    rewrite slot_get_set. cbn. fold keys. rewrite Hdrawn. by eexists. }
  destruct (created_facts _ _ _ _ _ Hm')
    as (drawn' & Hdrawn' & Htopic & _ & Hmap & _ & Hplot & _).
  fold keys in Hdrawn', Hmap. rewrite Hdrawn in Hdrawn'.
  injection Hdrawn' as <-.
  exists m', drawn. rewrite Hmap.
  split; [done|]. split; [done|]. split; [done|]. split; [done|].
  split; [done|].
  split; [by rewrite <-(length_mapM _ _ _ Hdrawn), length_fmap|].
  intros i c tr Hc Htr.
  apply list_lookup_fmap_Some in Hc as ([c' g] & -> & Hkey).
  apply mapM_Some_1 in Hdrawn.
  destruct (Forall2_lookup_l _ _ _ _ _ Hdrawn Hkey) as (tr' & Htr' & Hmake).
  rewrite Htr in Htr'. injection Htr' as <-. cbn [fst].
  apply list_elem_of_lookup_2 in Hkey.
  destruct (group_stories data c' g Hids Htexts Hkey) as (Hgi & Hgt & Hsame).
  destruct (make_trace_facts _ _ _ _ Hmake) as (Hcustom & Htext & Hop).
  assert (Plot.t_customdata tr
          = (λ story, {| Plot.story_id := Some (Viz.st_id story);
                         Plot.cluster_id := c';
                         Plot.full_text := Some (Viz.st_text story) |})
              <$> Viz.cluster_stories c' (Plot.base data)) as Hpoints.
  { rewrite Hcustom, Hgi, Hgt. apply list_eq. intros j.
    rewrite list_lookup_imap, !list_lookup_fmap.
    by destruct (Viz.cluster_stories c' (Plot.base data) !! j). }
  split; [done|]. split; [|split; [|done]].
  - rewrite Hpoints, <-Hsame, <-!list_fmap_compose. done.
  - rewrite Hgt, list_fmap_compose in Htext.
    rewrite mapM_defined in Htext.
    injection Htext as <-. by rewrite <-list_fmap_compose.
Qed.

Lemma plot_draws_each_story_witness :
  ∃ m',
    Plot.createClusterVisualization Samples.plot "search-a" Graph.top Plot.init
    = Some m'
    ∧ Graph.slot_get Graph.top (Plot.clusterIdMaps m') = [0; 1]%Z
    ∧ ((λ drawn : list Plot.Trace, Plot.t_customdata <$> drawn)
         <$> Plot.plot m')
      = Some [[{| Plot.story_id := Some "17"; Plot.cluster_id := 0;
                  Plot.full_text := Some "x" |}];
              [{| Plot.story_id := Some "305"; Plot.cluster_id := 1;
                  Plot.full_text := Some "c" |};
               {| Plot.story_id := Some "42"; Plot.cluster_id := 1;
                  Plot.full_text := Some "a" |};
               {| Plot.story_id := Some "9"; Plot.cluster_id := 1;
                  Plot.full_text := Some "b" |}]].
Proof.
  destruct (plot_draws_each_story_in_the_trace_of_its_label
              Samples.plot "search-a" Graph.top Plot.init)
    as (m' & drawn & Hm' & _).
  - reflexivity.
  - reflexivity.
  - intros c Hc. apply (bool_decide_unpack _) in Hc || idtac.
    repeat (apply elem_of_cons in Hc as [->|Hc]; [by eexists|]).
    by apply elem_of_nil in Hc.
  - exists m'. split; [exact Hm'|].
    vm_compute in Hm'. injection Hm' as <-. split; reflexivity.
Defined.

(** The legend lists the clusters by number, not by first appearance.
    When every label is an array index (an integer from 0 up to 2³² - 2),
    the traces come in increasing order of label, whatever the order of
    the stories in the response; so when the labels are the cluster
    numbers [0 .. k-1], the trace and legend entry of index [i] is
    cluster [i]. *)
Theorem legend_lists_clusters_in_increasing_order
    (data : Plot.PlotData) (searchId : string) (t : Graph.topic)
    (m m' : Plot.Manager) :
  (∀ c, c ∈ Viz.cluster_labels (Plot.base data) → (0 ≤ c < 4294967295)%Z) →
  Plot.createClusterVisualization data searchId t m = Some m' →
  StronglySorted Z.lt (Graph.slot_get t (Plot.clusterIdMaps m'))
  ∧ ∀ k, (∀ c, c ∈ Viz.cluster_labels (Plot.base data) ↔ (0 ≤ c < k)%Z) →
      Graph.slot_get t (Plot.clusterIdMaps m') = seqZ 0 k.
Proof.
  intros Hindex Hm'.
  destruct (created_facts _ _ _ _ _ Hm') as (drawn & _ & _ & _ & -> & _).
  destruct (keys_facts data) as (Hnd & Hkeys & _).
  assert (StronglySorted Z.lt
            (Plot.Object_keys (Plot.clusterGroups data)).*1) as Hsorted.
  { apply keys_sorted. intros c Hc. unfold Plot.is_index.
    apply bool_decide_pack. by apply Hindex. }
  split; [done|]. intros k Hk.
  apply (StronglySorted_unique_strong Z.lt);
    [|done|apply StronglySorted_seqZ|].
  - intros x y _ _ ??. lia.
  - apply NoDup_Permutation; [done|apply NoDup_seqZ|].
    intros c. rewrite Hkeys, Hk, elem_of_seqZ. lia.
Qed.

Lemma legend_order_witness :
  ∃ m',
    Plot.createClusterVisualization Samples.plot "search-a" Graph.top Plot.init
    = Some m'
    ∧ Viz.cluster_labels (Plot.base Samples.plot) = [1; 0; 1; 1]%Z
    ∧ Graph.slot_get Graph.top (Plot.clusterIdMaps m') = seqZ 0 2.
Proof.
  eexists. split; [vm_compute; reflexivity|]. split; [reflexivity|].
  eapply (legend_lists_clusters_in_increasing_order
            Samples.plot "search-a" Graph.top Plot.init).
  - intros c Hc.
    repeat (apply elem_of_cons in Hc as [->|Hc]; [lia|]).
    by apply elem_of_nil in Hc.
  - vm_compute. reflexivity.
  - intros c. split.
    + intros Hc. repeat (apply elem_of_cons in Hc as [->|Hc]; [lia|]).
      by apply elem_of_nil in Hc.
    + intros Hc. assert (c = 0 ∨ c = 1)%Z as [-> | ->] by lia.
      * apply list_elem_of_further, list_elem_of_here.
      * apply list_elem_of_here.
Defined.

(** A click on a legend entry highlights exactly the trace of that
    entry: on the plot that [createClusterVisualization] has just drawn,
    the click on the entry of index [i] gives the trace of index [i] the
    opacity [1.0] and every other trace the opacity [0.15], and records
    its cluster as the highlighted one.  A click on any point of that
    trace does exactly what the click on its legend entry does, request
    to the Summary Service included. *)
Theorem click_highlights_exactly_the_clicked_cluster
    (data : Plot.PlotData) (searchId : string) (t : Graph.topic)
    (m m' : Plot.Manager) (i : nat) (c : Z) :
  Plot.createClusterVisualization data searchId t m = Some m' →
  Graph.slot_get t (Plot.clusterIdMaps m') !! i = Some c →
  let clicked := (Plot.legend_clicked i m').1 in
  Graph.slot_get t (Plot.highlightedCluster clicked) = Some c
  ∧ (∃ drawn shown,
       Plot.plot m' = Some drawn ∧ Plot.plot clicked = Some shown
       ∧ length shown = length drawn
       ∧ ∀ j tr, shown !! j = Some tr →
           Plot.t_opacity tr = if decide (j = i) then 1.0%float else 0.15%float)
  ∧ ∀ pointIndex drawn tr,
      Plot.plot m' = Some drawn → drawn !! i = Some tr →
      pointIndex < length (Plot.t_customdata tr) →
      Plot.handleClusterClick i pointIndex m' = Plot.legend_clicked i m'.
Proof.
  intros Hm' Hc clicked.
  destruct (created_facts _ _ _ _ _ Hm')
    as (drawn & Hdrawn & Htopic & Hviz & Hmap & Htraces & Hplot & _).
  destruct (keys_facts data) as (Hnd & _).
  rewrite <-Hmap in Hnd.
  assert (Plot.legend_clicked i m'
          = Plot.handleClusterClickByClusterId c data searchId m') as Hlegend.
  { unfold Plot.legend_clicked. by rewrite Htopic, Hviz, Hc. }
  unfold clicked. rewrite Hlegend. clear clicked.
  assert (∀ P Q R : Prop, P ∧ Q → R → P ∧ Q ∧ R) as Hsplit by tauto.
  apply Hsplit; clear Hsplit.
  { unfold Plot.handleClusterClickByClusterId.
    destruct (Viz.handleClusterClickByClusterId _ _ _ _) as [inner request].
    cbn [fst]. rewrite Htopic.
    unfold Plot.highlightCluster. rewrite Htraces. cbn.
    rewrite slot_get_set, Hplot. cbn.
    split; [done|].
    exists drawn, (Plot.restyle
                     (imap (λ index _,
                        if bool_decide
                             (Graph.slot_get t (Plot.clusterIdMaps m') !! index
                              = Some c)
                        then 1.0%float else 0.15%float) drawn) drawn).
    split; [done|]. split; [done|].
    split; [unfold Plot.restyle; by rewrite length_imap|].
    intros j tr. unfold Plot.restyle.
    rewrite list_lookup_imap_Some. intros (tr0 & Htr0 & ->). cbn.
    rewrite length_imap, Nat.mod_small by (by eapply lookup_lt_Some).
    rewrite list_lookup_imap, Htr0. cbn.
    destruct (decide (j = i)) as [->|Hne].
    + by rewrite bool_decide_true.
    + rewrite bool_decide_false; [done|]. intros Hj.
      by apply Hne, (NoDup_lookup _ _ _ _ Hnd Hj). }
  intros pointIndex drawn' tr Hplot' Htr Hlt.
  rewrite Hplot in Hplot'. injection Hplot' as <-.
  assert (∃ g, Plot.Object_keys (Plot.clusterGroups data) !! i = Some (c, g)
               ∧ Plot.make_trace data (c, g) = Some tr) as (g & Hkey & Hmake).
  { rewrite Hmap in Hc.
    apply list_lookup_fmap_Some in Hc as ([c' g] & -> & Hkey).
    apply mapM_Some_1 in Hdrawn.
    destruct (Forall2_lookup_l _ _ _ _ _ Hdrawn Hkey) as (tr' & Htr' & Hmake).
    rewrite Htr in Htr'. injection Htr' as <-. by exists g. }
  destruct (make_trace_facts _ _ _ _ Hmake) as (Hcustom & _).
  destruct (lookup_lt_is_Some_2 _ _ Hlt) as [point Hpoint].
  assert (Plot.cluster_id point = c) as Hid.
  { rewrite Hcustom in Hpoint.
    apply list_lookup_imap_Some in Hpoint as (? & _ & ->). done. }
  unfold Plot.handleClusterClick. rewrite Hplot. cbn.
  rewrite Htr. cbn. by rewrite Hpoint, Htopic, Hviz, Hid.
Qed.


Lemma click_highlights_witness :
  ∃ m',
    Plot.createClusterVisualization Samples.plot "search-a" Graph.top Plot.init
    = Some m'
    ∧ ((λ shown : list Plot.Trace, Plot.t_opacity <$> shown)
         <$> Plot.plot (Plot.legend_clicked 1 m').1)
      = Some [0.15; 1.0]%float
    ∧ Plot.handleClusterClick 1 2 m' = Plot.legend_clicked 1 m'.
Proof.
  eexists. split; [vm_compute; reflexivity|].
  split; [vm_compute; reflexivity|].
  eapply (click_highlights_exactly_the_clicked_cluster
            Samples.plot "search-a" Graph.top Plot.init _ 1 1%Z).
  - vm_compute. reflexivity.
  - vm_compute. reflexivity.
  - vm_compute. reflexivity.
  - vm_compute. reflexivity.
  - vm_compute. lia.
Defined.

(** [resetHighlighting] undoes [highlightCluster]: on a plot that has
    just been drawn, highlighting any cluster and then resetting gives
    back the manager and the plot exactly as they were, every trace at
    its opacity of [0.8]. *)
Theorem resetHighlighting_undoes_highlightCluster
    (data : Plot.PlotData) (searchId : string) (t : Graph.topic)
    (m m' : Plot.Manager) (c : Z) :
  Plot.createClusterVisualization data searchId t m = Some m' →
  Plot.resetHighlighting t (Plot.highlightCluster c t m') = m'.
Proof.
  intros Hm'.
  destruct (created_facts _ _ _ _ _ Hm') as (drawn & Hdrawn & _).
  assert (∀ opacity, Plot.restyle ((λ _, 0.8%float) <$> drawn)
                       (Plot.restyle opacity drawn) = drawn) as Hrestyle.
  { intros opacity. apply list_eq. intros j. unfold Plot.restyle.
    rewrite !list_lookup_imap.
    destruct (drawn !! j) as [tr|] eqn:Htr; [|done]. cbn.
    rewrite length_fmap, (Nat.mod_small j (length drawn))
      by (eapply lookup_lt_Some, Htr).
    rewrite list_lookup_fmap, Htr. cbn.
    apply mapM_Some_1 in Hdrawn.
    destruct (Forall2_lookup_r _ _ _ _ _ Hdrawn Htr) as ([c' g] & _ & Hmake).
    destruct (make_trace_facts _ _ _ _ Hmake) as (_ & _ & Hop).
    destruct tr. cbn in *. by rewrite Hop. }
  revert Hm'.
  unfold Plot.createClusterVisualization, Plot.displayVisualization. cbn.
  rewrite slot_get_set. cbn. rewrite Hdrawn. cbn. intros [= <-].
  unfold Plot.resetHighlighting, Plot.highlightCluster. cbn.
  rewrite slot_get_set. cbn. rewrite slot_get_set.
  unfold Plot.with_highlight, Plot.with_display. cbn.
  rewrite Hrestyle. f_equal. by destruct t.
Qed.

Lemma resetHighlighting_witness :
  ∃ m',
    Plot.createClusterVisualization Samples.plot "search-a" Graph.top Plot.init
    = Some m'
    ∧ Plot.resetHighlighting Graph.top (Plot.highlightCluster 1 Graph.top m')
      = m'.
Proof.
  eexists. split; [vm_compute; reflexivity|].
  apply (resetHighlighting_undoes_highlightCluster
           Samples.plot "search-a" Graph.top Plot.init).
  vm_compute. reflexivity.
Defined.

(** The summary cache outlives every visualization.  Once the summary of
    a cluster has been fetched, nothing that happens afterwards, be it a
    new visualization, a topic switch, other clicks, other summaries or
    [clearVisualization], removes it: a later click on the same cluster
    of the same search is answered from the cache and sends no request. *)
Theorem fetched_summary_is_never_requested_again
    (events : list Plot.event) (m m1 m' : Plot.Manager)
    (data : Plot.PlotData) (searchId : string) (c : Z)
    (rq : Viz.Request) (summary : Cluster.Summary) :
  Plot.handleClusterClickByClusterId c data searchId m = (m1, Some rq) →
  Plot.run (Plot.summary_resolved rq summary m1) events = Some m' →
  let again := Plot.handleClusterClickByClusterId c data searchId m' in
  again.2 = None
  ∧ Viz.summary_calls (Plot.details again.1)
    = Viz.summary_calls (Plot.details m')
  ∧ Plot.details_shown again.1 = true.
Proof.
  intros Hclick Hrun again.
  set (key := Viz._getCacheKey searchId c
                (Viz.cluster_story_ids c (Plot.base data))).
  assert (Viz.rq_cacheKey rq = key) as Hkey.
  { revert Hclick. unfold Plot.handleClusterClickByClusterId.
    unfold Viz.handleClusterClickByClusterId. fold key.
    destruct (Viz.summaryCache _ !! key); [by intros [= _ ?]|].
    by intros [= _ <-]. }
  assert (is_Some (Viz.summaryCache (Plot.details m') !! key))
    as [cached Hcached].
  { apply (run_keeps_summaries events _ _ _ Hrun). cbn.
    rewrite Hkey, lookup_insert_eq. by eexists. }
  unfold again, Plot.handleClusterClickByClusterId.
  unfold Viz.handleClusterClickByClusterId. fold key.
  rewrite highlightCluster_details, Hcached. done.
Qed.

Lemma fetched_summary_witness :
  let shown :=
    default Plot.init
      (Plot.createClusterVisualization Samples.plot "search-a" Graph.top
         Plot.init) in
  let first :=
    Plot.handleClusterClickByClusterId 1 Samples.plot "search-a" shown in
  let rq := {| Viz.rq_cacheKey := "search-a:1:305,42,9";
               Viz.rq_stories := Viz.cluster_stories 1 Examples.plot_data |} in
  let events :=
    [Plot.Cleared; Plot.Created Samples.plot "search-a" Graph.bottom] in
  let m' :=
    default Plot.init
      (Plot.run (Plot.summary_resolved rq Examples.summary_A first.1)
         events) in
  first.2 = Some rq
  ∧ Plot.visualizations m'
    = Graph.Slots None (Some {| Plot.v_searchId := "search-a";
                                Plot.v_data := Samples.plot |})
  ∧ (Plot.handleClusterClickByClusterId 1 Samples.plot "search-a" m').2 = None.
Proof.
  intros shown first rq events m'.
  split; [vm_compute; reflexivity|]. split; [vm_compute; reflexivity|].
  apply (fetched_summary_is_never_requested_again
           events shown first.1 m' Samples.plot "search-a" 1%Z rq
           Examples.summary_A).
  - vm_compute. reflexivity.
  - vm_compute. reflexivity.
Defined.
